(** * Annotation explorer (webtool/static/js/explorer.js): model and properties

    The script is DOM glue written against jQuery.  The model keeps the
    parts of the page the script reads and writes as records, threads the
    page through every function as explicit state, and logs network
    requests and alerts in that state.  JavaScript strings are sequences of
    UTF-16 code units.  What the browser does with strings handed to it as
    markup is a parameter ([browser]).

    The properties come in two groups: the statements of the
    specification (C1 to C10), and further properties read off the code
    (X1 to X21): the schema and the markers of a parsed editor, the shape
    of an option group, what is sent on saving, and what the
    reconciliation of [applyAnnotationFields] makes of the widgets of a
    field that is converted, kept, rebuilt, new or gone.

    The repository holds a second copy of the script.  It differs in
    [parseAnnotation], in one line of the option loop of
    [parseAnnotationFields], and in [applyAnnotationFields], which there
    reloads the page instead of reconciling the widgets; where a statement
    covers that copy too, it says so. *)

From Stdlib Require Import List Bool NArith ZArith Lia String Ascii Permutation.
Import ListNotations.

Set Implicit Arguments.

(* ================================================================== *)
(** * JavaScript strings *)
(* ================================================================== *)

(** A JavaScript string: the list of its UTF-16 code units. *)
Definition jsstring := list N.

(** ASCII literal of the source, as code units. *)
Fixpoint lit (s : string) : jsstring :=
  match s with
  | EmptyString => []
  | String a r => N_of_ascii a :: lit r
  end.

Arguments lit : simpl never.

(** [a === b] on strings. *)
Fixpoint jseqb (a b : jsstring) : bool :=
  match a, b with
  | [], [] => true
  | x :: a', y :: b' => N.eqb x y && jseqb a' b'
  | _, _ => false
  end.

(** [Array.prototype.includes] on an array of strings. *)
Definition includes (l : list jsstring) (x : jsstring) : bool :=
  existsb (jseqb x) l.

(** [s.length > 0]; the source writes [!s.length > 0] for its negation,
    which parses as [(!s.length) > 0] and is true exactly when the length
    is zero. *)
Definition nonempty (s : jsstring) : bool :=
  match s with [] => false | _ :: _ => true end.

(** The characters matched by the regular expression class [\s]:
    ECMAScript WhiteSpace and LineTerminator code points. *)
Definition is_ws (c : N) : bool :=
  (N.leb 9 c && N.leb c 13)            (* \t \n \v \f \r *)
  || N.eqb c 32                        (* space *)
  || N.eqb c 160                       (* U+00A0 *)
  || N.eqb c 5760                      (* U+1680 *)
  || (N.leb 8192 c && N.leb c 8202)    (* U+2000 .. U+200A *)
  || N.eqb c 8232 || N.eqb c 8233      (* U+2028, U+2029 *)
  || N.eqb c 8239                      (* U+202F *)
  || N.eqb c 8287                      (* U+205F *)
  || N.eqb c 12288                     (* U+3000 *)
  || N.eqb c 65279.                    (* U+FEFF *)

Definition SP : N := 32.
Definition DASH : N := 45.

(** [s.replace(/\s+/g, ' ')]: scanning left to right, the first character
    of a whitespace run is replaced by one space and the rest of the run
    (the greedy [+]) is consumed with it.  [in_run] tells that the previous
    character belonged to the run being consumed. *)
Fixpoint replace_ws_from (in_run : bool) (s : jsstring) : jsstring :=
  match s with
  | [] => []
  | c :: r =>
      if is_ws c then
        if in_run then replace_ws_from true r
        else SP :: replace_ws_from true r
      else c :: replace_ws_from false r
  end.

Definition replace_ws_runs (s : jsstring) : jsstring := replace_ws_from false s.

(** [pat] is a prefix of [s]; the rest of [s] is returned. *)
Fixpoint strip_prefix (pat s : jsstring) : option jsstring :=
  match pat, s with
  | [], _ => Some s
  | _ :: _, [] => None
  | p :: pat', c :: s' => if N.eqb p c then strip_prefix pat' s' else None
  end.

(** [s.replace(pat, rep)] with a string pattern: the first occurrence only. *)
Fixpoint replace_first (pat rep s : jsstring) : jsstring :=
  match strip_prefix pat s with
  | Some rest => rep ++ rest
  | None => match s with
            | [] => []
            | c :: s' => c :: replace_first pat rep s'
            end
  end.

(** [s.split(sep)] for a non-empty separator string.  [skip] counts the
    characters of a matched separator that are still to be passed over. *)
Fixpoint split_from (sep : jsstring) (skip : nat) (s : jsstring) : list jsstring :=
  match s with
  | [] => [[]]
  | c :: r =>
      match skip with
      | S k => split_from sep k r
      | O =>
          match strip_prefix sep s with
          | Some _ => [] :: split_from sep (List.length sep - 1) r
          | None =>
              match split_from sep 0 r with
              | [] => [[c]]
              | w :: ws => (c :: w) :: ws
              end
          end
      end
  end.

Definition split_str (sep s : jsstring) : list jsstring := split_from sep 0 s.

(** [s.replaceAll(pat, rep)] for a non-empty pattern string. *)
Fixpoint replace_all_from (pat rep : jsstring) (skip : nat) (s : jsstring) : jsstring :=
  match s with
  | [] => []
  | c :: r =>
      match skip with
      | S k => replace_all_from pat rep k r
      | O =>
          match strip_prefix pat s with
          | Some _ => rep ++ replace_all_from pat rep (List.length pat - 1) r
          | None => c :: replace_all_from pat rep 0 r
          end
      end
  end.

Definition replace_all (pat rep s : jsstring) : jsstring :=
  replace_all_from pat rep 0 s.

(** [tokens.join(" ")]. *)
Fixpoint join_sp (tokens : list jsstring) : jsstring :=
  match tokens with
  | [] => []
  | [t] => t
  | t :: ts => t ++ SP :: join_sp ts
  end.

(** A property key: [undefined] used as a key is the string "undefined". *)
Definition to_key (o : option jsstring) : jsstring :=
  match o with Some s => s | None => lit "undefined" end.

(* ================================================================== *)
(** * Plain objects *)
(* ================================================================== *)

(** A plain object with string keys, in insertion order. *)
Definition obj (V : Type) := list (jsstring * V).

Fixpoint obj_get {V} (o : obj V) (k : jsstring) : option V :=
  match o with
  | [] => None
  | (k', v) :: o' => if jseqb k k' then Some v else obj_get o' k
  end.

(** [o[k] = v]: an existing key keeps its place, a new key goes last.
    For the key "__proto__" the assignment sets the prototype of the
    object and adds no property; statements about the keys of an object
    assume [own_key]. *)
Fixpoint obj_set {V} (o : obj V) (k : jsstring) (v : V) : obj V :=
  match o with
  | [] => [(k, v)]
  | (k', v') :: o' =>
      if jseqb k k' then (k', v) :: o' else (k', v') :: obj_set o' k v
  end.

(* ================================================================== *)
(** * The schema editor *)
(* ================================================================== *)

(** The four values of the [.annotation-field-type] select. *)
Inductive field_type := text | textarea | dropdown | checkbox.

Definition field_type_eqb (a b : field_type) : bool :=
  match a, b with
  | text, text | textarea, textarea
  | dropdown, dropdown | checkbox, checkbox => true
  | _, _ => false
  end.

Definition type_name (t : field_type) : jsstring :=
  match t with
  | text => lit "text"
  | textarea => lit "textarea"
  | dropdown => lit "dropdown"
  | checkbox => lit "checkbox"
  end.

(** One [div.option-field]: its text input and, possibly, the delete
    control appended after it. *)
Record option_field := {
  opt_id : jsstring;        (* id attribute of the input, "input-..." *)
  opt_value : jsstring;     (* current value of the input *)
  opt_invalid : bool;       (* the input carries class "invalid" *)
  opt_delete : bool         (* an a.delete-option-field is present *)
}.

(** One row of the editor, a grid of three cells: the
    [dd.annotation-field] with its label input, the type select, and the
    options container. *)
Record editor_field := {
  dd_id : jsstring;              (* id attribute of dd.annotation-field *)
  label_value : jsstring;        (* value of input.annotation-field-label *)
  label_invalid : bool;          (* the label input carries "invalid" *)
  field_type_val : field_type;   (* value of the select *)
  option_fields : list option_field
}.

(** A field definition as stored in the schema object.  [options] is an
    array of single-key objects, kept as (key, label) pairs in order. *)
Record field_def := {
  fd_type : field_type;
  fd_label : jsstring;
  fd_options : option (list (jsstring * jsstring))
}.

Definition schema := obj field_def.

(** jQuery [.each] whose callback updates closure variables ([S]) and may
    mutate the element it visits. *)
Fixpoint each {S A} (body : S -> A -> S * A) (s : S) (l : list A) : S * list A :=
  match l with
  | [] => (s, [])
  | a :: l' =>
      let '(s1, a1) := body s a in
      let '(s2, l2) := each body s1 l' in
      (s2, a1 :: l2)
  end.

(** Closure variables of the option loop of [parseAnnotationFields];
    [warning] belongs to the enclosing function and is threaded through. *)
Record opt_state := {
  os_options : list (jsstring * jsstring);
  os_option_labels : list jsstring;
  os_no_options_added : bool;
  os_warning : jsstring
}.

Definition set_opt_invalid (o : option_field) : option_field :=
  {| opt_id := opt_id o; opt_value := opt_value o;
     opt_invalid := true; opt_delete := opt_delete o |}.

(** Body of [options_field.find(".option-field > input").each(...)]. *)
Definition parse_option (st : opt_state) (o : option_field)
  : opt_state * option_field :=
  let option_label := opt_value o in
  let option_id := replace_first (lit "input-") [] (opt_id o) in
  if negb (includes (os_option_labels st) option_label) && nonempty option_label
  then
    ({| os_options := os_options st ++ [(option_id, option_label)];
        os_option_labels := os_option_labels st ++ [option_label];
        os_no_options_added := false;
        os_warning := os_warning st |}, o)
  else if includes (os_option_labels st) option_label then
    ({| os_options := os_options st;
        os_option_labels := os_option_labels st;
        os_no_options_added := os_no_options_added st;
        os_warning := lit "Fields must be unique" |}, set_opt_invalid o)
  else (st, o).

(** Closure variables of the field loop. *)
Record parse_state := {
  ps_annotation_fields : schema;
  ps_warning : jsstring;
  ps_labels_added : list jsstring
}.

Definition warn_empty_label : jsstring := lit "Field labels can't be empty".
Definition warn_duplicate_label : jsstring := lit "Field labels must be unique".
Definition warn_reserved_label (label : jsstring) : jsstring :=
  lit "Field label " ++ label
    ++ lit " is already present as a dataset item, please rename.".
Definition warn_duplicate_option : jsstring := lit "Fields must be unique".
Definition warn_no_options : jsstring := lit "At least one field must be added".

(** [this.id.split("-")[1]], used as a property key. *)
Definition field_id_of (id : jsstring) : jsstring :=
  to_key (nth_error (split_str [DASH] id) 1).

(** Body of [$(".annotation-field").each(...)] in
    [parseAnnotationFields]. *)
Definition parse_field (original_columns : list jsstring)
    (st : parse_state) (f : editor_field) : parse_state * editor_field :=
  let label := replace_ws_runs (label_value f) in
  let field_id := field_id_of (dd_id f) in
  (* the three label checks, an if / else-if chain *)
  let '(warning, invalid) :=
    if negb (nonempty label) then (warn_empty_label, true)
    else if includes (ps_labels_added st) label then (warn_duplicate_label, true)
    else if includes original_columns label then (warn_reserved_label label, true)
    else (ps_warning st, label_invalid f) in
  let type := field_type_val f in
  let labels_added := ps_labels_added st ++ [label] in
  match type with
  | text | textarea =>
      ({| ps_annotation_fields :=
            obj_set (ps_annotation_fields st) field_id
              {| fd_type := type; fd_label := label; fd_options := None |};
          ps_warning := warning;
          ps_labels_added := labels_added |},
       {| dd_id := dd_id f; label_value := label_value f;
          label_invalid := invalid; field_type_val := type;
          option_fields := option_fields f |})
  | dropdown | checkbox =>
      let '(os, opts) :=
        each parse_option
          {| os_options := []; os_option_labels := [];
             os_no_options_added := true; os_warning := warning |}
          (option_fields f) in
      (* [$(this).find(".option-field > input")] searches the label cell,
         which holds no option field: no input is marked here. *)
      let warning :=
        if os_no_options_added os then warn_no_options else os_warning os in
      let annotation_fields :=
        match os_options os with
        | [] => ps_annotation_fields st
        | _ :: _ =>
            obj_set (ps_annotation_fields st) field_id
              {| fd_type := type; fd_label := replace_ws_runs label;
                 fd_options := Some (os_options os) |}
        end in
      ({| ps_annotation_fields := annotation_fields;
          ps_warning := warning;
          ps_labels_added := labels_added |},
       {| dd_id := dd_id f; label_value := label_value f;
          label_invalid := invalid; field_type_val := type;
          option_fields := opts |})
  end.

(** What [parseAnnotationFields] returns: a string or the schema object;
    the caller tells them apart with [typeof]. *)
Inductive parse_result :=
| Warning (w : jsstring)
| Schema (fields : schema).

Definition clear_label_invalid (f : editor_field) : editor_field :=
  {| dd_id := dd_id f; label_value := label_value f;
     label_invalid := false; field_type_val := field_type_val f;
     option_fields := option_fields f |}.

(** The field loop and the final test, on the editor rows alone. *)
Definition parse_editor (original_columns : list jsstring)
    (rows : list editor_field) : parse_result * list editor_field :=
  let '(st, rows') :=
    each (parse_field original_columns)
      {| ps_annotation_fields := []; ps_warning := []; ps_labels_added := [] |}
      (map clear_label_invalid rows) in
  (if nonempty (ps_warning st) then Warning (ps_warning st)
   else Schema (ps_annotation_fields st),
   rows').

(* ================================================================== *)
(** * Per-item annotation widgets *)
(* ================================================================== *)

(** An [<option>] of a select, or an [<input type='checkbox'>] together
    with the [<label>] that follows it. *)
Record option_el := {
  oe_classes : list jsstring;   (* className tokens *)
  oe_id : jsstring;             (* id attribute *)
  oe_value : jsstring;          (* value *)
  oe_text : jsstring;           (* text of the option, or of the label *)
  oe_checked : bool             (* selected / checked *)
}.

(** The control of a widget.  The text controls carry class
    "post-annotation-input" themselves; a select or a checkbox group
    carries "post-annotation-options" and its items carry the classes
    listed in [oe_classes]. *)
Inductive control :=
| TextInput (edited : bool) (value : jsstring)
| TextArea (edited : bool) (value : jsstring)
| SelectBox (options : list option_el)
| CheckBoxes (options : list option_el).

(** One [div.post-annotation]: its class tokens (the class attribute
    split at spaces), the text of its [.annotation-label], its control. *)
Record widget := {
  w_classes : list jsstring;
  w_label : jsstring;
  w_control : control
}.

(** One [li] of [.posts] with its [.post-annotations] panel. *)
Record post := {
  li_id : jsstring;                 (* id attribute, "post-..." *)
  post_annotations : list widget
}.

Definition has_class (c : jsstring) (classes : list jsstring) : bool :=
  includes classes c.

(* ------------------------------------------------------------------ *)
(** ** parseAnnotation *)

Inductive ann_value :=
| ValUndefined
| ValNull
| ValString (s : jsstring)
| ValList (l : list jsstring).

Record annotation := {
  an_field_id : jsstring;
  an_item_id : jsstring;
  an_label : jsstring;
  an_type : jsstring;
  an_value : ann_value;
  an_author : jsstring;
  an_by_processor : bool
}.

Inductive tag := DIV | INPUT_TEXT | INPUT_CHECKBOX | TEXTAREA | SELECT | OPTION.

(** The [:checked] selector: checked checkboxes and selected options. *)
Definition matches_checked (t : tag) (checked : bool) : bool :=
  match t with
  | INPUT_CHECKBOX | OPTION => checked
  | _ => false
  end.

(** [.val()] of an element that has no value of its own. *)
Definition val_of_div : jsstring := [].

(** [ann.find(".post-annotation-input").val()]: the value of the first
    element of the widget that carries the class. *)
Definition first_input_val (w : widget) : ann_value :=
  match w_control w with
  | TextInput _ v | TextArea _ v => ValString v
  | SelectBox os | CheckBoxes os =>
      match filter (fun o => has_class (lit "post-annotation-input") (oe_classes o)) os with
      | o :: _ => ValString (oe_value o)
      | [] => ValUndefined
      end
  end.

(** [ann.find(".post-annotation-options").val()]: the value of the selected
    option of a select (a select shows its first option when none is
    marked), the empty string for the [div] of a checkbox group. *)
Definition options_val (w : widget) : ann_value :=
  match w_control w with
  | TextInput _ _ | TextArea _ _ => ValUndefined
  | SelectBox os =>
      match find oe_checked os with
      | Some o => ValString (oe_value o)
      | None => match os with
                | o :: _ => ValString (oe_value o)
                | [] => ValNull
                end
      end
  | CheckBoxes _ => ValString val_of_div
  end.

(** [ann.find(".post-annotation-options > input")]: the checkbox inputs of
    the widget. *)
Definition option_inputs (w : widget) : list option_el :=
  match w_control w with
  | CheckBoxes os => os
  | _ => []
  end.

(** [parseAnnotation(el)] of explorer.js; [None] when it throws (a class
    token it indexes is missing).  In the checkbox loop the callback tests
    [ann], the widget's [div], not the input it is visiting. *)
Definition parseAnnotation (w : widget) : option annotation :=
  match nth_error (w_classes w) 1, nth_error (w_classes w) 2,
        nth_error (w_classes w) 3 with
  | Some c1, Some c2, Some c3 =>
      let field_id := replace_first (lit "field-") [] c1 in
      let annotation_type := replace_first (lit "type-") [] c2 in
      let item_id := replace_first (lit "item-id-") [] c3 in
      let author := lit "Jan" in
      let label := w_label w in
      let val :=
        if jseqb annotation_type (lit "text") || jseqb annotation_type (lit "textarea")
        then first_input_val w
        else if jseqb annotation_type (lit "dropdown") then options_val w
        else if jseqb annotation_type (lit "checkbox") then
          let val :=
            fold_left
              (fun (val : list jsstring) (_ : option_el) =>
                 if matches_checked DIV false then val ++ [val_of_div] else val)
              (option_inputs w) [] in
          match val with
          | [] => ValUndefined
          | _ :: _ => ValList val
          end
        else ValUndefined in
      Some {| an_field_id := field_id; an_item_id := item_id;
              an_label := label; an_type := annotation_type;
              an_value := val; an_author := author;
              an_by_processor := false |}
  | _, _, _ => None
  end.

(* ================================================================== *)
(** * The page *)
(* ================================================================== *)

Inductive payload :=
| FieldsBody (fields : schema)
| AnnotationsBody (anns : list annotation).

(** One [$.ajax] call of type POST; the body is what is handed to
    [JSON.stringify]. *)
Record request := {
  rq_url : jsstring;
  rq_body : payload
}.

(** The state the script works on.  Heights and animations are left out. *)
Record page := {
  editor_rows : list editor_field;   (* rows of #annotation-fields-editor-controls *)
  input_warning_html : jsstring;   (* content of #input-warning *)
  input_warning_hidden : bool;   (* #input-warning carries "hidden" *)
  apply_button_html : jsstring;   (* content of #apply-annotation-fields *)
  apply_button_disabled : bool;
  editor_container_hidden : bool;   (* #annotations-editor-container *)
  posts : list post;   (* the li elements of .posts *)
  toggle_shown : bool;   (* #toggle-annotations carries "shown" *)
  toggle_disabled : bool;   (* #toggle-annotations carries "disabled" *)
  toggle_html : jsstring;
  save_button_html : jsstring;   (* content of #save-annotations *)
  save_button_disabled : bool;   (* #save-annotations carries "disabled" *)
  save_to_dataset_disabled : bool;   (* #save-to-dataset carries "disabled" *)
  edits_made : bool;   (* the variable of init *)
  original_columns : list jsstring;   (* global, written by the server *)
  annotation_fields : schema;   (* global, written by the server *)
  dataset_key : jsstring;   (* text of #dataset-key *)
  url_root : option jsstring;   (* data-url-root of body *)
  requests : list request;   (* POST requests issued so far *)
  alerts : list jsstring   (* alert() calls so far *)
}.

Definition set_editor_rows (x : list editor_field) (pg : page) : page :=
  {| editor_rows := x; input_warning_html := input_warning_html pg;
     input_warning_hidden := input_warning_hidden pg; apply_button_html :=
     apply_button_html pg; apply_button_disabled := apply_button_disabled
     pg; editor_container_hidden := editor_container_hidden pg; posts :=
     posts pg; toggle_shown := toggle_shown pg; toggle_disabled :=
     toggle_disabled pg; toggle_html := toggle_html pg; save_button_html :=
     save_button_html pg; save_button_disabled := save_button_disabled pg;
     save_to_dataset_disabled := save_to_dataset_disabled pg; edits_made :=
     edits_made pg; original_columns := original_columns pg;
     annotation_fields := annotation_fields pg; dataset_key := dataset_key
     pg; url_root := url_root pg; requests := requests pg; alerts := alerts
     pg |}.

Definition set_input_warning_html (x : jsstring) (pg : page) : page :=
  {| editor_rows := editor_rows pg; input_warning_html := x;
     input_warning_hidden := input_warning_hidden pg; apply_button_html :=
     apply_button_html pg; apply_button_disabled := apply_button_disabled
     pg; editor_container_hidden := editor_container_hidden pg; posts :=
     posts pg; toggle_shown := toggle_shown pg; toggle_disabled :=
     toggle_disabled pg; toggle_html := toggle_html pg; save_button_html :=
     save_button_html pg; save_button_disabled := save_button_disabled pg;
     save_to_dataset_disabled := save_to_dataset_disabled pg; edits_made :=
     edits_made pg; original_columns := original_columns pg;
     annotation_fields := annotation_fields pg; dataset_key := dataset_key
     pg; url_root := url_root pg; requests := requests pg; alerts := alerts
     pg |}.

Definition set_input_warning_hidden (x : bool) (pg : page) : page :=
  {| editor_rows := editor_rows pg; input_warning_html := input_warning_html
     pg; input_warning_hidden := x; apply_button_html := apply_button_html
     pg; apply_button_disabled := apply_button_disabled pg;
     editor_container_hidden := editor_container_hidden pg; posts := posts
     pg; toggle_shown := toggle_shown pg; toggle_disabled := toggle_disabled
     pg; toggle_html := toggle_html pg; save_button_html := save_button_html
     pg; save_button_disabled := save_button_disabled pg;
     save_to_dataset_disabled := save_to_dataset_disabled pg; edits_made :=
     edits_made pg; original_columns := original_columns pg;
     annotation_fields := annotation_fields pg; dataset_key := dataset_key
     pg; url_root := url_root pg; requests := requests pg; alerts := alerts
     pg |}.

Definition set_apply_button_html (x : jsstring) (pg : page) : page :=
  {| editor_rows := editor_rows pg; input_warning_html := input_warning_html
     pg; input_warning_hidden := input_warning_hidden pg; apply_button_html
     := x; apply_button_disabled := apply_button_disabled pg;
     editor_container_hidden := editor_container_hidden pg; posts := posts
     pg; toggle_shown := toggle_shown pg; toggle_disabled := toggle_disabled
     pg; toggle_html := toggle_html pg; save_button_html := save_button_html
     pg; save_button_disabled := save_button_disabled pg;
     save_to_dataset_disabled := save_to_dataset_disabled pg; edits_made :=
     edits_made pg; original_columns := original_columns pg;
     annotation_fields := annotation_fields pg; dataset_key := dataset_key
     pg; url_root := url_root pg; requests := requests pg; alerts := alerts
     pg |}.

Definition set_apply_button_disabled (x : bool) (pg : page) : page :=
  {| editor_rows := editor_rows pg; input_warning_html := input_warning_html
     pg; input_warning_hidden := input_warning_hidden pg; apply_button_html
     := apply_button_html pg; apply_button_disabled := x;
     editor_container_hidden := editor_container_hidden pg; posts := posts
     pg; toggle_shown := toggle_shown pg; toggle_disabled := toggle_disabled
     pg; toggle_html := toggle_html pg; save_button_html := save_button_html
     pg; save_button_disabled := save_button_disabled pg;
     save_to_dataset_disabled := save_to_dataset_disabled pg; edits_made :=
     edits_made pg; original_columns := original_columns pg;
     annotation_fields := annotation_fields pg; dataset_key := dataset_key
     pg; url_root := url_root pg; requests := requests pg; alerts := alerts
     pg |}.

Definition set_editor_container_hidden (x : bool) (pg : page) : page :=
  {| editor_rows := editor_rows pg; input_warning_html := input_warning_html
     pg; input_warning_hidden := input_warning_hidden pg; apply_button_html
     := apply_button_html pg; apply_button_disabled := apply_button_disabled
     pg; editor_container_hidden := x; posts := posts pg; toggle_shown :=
     toggle_shown pg; toggle_disabled := toggle_disabled pg; toggle_html :=
     toggle_html pg; save_button_html := save_button_html pg;
     save_button_disabled := save_button_disabled pg;
     save_to_dataset_disabled := save_to_dataset_disabled pg; edits_made :=
     edits_made pg; original_columns := original_columns pg;
     annotation_fields := annotation_fields pg; dataset_key := dataset_key
     pg; url_root := url_root pg; requests := requests pg; alerts := alerts
     pg |}.

Definition set_posts (x : list post) (pg : page) : page :=
  {| editor_rows := editor_rows pg; input_warning_html := input_warning_html
     pg; input_warning_hidden := input_warning_hidden pg; apply_button_html
     := apply_button_html pg; apply_button_disabled := apply_button_disabled
     pg; editor_container_hidden := editor_container_hidden pg; posts := x;
     toggle_shown := toggle_shown pg; toggle_disabled := toggle_disabled pg;
     toggle_html := toggle_html pg; save_button_html := save_button_html pg;
     save_button_disabled := save_button_disabled pg;
     save_to_dataset_disabled := save_to_dataset_disabled pg; edits_made :=
     edits_made pg; original_columns := original_columns pg;
     annotation_fields := annotation_fields pg; dataset_key := dataset_key
     pg; url_root := url_root pg; requests := requests pg; alerts := alerts
     pg |}.

Definition set_toggle_shown (x : bool) (pg : page) : page :=
  {| editor_rows := editor_rows pg; input_warning_html := input_warning_html
     pg; input_warning_hidden := input_warning_hidden pg; apply_button_html
     := apply_button_html pg; apply_button_disabled := apply_button_disabled
     pg; editor_container_hidden := editor_container_hidden pg; posts :=
     posts pg; toggle_shown := x; toggle_disabled := toggle_disabled pg;
     toggle_html := toggle_html pg; save_button_html := save_button_html pg;
     save_button_disabled := save_button_disabled pg;
     save_to_dataset_disabled := save_to_dataset_disabled pg; edits_made :=
     edits_made pg; original_columns := original_columns pg;
     annotation_fields := annotation_fields pg; dataset_key := dataset_key
     pg; url_root := url_root pg; requests := requests pg; alerts := alerts
     pg |}.

Definition set_toggle_disabled (x : bool) (pg : page) : page :=
  {| editor_rows := editor_rows pg; input_warning_html := input_warning_html
     pg; input_warning_hidden := input_warning_hidden pg; apply_button_html
     := apply_button_html pg; apply_button_disabled := apply_button_disabled
     pg; editor_container_hidden := editor_container_hidden pg; posts :=
     posts pg; toggle_shown := toggle_shown pg; toggle_disabled := x;
     toggle_html := toggle_html pg; save_button_html := save_button_html pg;
     save_button_disabled := save_button_disabled pg;
     save_to_dataset_disabled := save_to_dataset_disabled pg; edits_made :=
     edits_made pg; original_columns := original_columns pg;
     annotation_fields := annotation_fields pg; dataset_key := dataset_key
     pg; url_root := url_root pg; requests := requests pg; alerts := alerts
     pg |}.

Definition set_toggle_html (x : jsstring) (pg : page) : page :=
  {| editor_rows := editor_rows pg; input_warning_html := input_warning_html
     pg; input_warning_hidden := input_warning_hidden pg; apply_button_html
     := apply_button_html pg; apply_button_disabled := apply_button_disabled
     pg; editor_container_hidden := editor_container_hidden pg; posts :=
     posts pg; toggle_shown := toggle_shown pg; toggle_disabled :=
     toggle_disabled pg; toggle_html := x; save_button_html :=
     save_button_html pg; save_button_disabled := save_button_disabled pg;
     save_to_dataset_disabled := save_to_dataset_disabled pg; edits_made :=
     edits_made pg; original_columns := original_columns pg;
     annotation_fields := annotation_fields pg; dataset_key := dataset_key
     pg; url_root := url_root pg; requests := requests pg; alerts := alerts
     pg |}.

Definition set_save_button_html (x : jsstring) (pg : page) : page :=
  {| editor_rows := editor_rows pg; input_warning_html := input_warning_html
     pg; input_warning_hidden := input_warning_hidden pg; apply_button_html
     := apply_button_html pg; apply_button_disabled := apply_button_disabled
     pg; editor_container_hidden := editor_container_hidden pg; posts :=
     posts pg; toggle_shown := toggle_shown pg; toggle_disabled :=
     toggle_disabled pg; toggle_html := toggle_html pg; save_button_html :=
     x; save_button_disabled := save_button_disabled pg;
     save_to_dataset_disabled := save_to_dataset_disabled pg; edits_made :=
     edits_made pg; original_columns := original_columns pg;
     annotation_fields := annotation_fields pg; dataset_key := dataset_key
     pg; url_root := url_root pg; requests := requests pg; alerts := alerts
     pg |}.

Definition set_save_button_disabled (x : bool) (pg : page) : page :=
  {| editor_rows := editor_rows pg; input_warning_html := input_warning_html
     pg; input_warning_hidden := input_warning_hidden pg; apply_button_html
     := apply_button_html pg; apply_button_disabled := apply_button_disabled
     pg; editor_container_hidden := editor_container_hidden pg; posts :=
     posts pg; toggle_shown := toggle_shown pg; toggle_disabled :=
     toggle_disabled pg; toggle_html := toggle_html pg; save_button_html :=
     save_button_html pg; save_button_disabled := x;
     save_to_dataset_disabled := save_to_dataset_disabled pg; edits_made :=
     edits_made pg; original_columns := original_columns pg;
     annotation_fields := annotation_fields pg; dataset_key := dataset_key
     pg; url_root := url_root pg; requests := requests pg; alerts := alerts
     pg |}.

Definition set_save_to_dataset_disabled (x : bool) (pg : page) : page :=
  {| editor_rows := editor_rows pg; input_warning_html := input_warning_html
     pg; input_warning_hidden := input_warning_hidden pg; apply_button_html
     := apply_button_html pg; apply_button_disabled := apply_button_disabled
     pg; editor_container_hidden := editor_container_hidden pg; posts :=
     posts pg; toggle_shown := toggle_shown pg; toggle_disabled :=
     toggle_disabled pg; toggle_html := toggle_html pg; save_button_html :=
     save_button_html pg; save_button_disabled := save_button_disabled pg;
     save_to_dataset_disabled := x; edits_made := edits_made pg;
     original_columns := original_columns pg; annotation_fields :=
     annotation_fields pg; dataset_key := dataset_key pg; url_root :=
     url_root pg; requests := requests pg; alerts := alerts pg |}.

Definition set_edits_made (x : bool) (pg : page) : page :=
  {| editor_rows := editor_rows pg; input_warning_html := input_warning_html
     pg; input_warning_hidden := input_warning_hidden pg; apply_button_html
     := apply_button_html pg; apply_button_disabled := apply_button_disabled
     pg; editor_container_hidden := editor_container_hidden pg; posts :=
     posts pg; toggle_shown := toggle_shown pg; toggle_disabled :=
     toggle_disabled pg; toggle_html := toggle_html pg; save_button_html :=
     save_button_html pg; save_button_disabled := save_button_disabled pg;
     save_to_dataset_disabled := save_to_dataset_disabled pg; edits_made :=
     x; original_columns := original_columns pg; annotation_fields :=
     annotation_fields pg; dataset_key := dataset_key pg; url_root :=
     url_root pg; requests := requests pg; alerts := alerts pg |}.

Definition set_requests (x : list request) (pg : page) : page :=
  {| editor_rows := editor_rows pg; input_warning_html := input_warning_html
     pg; input_warning_hidden := input_warning_hidden pg; apply_button_html
     := apply_button_html pg; apply_button_disabled := apply_button_disabled
     pg; editor_container_hidden := editor_container_hidden pg; posts :=
     posts pg; toggle_shown := toggle_shown pg; toggle_disabled :=
     toggle_disabled pg; toggle_html := toggle_html pg; save_button_html :=
     save_button_html pg; save_button_disabled := save_button_disabled pg;
     save_to_dataset_disabled := save_to_dataset_disabled pg; edits_made :=
     edits_made pg; original_columns := original_columns pg;
     annotation_fields := annotation_fields pg; dataset_key := dataset_key
     pg; url_root := url_root pg; requests := x; alerts := alerts pg |}.

Definition set_alerts (x : list jsstring) (pg : page) : page :=
  {| editor_rows := editor_rows pg; input_warning_html := input_warning_html
     pg; input_warning_hidden := input_warning_hidden pg; apply_button_html
     := apply_button_html pg; apply_button_disabled := apply_button_disabled
     pg; editor_container_hidden := editor_container_hidden pg; posts :=
     posts pg; toggle_shown := toggle_shown pg; toggle_disabled :=
     toggle_disabled pg; toggle_html := toggle_html pg; save_button_html :=
     save_button_html pg; save_button_disabled := save_button_disabled pg;
     save_to_dataset_disabled := save_to_dataset_disabled pg; edits_made :=
     edits_made pg; original_columns := original_columns pg;
     annotation_fields := annotation_fields pg; dataset_key := dataset_key
     pg; url_root := url_root pg; requests := requests pg; alerts := x |}.

(* ------------------------------------------------------------------ *)
(** ** Small helpers of the script *)

(** [warnEditor(warning)]. *)
Definition warnEditor (warning : jsstring) (pg : page) : page :=
  let pg := set_input_warning_html warning pg in
  if input_warning_hidden pg then set_input_warning_hidden false pg else pg.

(** [fieldsExist()]: reads the global [annotation_fields]. *)
Definition fieldsExist (pg : page) : bool * page :=
  match annotation_fields pg with
  | [] => (false, set_toggle_disabled true pg)
  | _ :: _ => (true, set_toggle_disabled false pg)
  end.

(** [enableSaving()]. *)
Definition enableSaving (pg : page) : page :=
  set_save_button_html (lit "<i class='fas fa-save'></i> Save annotations")
    (set_save_to_dataset_disabled false (set_save_button_disabled false pg)).

(** [disableSaving()]. *)
Definition disableSaving (pg : page) : page :=
  set_save_to_dataset_disabled true (set_save_button_disabled true pg).

(** [showAnnotations()]. *)
Definition showAnnotations (pg : page) : page :=
  set_toggle_html (lit "<i class='fas fa-eye-slash'></i> Hide annotations")
    (set_toggle_disabled false (set_toggle_shown true pg)).

(** [hideAnnotations()]. *)
Definition hideAnnotations (pg : page) : page :=
  set_toggle_html (lit "<i class='fas fa-eye'></i> Show annotations")
    (set_toggle_shown false pg).

(** [getRelativeURL(endpoint)]: [!root] holds for a missing attribute and
    for the empty string. *)
Definition getRelativeURL (endpoint : jsstring) (pg : page) : jsstring :=
  let root :=
    match url_root pg with
    | Some (c :: r) => c :: r
    | _ => lit "/"
    end in
  root ++ endpoint.

(** [parseAnnotationFields()] on the page: clears the warning, clears the
    markers of the label inputs, runs the field loop. *)
Definition parseAnnotationFields (pg : page) : parse_result * page :=
  let pg := warnEditor [] pg in
  let '(res, rows) := parse_editor (original_columns pg) (editor_rows pg) in
  (res, set_editor_rows rows pg).

(* ------------------------------------------------------------------ *)
(** ** saveAnnotationFields *)

Inductive js_number := NaN | Num (z : Z).

(** What reading a property of a schema object gives: [undefined], or the
    field definition stored under that key. *)
Inductive prop_value :=
| PropUndefined
| PropObject (d : field_def).

Definition get_prop (o : schema) (k : jsstring) : prop_value :=
  match obj_get o k with
  | None => PropUndefined
  | Some d => PropObject d
  end.

(** ToNumber: [undefined] is NaN; a plain object converts through the
    string "[object Object]", which is NaN as well. *)
Definition ToNumber (v : prop_value) : js_number :=
  match v with
  | PropUndefined => NaN
  | PropObject _ => NaN
  end.

(** [a < b] on numbers: false as soon as one side is NaN. *)
Definition js_lt (a b : js_number) : bool :=
  match a, b with
  | Num x, Num y => Z.ltb x y
  | _, _ => false
  end.

(** [saveAnnotationFields(annotation_fields)]; the parameter hides the
    global of the same name, which [fieldsExist] still reads. *)
Definition saveAnnotationFields (fields : schema) (pg : page) : page :=
  if js_lt (ToNumber (get_prop fields (lit "length"))) (Num 1) then pg
  else
    let pg := snd (fieldsExist pg) in
    let key := dataset_key pg in
    set_requests
      (requests pg ++
         [{| rq_url := getRelativeURL (lit "explorer/save_annotation_fields/" ++ key) pg;
             rq_body := FieldsBody fields |}]) pg.

(** A value handed to an ajax callback. *)
Inductive js_value :=
| JUndefined
| JNull
| JBool (b : bool)
| JNumber (z : Z)
| JString (s : jsstring)
| JObject.

(** [v === 'literal']. *)
Definition strict_eq_string (v : js_value) (s : jsstring) : bool :=
  match v with
  | JString t => jseqb t s
  | _ => false
  end.

(** The [success] callback of [saveAnnotationFields]. *)
Definition fields_success (response : js_value) (pg : page) : page :=
  if strict_eq_string response (lit "success") then
    set_apply_button_disabled true (set_editor_container_hidden true pg)
  else warnEditor (lit "Couldn't save annotation fields") pg.

(** The [error] callback of [saveAnnotationFields]; [shown] is what
    [html()] makes of the error object. *)
Definition fields_error (shown : jsstring) (pg : page) : page :=
  warnEditor shown pg.

(* ------------------------------------------------------------------ *)
(** ** saveAnnotations *)

(** The two nested [each] loops: every widget of every post, in document
    order.  A throwing [parseAnnotation] ends the whole call. *)
Fixpoint collect_annotations (ws : list widget) : option (list annotation) :=
  match ws with
  | [] => Some []
  | w :: ws' =>
      match parseAnnotation w with
      | None => None
      | Some a =>
          match collect_annotations ws' with
          | None => None
          | Some anns => Some (a :: anns)
          end
      end
  end.

Definition all_widgets (ps : list post) : list widget :=
  flat_map post_annotations ps.

(** [saveAnnotations()] up to and including the [$.ajax] call.  When the
    collection throws, nothing after it runs. *)
Definition saveAnnotations (pg : page) : page :=
  match collect_annotations (all_widgets (posts pg)) with
  | None => pg
  | Some anns =>
      let key := dataset_key pg in
      let pg :=
        set_save_button_html
          (lit "<i class='fas fa-circle-notch spinner'></i> Saving annotations") pg in
      let pg := disableSaving pg in
      set_requests
        (requests pg ++
           [{| rq_url := getRelativeURL (lit "explorer/save_annotations/" ++ key) pg;
               rq_body := AnnotationsBody anns |}]) pg
  end.

(** The [success] callback of [saveAnnotations]. *)
Definition annotations_success (response : js_value) (pg : page) : page :=
  if strict_eq_string response (lit "success") then
    let pg := enableSaving pg in
    let pg := set_save_button_html (lit "<i class='fas fa-save'></i> Annotations saved") pg in
    set_save_button_disabled true pg
  else
    let pg := enableSaving pg in
    let pg := set_save_button_html (lit "<i class='fas fa-save'></i> Save annotations") pg in
    let pg := set_alerts (alerts pg ++ [lit "Could't save annotations"]) pg in
    set_save_button_disabled false pg.

(** The [error] callback of [saveAnnotations]. *)
Definition annotations_error (pg : page) : page :=
  let pg := enableSaving pg in
  let pg := set_save_button_html (lit "<i class='fas fa-save'></i> Save annotations") pg in
  set_save_button_disabled false pg.

(* ------------------------------------------------------------------ *)
(** ** The handlers installed by init *)

Inductive trigger := ManualClick | PaginationClick | TimerTick.

(** The three handlers that may call [saveAnnotations]: the click on
    [#save-annotations], the click on a [.page > a] link, and the
    [setInterval] callback. *)
Definition fire (t : trigger) (pg : page) : page :=
  match t with
  | ManualClick | PaginationClick =>
      if negb (save_button_disabled pg) then saveAnnotations pg else pg
  | TimerTick =>
      if negb (save_button_disabled pg) && edits_made pg
      then saveAnnotations pg else pg
  end.

(** [f] applied to the element at position [i]. *)
Fixpoint map_at {A} (i : nat) (f : A -> A) (l : list A) : list A :=
  match l, i with
  | [], _ => []
  | a :: l', O => f a :: l'
  | a :: l', S k => a :: map_at k f l'
  end.

(** The user's input has left the control [c] in widget [j] of post [i]
    (the handlers have added class "edited" to what was touched). *)
Definition edit_widget (i j : nat) (c : control) (ps : list post) : list post :=
  map_at i
    (fun p =>
       {| li_id := li_id p;
          post_annotations :=
            map_at j
              (fun w => {| w_classes := w_classes w; w_label := w_label w;
                           w_control := c |})
              (post_annotations p) |}) ps.

(** What can happen on the page between two triggers. *)
Inductive event :=
| Trigger (t : trigger)
| WidgetEdited (i j : nat) (c : control)   (* keydown or click in a widget *)
| SaveResponse (response : js_value)       (* the success callback *)
| SaveFailed.                              (* the error callback *)

Definition handle (e : event) (pg : page) : page :=
  match e with
  | Trigger t => fire t pg
  | WidgetEdited i j c =>
      set_edits_made true (enableSaving (set_posts (edit_widget i j c (posts pg)) pg))
  | SaveResponse r => annotations_success r pg
  | SaveFailed => annotations_error pg
  end.

Definition run (evs : list event) (pg : page) : page :=
  fold_left (fun pg e => handle e pg) evs pg.

(* ------------------------------------------------------------------ *)
(** ** Option groups of the editor *)

(** [getInputField()]: a fresh, empty option field; [id] stands for the
    number drawn from [Math.random]. *)
Definition getInputField (id : jsstring) : option_field :=
  {| opt_id := lit "input-" ++ id; opt_value := [];
     opt_invalid := false; opt_delete := false |}.

Definition set_opt_value (v : jsstring) (o : option_field) : option_field :=
  {| opt_id := opt_id o; opt_value := v;
     opt_invalid := opt_invalid o; opt_delete := opt_delete o |}.

Definition set_opt_delete (b : bool) (o : option_field) : option_field :=
  {| opt_id := opt_id o; opt_value := opt_value o;
     opt_invalid := opt_invalid o; opt_delete := b |}.

(** The group without its element at position [i]. *)
Fixpoint remove_at {A} (i : nat) (l : list A) : list A :=
  match l, i with
  | [], _ => []
  | _ :: l', O => l'
  | a :: l', S k => a :: remove_at k l'
  end.

(** [x] placed right after position [i]. *)
Fixpoint insert_after {A} (i : nat) (x : A) (l : list A) : list A :=
  match l, i with
  | [], _ => []
  | a :: l', O => a :: x :: l'
  | a :: l', S k => a :: insert_after k x l'
  end.

(** The second loop of [addOptions]: a delete control on every option
    field but the last. *)
Fixpoint append_delete_controls (g : list option_field) : list option_field :=
  match g with
  | [] => []
  | [o] => [o]
  | o :: g' => set_opt_delete true o :: append_delete_controls g'
  end.

(** [addOptions(el)], [el] being the input of the option field at position
    [i] of its group; [new_id] is the id a new field would get. *)
Definition addOptions (new_id : jsstring) (i : nat) (g : list option_field)
  : list option_field :=
  match nth_error g i with
  | None => g
  | Some el =>
      let no_empty_fields :=
        nonempty (opt_value el)
        && forallb (fun o => nonempty (opt_value o)) (remove_at i g) in
      let g := if no_empty_fields then insert_after i (getInputField new_id) g else g in
      append_delete_controls (map (set_opt_delete false) g)
  end.

(** [deleteOption(el)], [el] being the delete control of the option field
    at position [i]; a field without the control offers nothing to click. *)
Definition deleteOption (i : nat) (g : list option_field) : list option_field :=
  match nth_error g i with
  | None => g
  | Some o =>
      if opt_delete o then
        let g := remove_at i g in
        if Nat.eqb (List.length g) 1 then map (set_opt_delete false) g else g
      else g
  end.

(** [toggleField(el)] on the option group next to the type select. *)
Definition toggleField (new_id : jsstring) (type : field_type)
    (g : list option_field) : list option_field :=
  match type with
  | text | textarea => []
  | dropdown | checkbox =>
      match g with
      | [] => [getInputField new_id]
      | _ :: _ => g
      end
  end.

(** The [keyup] handler of an option input: the user has brought the input
    at position [i] to value [v]; [addOptions] runs when [v] is not
    empty. *)
Definition option_keyup (new_id : jsstring) (i : nat) (v : jsstring)
    (g : list option_field) : list option_field :=
  let g :=
    match nth_error g i with
    | None => g
    | Some o => firstn i g ++ set_opt_value v o :: skipn (S i) g
    end in
  match nth_error g i with
  | None => g
  | Some o => if nonempty v then addOptions new_id i g else g
  end.

(** The operations on one option group. *)
Inductive group_op :=
| KeyUp (new_id : jsstring) (i : nat) (v : jsstring)   (* typing, then addOptions *)
| DeleteClick (i : nat).                               (* deleteOption *)

Definition group_step (g : list option_field) (op : group_op) : list option_field :=
  match op with
  | KeyUp new_id i v => option_keyup new_id i v g
  | DeleteClick i => deleteOption i g
  end.

(* ------------------------------------------------------------------ *)
(** ** Property enumeration order *)

Fixpoint digits_value (acc : N) (s : jsstring) : option N :=
  match s with
  | [] => Some acc
  | c :: r =>
      if N.leb 48 c && N.leb c 57
      then digits_value (acc * 10 + (c - 48))%N r
      else None
  end.

(** An array index: the canonical decimal form of a number below
    2^32 - 1. *)
Definition array_index (k : jsstring) : option N :=
  match k with
  | [] => None
  | [48%N] => Some 0%N
  | 48%N :: _ => None
  | _ =>
      match digits_value 0 k with
      | Some n => if N.ltb n 4294967295 then Some n else None
      | None => None
      end
  end.

Fixpoint insert_by_index {V} (n : N) (e : jsstring * V)
    (l : list (N * (jsstring * V))) : list (N * (jsstring * V)) :=
  match l with
  | [] => [(n, e)]
  | (m, e') :: l' =>
      if N.ltb n m then (n, e) :: l else (m, e') :: insert_by_index n e l'
  end.

(** The order in which [for (k in o)] visits the properties of a plain
    object: array indices in ascending order, then the other keys in
    insertion order. *)
Definition for_in {V} (o : obj V) : list (jsstring * V) :=
  let indexed :=
    fold_left
      (fun acc e =>
         match array_index (fst e) with
         | Some n => insert_by_index n e acc
         | None => acc
         end) o [] in
  map snd indexed
    ++ filter (fun e => match array_index (fst e) with
                        | Some _ => false
                        | None => true
                        end) o.

(* ------------------------------------------------------------------ *)
(** ** Class tokens and selections *)

(** [removeClass(c)] and [addClass(c)] on a list of class tokens. *)
Definition removeClass (c : jsstring) (classes : list jsstring) : list jsstring :=
  filter (fun t => negb (jseqb t c)) classes.

Definition addClass (c : jsstring) (classes : list jsstring) : list jsstring :=
  if has_class c classes then classes else classes ++ [c].

Definition in_class (cls : jsstring) (w : widget) : bool :=
  has_class cls (w_classes w).

(** [$("." + cls)]: the widgets carrying the class, in document order.
    This is what the selector gives for a class that is a [plain_token];
    for a string with "." or ":" or for the empty string jQuery selects
    something else or raises a syntax error, which is not modelled: the
    statements that go through a selection assume [plain_page] and
    [plain_schema]. *)
Definition select_widgets (cls : jsstring) (ps : list post) : list widget :=
  filter (in_class cls) (all_widgets ps).

(** [$("." + cls).each(f)], [f] changing the widget it visits. *)
Definition map_selected (cls : jsstring) (f : post -> widget -> widget)
    (ps : list post) : list post :=
  map (fun p =>
         {| li_id := li_id p;
            post_annotations :=
              map (fun w => if in_class cls w then f p w else w)
                  (post_annotations p) |}) ps.

(** [$("." + cls).remove()]. *)
Definition remove_selected (cls : jsstring) (ps : list post) : list post :=
  map (fun p =>
         {| li_id := li_id p;
            post_annotations :=
              filter (fun w => negb (in_class cls w)) (post_annotations p) |}) ps.

Definition control_options (c : control) : list option_el :=
  match c with
  | SelectBox os | CheckBoxes os => os
  | TextInput _ _ | TextArea _ _ => []
  end.

Definition set_control_options (os : list option_el) (c : control) : control :=
  match c with
  | SelectBox _ => SelectBox os
  | CheckBoxes _ => CheckBoxes os
  | TextInput e v => TextInput e v
  | TextArea e v => TextArea e v
  end.

Definition set_w_classes (cl : list jsstring) (w : widget) : widget :=
  {| w_classes := cl; w_label := w_label w; w_control := w_control w |}.

Definition set_w_label (l : jsstring) (w : widget) : widget :=
  {| w_classes := w_classes w; w_label := l; w_control := w_control w |}.

Definition set_w_control (c : control) (w : widget) : widget :=
  {| w_classes := w_classes w; w_label := w_label w; w_control := c |}.

(** [this.id.split("post-")[1]] of an [li], as it enters a string
    concatenation. *)
Definition post_id_of (li : jsstring) : jsstring :=
  to_key (nth_error (split_str (lit "post-") li) 1).

Definition option_class (option_id : jsstring) : jsstring :=
  lit "option-" ++ option_id.

(** Is the control a [.post-annotation-options] container? *)
Definition is_option_list (c : control) : bool :=
  match c with
  | SelectBox _ | CheckBoxes _ => true
  | TextInput _ _ | TextArea _ _ => false
  end.

(* ------------------------------------------------------------------ *)
(** ** applyAnnotationFields *)

(** What the browser does with the strings the script hands it as markup
    or as the value of a one-line input.  These are not part of the
    script; every statement below holds for whatever they are. *)
Record browser := {
  markup_text : jsstring -> jsstring;
    (* text of an element built from markup with this string as body *)
  markup_attr : jsstring -> jsstring;
    (* value of a single-quoted attribute written with this string *)
  text_input_value : jsstring -> jsstring
    (* value an input of type text holds after [.val(s)] *)
}.

Section Apply.

Variable B : browser.

Definition built_option (classes : list jsstring) (id label : jsstring) : option_el :=
  {| oe_classes := classes; oe_id := id;
     oe_value := markup_attr B label; oe_text := markup_text B label;
     oe_checked := false |}.

(** The empty [<option class='post-annotation-input'></option>] a built
    select starts with; being first, it is the one selected. *)
Definition empty_option : option_el :=
  {| oe_classes := [lit "post-annotation-input"]; oe_id := [];
     oe_value := []; oe_text := []; oe_checked := true |}.

Definition fd_option_list (d : field_def) : list (jsstring * jsstring) :=
  match fd_options d with
  | Some l => l
  | None => []
  end.

(** The markup [el] built in the last loop of [applyAnnotationFields],
    with "{POST_ID}" replaced, as the widget it describes.  In the dropdown
    branch the [option_id] used for class and id is the outer variable,
    which stays the empty string.  The markup describes this widget when
    the id, the labels and the post id do not break it ([plain_schema],
    [plain_page]): an id with a space gives other class tokens, a label
    with "<" opens a tag. *)
Definition build_widget (add_field : jsstring) (d : field_def)
    (post_id : jsstring) : widget :=
  let fill := replace_all (lit "{POST_ID}") post_id in
  let input_type := fd_type d in
  let control :=
    match input_type with
    | text => TextInput false []
    | textarea => TextArea false []
    | dropdown =>
        SelectBox
          (empty_option ::
             map (fun o : jsstring * jsstring =>
                    built_option
                      [lit "post-annotation-input"; option_class []]
                      (lit "option-") (fill (snd o)))
                 (fd_option_list d))
    | checkbox =>
        CheckBoxes
          (map (fun o : jsstring * jsstring =>
                  built_option
                    [lit "post-annotation-input"; option_class (fst o)]
                    (lit "option-" ++ post_id ++ lit "-" ++ fst o)
                    (fill (snd o)))
               (fd_option_list d))
    end in
  {| w_classes := [lit "post-annotation"; lit "field-" ++ add_field; type_name input_type];
     w_label := markup_text B (fill (fd_label d));
     w_control := control |}.

(** [$(".posts li").each(...)] appending the built widget to the panel. *)
Definition append_widgets (ps : list post) (e : jsstring * field_def) : list post :=
  map (fun p =>
         {| li_id := li_id p;
            post_annotations :=
              post_annotations p
                ++ [build_widget (fst e) (snd e) (post_id_of (li_id p))] |}) ps.

Definition is_text_field (t : jsstring) : bool :=
  includes [lit "textarea"; lit "text"] t.

(** The body of [$(class_id + " > .post-annotation-input").each(...)]:
    only a text input or a textarea is such a child. *)
Definition convert_text_control (input_type : field_type)
    (old_input_type : jsstring) (w : widget) : widget :=
  match w_control w with
  | TextInput _ v | TextArea _ v =>
      let add_val := v in
      if field_type_eqb input_type text && jseqb old_input_type (lit "textarea") then
        {| w_classes := addClass (lit "text") (removeClass (lit "textarea") (w_classes w));
           w_label := w_label w;
           w_control := TextInput false (text_input_value B add_val) |}
      else if field_type_eqb input_type textarea && jseqb old_input_type (lit "text") then
        {| w_classes := addClass (lit "textarea") (removeClass (lit "text") (w_classes w));
           w_label := w_label w;
           w_control := TextArea false (markup_text B add_val) |}
      else w
  | SelectBox _ | CheckBoxes _ => w
  end.

(** The option elements with the given class inside the first widget of
    the field. *)
Definition existing_option (input_id option_id : jsstring) (ps : list post)
  : list option_el :=
  match select_widgets input_id ps with
  | [] => []
  | w :: _ =>
      filter (fun o => has_class (option_class option_id) (oe_classes o))
             (control_options (w_control w))
  end.

Definition on_options (f : list option_el -> list option_el) (w : widget) : widget :=
  set_w_control (set_control_options (f (control_options (w_control w))) (w_control w)) w.

(** One turn of the loop over the options of a field whose type did not
    change: add the option to every option list, or rename it.  The state
    is the posts and [valid_options].  An option is added with its flag
    unset; that a select shows the first option it gets is left to
    [options_val]. *)
Definition sync_option (input_id : jsstring)
    (st : list post * list jsstring) (opt : jsstring * jsstring)
  : list post * list jsstring :=
  let '(ps, valid_options) := st in
  let '(option_id, new_label) := opt in
  let ps :=
    match existing_option input_id option_id ps with
    | [] =>
        map_selected input_id
          (fun p w =>
             let post_option_id := post_id_of (li_id p) ++ lit "-" ++ option_id in
             on_options
               (fun os =>
                  os ++ [built_option
                           [lit "post-annotation-input"; option_class option_id]
                           (lit "option-" ++ post_option_id) new_label]) w) ps
    | o :: _ =>
        if negb (jseqb (oe_value o) new_label) then
          map_selected input_id
            (fun _ w =>
               on_options
                 (map (fun o' =>
                         if has_class (option_class option_id) (oe_classes o') then
                           {| oe_classes := oe_classes o'; oe_id := oe_id o';
                              oe_value := new_label; oe_text := new_label;
                              oe_checked := oe_checked o' |}
                         else o')) w) ps
        else ps
    end in
  (ps, valid_options ++ [option_class option_id]).

(** [this.className.replace(" edited", "").split(" ").at(-1)]. *)
Definition last_class (o : option_el) : jsstring :=
  last (split_str (lit " ") (replace_first (lit " edited") [] (join_sp (oe_classes o)))) [].

(** The classes collected from the first option list of the field.  Only
    option elements are looked at here and in the removal that follows. *)
Definition present_options (input_id : jsstring) (ps : list post) : list jsstring :=
  match filter (fun w => is_option_list (w_control w)) (select_widgets input_id ps) with
  | [] => []
  | w :: _ =>
      flat_map
        (fun o =>
           if has_class (lit "post-annotation-input") (oe_classes o) && nonempty (oe_id o)
           then [last_class o] else [])
        (control_options (w_control w))
  end.

(** Removing options.  [oe_checked] is the flag of the element; which
    option a select shows after its selected option is gone is left to
    [options_val]. *)
Definition remove_option (input_id : jsstring) (valid_options : list jsstring)
    (ps : list post) (present : jsstring) : list post :=
  if negb (includes valid_options present) then
    map_selected input_id
      (fun _ w =>
         on_options (filter (fun o => negb (has_class present (oe_classes o)))) w) ps
  else ps.

(** Loop variables of the loop over the schema. *)
Record apply_state := {
  ap_posts : list post;
  ap_fields_to_add : schema;
  ap_threw : bool       (* a TypeError has ended the handler *)
}.

(** The body of [for (var field in annotation_fields)]. *)
Definition apply_field (added_fields : list jsstring)
    (st : apply_state) (e : jsstring * field_def) : apply_state :=
  if ap_threw st then st else
  let '(field, d) := e in
  let input_type := fd_type d in
  let input_label := fd_label d in
  let input_id := lit "field-" ++ field in
  let ps := ap_posts st in
  if includes added_fields input_id then
    let label :=
      match select_widgets input_id ps with
      | w :: _ => w_label w
      | [] => []
      end in
    let ps :=
      if negb (jseqb label input_label)
      then map_selected input_id (fun _ w => set_w_label input_label w) ps
      else ps in
    match select_widgets input_id ps with
    | [] =>
        {| ap_posts := ps; ap_fields_to_add := ap_fields_to_add st; ap_threw := true |}
    | first :: _ =>
        let old_input_type := last (w_classes first) [] in
        if negb (jseqb (type_name input_type) old_input_type) then
          if is_text_field (type_name input_type) && is_text_field old_input_type then
            {| ap_posts :=
                 map_selected input_id
                   (fun _ w => convert_text_control input_type old_input_type w) ps;
               ap_fields_to_add := ap_fields_to_add st;
               ap_threw := false |}
          else
            {| ap_posts := remove_selected input_id ps;
               ap_fields_to_add := obj_set (ap_fields_to_add st) field d;
               ap_threw := false |}
        else
          match input_type with
          | checkbox | dropdown =>
              let '(ps, valid_options) :=
                fold_left (sync_option input_id) (fd_option_list d) (ps, []) in
              {| ap_posts :=
                   fold_left (remove_option input_id valid_options)
                             (present_options input_id ps) ps;
                 ap_fields_to_add := ap_fields_to_add st;
                 ap_threw := false |}
          | text | textarea =>
              {| ap_posts := ps; ap_fields_to_add := ap_fields_to_add st;
                 ap_threw := false |}
          end
    end
  else
    {| ap_posts := ps;
       ap_fields_to_add := obj_set (ap_fields_to_add st) field d;
       ap_threw := false |}.

(** The classes (second token) of the widgets of the first post, without
    repetition; a missing token never equals a field class and is left
    out. *)
Definition added_fields_of (ps : list post) : list jsstring :=
  match ps with
  | [] => []
  | p :: _ =>
      fold_left
        (fun added w =>
           match nth_error (w_classes w) 1 with
           | Some cls => if negb (includes added cls) then added ++ [cls] else added
           | None => added
           end) (post_annotations p) []
  end.

(** "Remove annotation forms that are deleted".  A widget of the first
    post whose second class token is empty makes the code evaluate
    [$(".")], a syntax error; the layout ([field_layout]) rules that
    out. *)
Definition remove_deleted (valid_fields : list jsstring) (ps : list post) : list post :=
  match ps with
  | [] => ps
  | p :: _ =>
      fold_left
        (fun ps w =>
           let present_id := to_key (nth_error (w_classes w) 1) in
           if negb (includes valid_fields present_id)
           then remove_selected present_id ps else ps)
        (post_annotations p) ps
  end.

(** [applyAnnotationFields()] of explorer.js.  The two cleaning loops over
    [#annotation-field] and [.option-fields] address elements the script
    never creates and are left out. *)
Definition applyAnnotationFields (pg : page) : page :=
  let '(res, pg) := parseAnnotationFields pg in
  match res with
  | Warning w => warnEditor w pg
  | Schema fields =>
      let pg :=
        set_apply_button_html
          (lit "<i class='fas fa-circle-notch spinner'></i> Applying") pg in
      let pg := warnEditor [] pg in
      let pg := saveAnnotationFields fields pg in
      let added_fields := added_fields_of (posts pg) in
      let st :=
        fold_left (apply_field added_fields) (for_in fields)
          {| ap_posts := posts pg; ap_fields_to_add := []; ap_threw := false |} in
      if ap_threw st then set_posts (ap_posts st) pg
      else
        let ps := fold_left append_widgets (for_in (ap_fields_to_add st)) (ap_posts st) in
        let valid_fields := map (fun e => lit "field-" ++ fst e) (for_in fields) in
        let ps := remove_deleted valid_fields ps in
        let pg := set_posts ps pg in
        let leftover :=
          match ps with
          | [] => []
          | p :: _ => post_annotations p
          end in
        let pg :=
          match leftover with
          | [] => set_toggle_disabled true (hideAnnotations pg)
          | _ :: _ => set_toggle_disabled false (showAnnotations pg)
          end in
        set_apply_button_html (lit "<i class='fas fa-check'></i> Apply") pg
  end.

(** In the other copy of the script the option loop of
    [parseAnnotationFields] reads [$(this).id], a property jQuery objects
    do not have: the first option input it visits ends the call with a
    TypeError.  That happens as soon as a dropdown or checkbox row holds
    an option input. *)
Definition option_loop_throws (rows : list editor_field) : bool :=
  existsb
    (fun f =>
       match field_type_val f, option_fields f with
       | (dropdown | checkbox), _ :: _ => true
       | _, _ => false
       end) rows.

(** [applyAnnotationFields()] of the other copy: after the save it reloads
    the page.  [None] stands for the TypeError above; the flag tells
    whether [location.reload()] was called. *)
Definition applyAnnotationFields_reload (pg : page) : option (page * bool) :=
  if option_loop_throws (editor_rows pg) then None
  else
    let '(res, pg) := parseAnnotationFields pg in
    match res with
    | Warning w => Some (warnEditor w pg, false)
    | Schema fields =>
        let pg :=
          set_apply_button_html
            (lit "<i class='fas fa-circle-notch spinner'></i> Applying") pg in
        let pg := warnEditor [] pg in
        Some (saveAnnotationFields fields pg, true)
    end.

End Apply.

(* ================================================================== *)
(** * The validation rules, stated apart from the loop *)
(* ================================================================== *)

(** The label of a row as it is validated and stored. *)
Definition label_of (f : editor_field) : jsstring :=
  replace_ws_runs (label_value f).

Definition option_bearing (f : editor_field) : bool :=
  match field_type_val f with
  | dropdown | checkbox => true
  | text | textarea => false
  end.

(** The values of the option inputs of a row that are not empty. *)
Definition option_values (f : editor_field) : list jsstring :=
  filter nonempty (map opt_value (option_fields f)).

(** Some element of the list occurs again later in it. *)
Fixpoint has_repeat (l : list jsstring) : bool :=
  match l with
  | [] => false
  | x :: r => includes r x || has_repeat r
  end.

Fixpoint count_of (x : jsstring) (l : list jsstring) : nat :=
  match l with
  | [] => O
  | y :: r => (if jseqb x y then 1 else 0) + count_of x r
  end.

(** "At least one unique non-empty option input is present", read as: a
    non-empty value that occurs exactly once among the option inputs. *)
Definition has_unique_option (f : editor_field) : bool :=
  existsb (fun v => Nat.eqb (count_of v (option_values f)) 1) (option_values f).

(** The same, read as: a non-empty value that no earlier option input
    holds (the first non-empty value is always one). *)
Definition has_first_option (f : editor_field) : bool :=
  match option_values f with
  | [] => false
  | _ :: _ => true
  end.

Definition label_fails (cols earlier : list jsstring) (f : editor_field) : bool :=
  negb (nonempty (label_of f))
  || includes earlier (label_of f)
  || includes cols (label_of f).

(** A row fails the rules as the specification lists them; [unique_option]
    is the reading chosen for the option rule. *)
Definition fails_listed_rules (unique_option : editor_field -> bool)
    (cols earlier : list jsstring) (f : editor_field) : bool :=
  label_fails cols earlier f
  || (option_bearing f && negb (unique_option f)).

(** A row fails the rules the loop enforces: on top of the label rules, an
    option-bearing row needs a non-empty option value and must not repeat
    one. *)
Definition fails_enforced_rules (cols earlier : list jsstring)
    (f : editor_field) : bool :=
  label_fails cols earlier f
  || (option_bearing f
      && (negb (has_first_option f) || has_repeat (option_values f))).

(** Some row fails [rule], each row being checked against the labels of
    the rows before it. *)
Fixpoint some_row_fails (rule : list jsstring -> editor_field -> bool)
    (earlier : list jsstring) (rows : list editor_field) : bool :=
  match rows with
  | [] => false
  | f :: r => rule earlier f || some_row_fails rule (earlier ++ [label_of f]) r
  end.

Definition is_warning (r : parse_result) : bool :=
  match r with
  | Warning _ => true
  | Schema _ => false
  end.

Definition warning_of (r : parse_result) : option jsstring :=
  match r with
  | Warning w => Some w
  | Schema _ => None
  end.

(** The warnings of the checks that fail, in the order the checks are
    made: for each row the label checks (empty, then duplicate, then
    reserved; the first that fails ends them), then one entry for every
    option input that repeats an earlier value, then the entry for a row
    without any option value. *)
Definition label_failures (cols earlier : list jsstring) (f : editor_field)
  : list jsstring :=
  if negb (nonempty (label_of f)) then [warn_empty_label]
  else if includes earlier (label_of f) then [warn_duplicate_label]
  else if includes cols (label_of f) then [warn_reserved_label (label_of f)]
  else [].

Fixpoint repeat_failures (seen : list jsstring) (vs : list jsstring) : list jsstring :=
  match vs with
  | [] => []
  | v :: r =>
      if includes seen v then warn_duplicate_option :: repeat_failures seen r
      else repeat_failures (seen ++ [v]) r
  end.

Definition option_failures (f : editor_field) : list jsstring :=
  if option_bearing f then
    repeat_failures [] (option_values f)
      ++ (if has_first_option f then [] else [warn_no_options])
  else [].

Fixpoint validation_failures (cols earlier : list jsstring)
    (rows : list editor_field) : list jsstring :=
  match rows with
  | [] => []
  | f :: r =>
      label_failures cols earlier f ++ option_failures f
        ++ validation_failures cols (earlier ++ [label_of f]) r
  end.

Definition last_error {A} (l : list A) : option A :=
  match rev l with
  | [] => None
  | x :: _ => Some x
  end.



(** The value the specification gives for a checkbox widget: the values of
    the checked boxes, or undefined when none is checked. *)
Definition checked_labels (w : widget) : ann_value :=
  match map oe_value (filter oe_checked (option_inputs w)) with
  | [] => ValUndefined
  | l => ValList l
  end.

(** The number of option inputs of a group that are empty, and the number
    of empty ones the group ends with. *)
Definition empty_inputs (g : list option_field) : nat :=
  List.length (filter (fun o => negb (nonempty (opt_value o))) g).

Fixpoint leading_empty (g : list option_field) : nat :=
  match g with
  | [] => O
  | o :: r => if nonempty (opt_value o) then O else S (leading_empty r)
  end.

Definition trailing_empty (g : list option_field) : nat :=
  leading_empty (rev g).

(** The invariant of an option group. *)
Definition group_ok (g : list option_field) : Prop :=
  empty_inputs g <= 1
  /\ trailing_empty g <= 1
  /\ (List.length g = 1 -> forall o, In o g -> opt_delete o = false).

(** An operation that does call [addOptions] or [deleteOption]: the key
    handler calls [addOptions] only for a value that is not empty. *)
Definition calls_handler (op : group_op) : Prop :=
  match op with
  | KeyUp _ _ v => v <> []
  | DeleteClick _ => True
  end.

(** The values of the text controls of the widgets of one field, post by
    post. *)
Definition text_value (w : widget) : option jsstring :=
  match w_control w with
  | TextInput _ v | TextArea _ v => Some v
  | SelectBox _ | CheckBoxes _ => None
  end.

Definition field_values (cls : jsstring) (ps : list post) : list (list (option jsstring)) :=
  map (fun p => map text_value (filter (in_class cls) (post_annotations p))) ps.

Definition nonnil {A} (l : list A) : bool :=
  match l with
  | [] => false
  | _ :: _ => true
  end.

(* ------------------------------------------------------------------ *)
(** ** Sample pages *)

Definition blank_page : page :=
  {| editor_rows := []; input_warning_html := []; input_warning_hidden := true;
     apply_button_html := lit "<i class='fas fa-check'></i> Apply";
     apply_button_disabled := true; editor_container_hidden := false;
     posts := []; toggle_shown := false; toggle_disabled := true;
     toggle_html := lit "<i class='fas fa-eye'></i> Show annotations";
     save_button_html := lit "<i class='fas fa-save'></i> Save annotations";
     save_button_disabled := false; save_to_dataset_disabled := false;
     edits_made := false; original_columns := [lit "id"; lit "body"];
     annotation_fields := []; dataset_key := lit "abc123"; url_root := None;
     requests := []; alerts := [] |}.

Definition text_row (id label : string) (t : field_type) : editor_field :=
  {| dd_id := lit id; label_value := lit label; label_invalid := false;
     field_type_val := t; option_fields := [] |}.

Definition option_input (id value : string) : option_field :=
  {| opt_id := lit id; opt_value := lit value;
     opt_invalid := false; opt_delete := false |}.

(** A dropdown row whose option inputs hold "A", "A" and "B". *)
Definition row_repeated_option : editor_field :=
  {| dd_id := lit "field-f1"; label_value := lit "Topic"; label_invalid := false;
     field_type_val := dropdown;
     option_fields :=
       [option_input "input-1" "A"; option_input "input-2" "A";
        option_input "input-3" "B"] |}.

(** A row without label, followed by two rows with the same label. *)
Definition rows_two_failures : list editor_field :=
  [text_row "field-f1" "" text; text_row "field-f2" "Tone" text;
   text_row "field-f3" "Tone" textarea].




(** A checkbox widget as the server renders it for item 42, with options
    o1 = "A" and o2 = "B"; [c1] and [c2] tell which boxes are checked. *)
Definition checkbox_widget (c1 c2 : bool) : widget :=
  {| w_classes :=
       [lit "post-annotation"; lit "field-f1"; lit "type-checkbox"; lit "item-id-42"];
     w_label := lit "Topic";
     w_control :=
       CheckBoxes
         [{| oe_classes := [lit "post-annotation-input"; lit "option-o1"];
             oe_id := lit "option-42-o1"; oe_value := lit "A"; oe_text := lit "A";
             oe_checked := c1 |};
          {| oe_classes := [lit "post-annotation-input"; lit "option-o2"];
             oe_id := lit "option-42-o2"; oe_value := lit "B"; oe_text := lit "B";
             oe_checked := c2 |}] |}.

Definition is_trigger (e : event) : bool :=
  match e with
  | Trigger _ => true
  | _ => false
  end.

(** A text widget of field f1 with the given class tokens and value. *)
Definition text_widget (classes : list jsstring) (value : string) : widget :=
  {| w_classes := classes; w_label := lit "Notes";
     w_control := TextInput true (lit value) |}.

Definition textarea_row_f1 : editor_field :=
  {| dd_id := lit "field-f1"; label_value := lit "Notes"; label_invalid := false;
     field_type_val := textarea; option_fields := [] |}.

(** Two posts whose text widgets of field f1 carry the class tokens of the
    convention [parseAnnotation] reads ("field-", "type-", "item-id-"),
    while the editor now asks for a textarea. *)
Definition page_rendered_widgets : page :=
  set_posts
    [{| li_id := lit "post-42";
        post_annotations :=
          [text_widget [lit "post-annotation"; lit "field-f1"; lit "type-text"; lit "item-id-42"]
             "hello"] |};
     {| li_id := lit "post-43";
        post_annotations :=
          [text_widget [lit "post-annotation"; lit "field-f1"; lit "type-text"; lit "item-id-43"]
             "world"] |}]
    (set_editor_rows [textarea_row_f1] blank_page).

(** The same posts with widgets as [applyAnnotationFields] builds them:
    the type is the last class token. *)
Definition page_built_widgets : page :=
  set_posts
    [{| li_id := lit "post-42";
        post_annotations :=
          [text_widget [lit "post-annotation"; lit "field-f1"; lit "text"] "hello"] |};
     {| li_id := lit "post-43";
        post_annotations :=
          [text_widget [lit "post-annotation"; lit "field-f1"; lit "text"] "world"] |}]
    (set_editor_rows [textarea_row_f1] blank_page).

(** The same posts, the editor now asking for checkboxes "yes" and "no". *)
Definition checkbox_row_f1 : editor_field :=
  {| dd_id := lit "field-f1"; label_value := lit "Notes"; label_invalid := false;
     field_type_val := checkbox;
     option_fields := [option_input "input-7" "yes"; option_input "input-8" "no"] |}.

Definition page_built_to_checkbox : page :=
  set_editor_rows [checkbox_row_f1] page_built_widgets.

(** A browser that takes every string as it is. *)
Definition plain_browser : browser :=
  {| markup_text := fun s => s; markup_attr := fun s => s;
     text_input_value := fun s => s |}.

(** [parseAnnotation] does not throw on the widget: the three class tokens
    it indexes are there. *)
Definition extractable (w : widget) : bool :=
  match nth_error (w_classes w) 1, nth_error (w_classes w) 2,
        nth_error (w_classes w) 3 with
  | Some _, Some _, Some _ => true
  | _, _, _ => false
  end.

(* ------------------------------------------------------------------ *)
(** ** The class layout of widgets *)

Definition field_class (k : jsstring) : jsstring := lit "field-" ++ k.

(** Is the token the class of a field? *)
Definition is_field_class (t : jsstring) : bool :=
  match strip_prefix (lit "field-") t with
  | Some _ => true
  | None => false
  end.

Definition other_tokens (rest : list jsstring) : bool :=
  forallb (fun t => negb (is_field_class t)) rest.

(** The class layout the reconciliation relies on: "post-annotation", the
    class of the field, then tokens none of which is the class of a field.
    The widgets [applyAnnotationFields] builds fit (the type name follows),
    and so do widgets in the layout [parseAnnotation] reads ("type-..."
    and "item-id-..." follow). *)
Definition field_layout (w : widget) : Prop :=
  exists k rest,
    w_classes w = lit "post-annotation" :: field_class k :: rest
    /\ other_tokens rest = true.

(** The widgets of one field, post by post, and their controls. *)
Definition widgets_of (cls : jsstring) (ps : list post) : list (list widget) :=
  map (fun p => filter (in_class cls) (post_annotations p)) ps.



Definition field_page (ps : list post) : Prop :=
  Forall field_layout (all_widgets ps).

(** A change of the posts that leaves the widgets of every field but [g]
    as they were, and the layout of all widgets intact. *)
Definition touches_only (g : jsstring) (ps ps' : list post) : Prop :=
  field_page ps ->
  field_page ps'
  /\ map li_id ps' = map li_id ps
  /\ forall k, k <> g ->
       widgets_of (field_class k) ps' = widgets_of (field_class k) ps.

(** The posts after the label step of one turn of the schema loop. *)
Definition relabelled (g : jsstring) (label : jsstring) (ps : list post) : list post :=
  let old :=
    match select_widgets (field_class g) ps with
    | w :: _ => w_label w
    | [] => []
    end in
  if negb (jseqb old label)
  then map_selected (field_class g) (fun _ w => set_w_label label w) ps
  else ps.


(** A change of one widget that keeps it a widget of the same field. *)
Definition keeps_field (f : widget -> widget) : Prop :=
  forall w k rest,
    w_classes w = lit "post-annotation" :: field_class k :: rest ->
    other_tokens rest = true ->
    exists rest',
      w_classes (f w) = lit "post-annotation" :: field_class k :: rest'
      /\ other_tokens rest' = true.

(* ------------------------------------------------------------------ *)
(** ** The schema of an editor that passes, and the markers *)

(** The options of a row as they enter the schema: the inputs that hold
    a value, each under the id of its input without "input-". *)
Definition row_options (f : editor_field) : list (jsstring * jsstring) :=
  map (fun o => (replace_first (lit "input-") [] (opt_id o), opt_value o))
      (filter (fun o => nonempty (opt_value o)) (option_fields f)).

(** The definition one row stands for. *)
Definition row_def (f : editor_field) : field_def :=
  {| fd_type := field_type_val f; fd_label := label_of f;
     fd_options := if option_bearing f then Some (row_options f) else None |}.

(** The rows entered one after the other under the field id of their
    [dd]: a later row with the id of an earlier one takes its place. *)
Definition rows_schema (rows : list editor_field) : schema :=
  fold_left (fun o f => obj_set o (field_id_of (dd_id f)) (row_def f)) rows [].

(** Which label inputs fail a label rule, row by row. *)
Fixpoint label_markers (cols earlier : list jsstring) (rows : list editor_field)
  : list bool :=
  match rows with
  | [] => []
  | f :: r => label_fails cols earlier f :: label_markers cols (earlier ++ [label_of f]) r
  end.

(** The markers of the option inputs of a group: an input is marked when
    it was marked before or holds a value that is not empty and that an
    input before it holds. *)
Fixpoint option_markers (earlier : list jsstring) (os : list option_field)
  : list bool :=
  match os with
  | [] => []
  | o :: r =>
      (opt_invalid o || (nonempty (opt_value o) && includes earlier (opt_value o)))
        :: option_markers (earlier ++ [opt_value o]) r
  end.

Definition row_option_markers (f : editor_field) : list bool :=
  if option_bearing f then option_markers [] (option_fields f)
  else map opt_invalid (option_fields f).

(** A row without its markers. *)
Definition unmarked_option (o : option_field) : option_field :=
  {| opt_id := opt_id o; opt_value := opt_value o;
     opt_invalid := false; opt_delete := opt_delete o |}.

Definition unmarked (f : editor_field) : editor_field :=
  {| dd_id := dd_id f; label_value := label_value f; label_invalid := false;
     field_type_val := field_type_val f;
     option_fields := map unmarked_option (option_fields f) |}.

(** [addAnnotationField()]: the row its markup describes.  The [dd] has
    no id attribute (the id with the random number is on the label input,
    which nothing reads), the select shows "text", the third cell is
    empty.  The row is inserted before [#edit-annotation-fields], the
    element that follows the rows of the editor. *)
Definition new_annotation_field : editor_field :=
  {| dd_id := []; label_value := []; label_invalid := false;
     field_type_val := text; option_fields := [] |}.

Definition addAnnotationField (pg : page) : page :=
  set_editor_rows (editor_rows pg ++ [new_annotation_field]) pg.

(** Two rows added with [addAnnotationField], labelled "Tone" and "Topic"
    by the user. *)
Definition page_two_added_rows : page :=
  set_editor_rows
    [{| dd_id := []; label_value := lit "Tone"; label_invalid := false;
        field_type_val := text; option_fields := [] |};
     {| dd_id := []; label_value := lit "Topic"; label_invalid := false;
        field_type_val := textarea; option_fields := [] |}]
    blank_page.

(** A text row and a dropdown row with options "yes" and "no" and the
    empty input that ends the group. *)
Definition page_two_rows : page :=
  set_editor_rows
    [text_row "field-f1" "Notes  on tone" text;
     {| dd_id := lit "field-f2"; label_value := lit "Relevant"; label_invalid := false;
        field_type_val := dropdown;
        option_fields :=
          [option_input "input-7" "yes"; option_input "input-8" "no";
           option_input "input-9" ""] |}]
    blank_page.

(* ------------------------------------------------------------------ *)
(** ** The shape of an option group *)

(** Every input of the group but the last holds a value, the last one is
    empty. *)
Fixpoint values_shape (g : list option_field) : bool :=
  match g with
  | [] => false
  | o :: r =>
      match r with
      | [] => negb (nonempty (opt_value o))
      | _ :: _ => nonempty (opt_value o) && values_shape r
      end
  end.

(** The same, and the delete control is on every field but the last. *)
Fixpoint group_shape (g : list option_field) : bool :=
  match g with
  | [] => false
  | o :: r =>
      match r with
      | [] => negb (nonempty (opt_value o)) && negb (opt_delete o)
      | _ :: _ => nonempty (opt_value o) && opt_delete o && group_shape r
      end
  end.

(** A text widget of item 42 in the class layout [parseAnnotation] reads,
    the user having typed "hello". *)
Definition rendered_text_widget : widget :=
  text_widget
    [lit "post-annotation"; lit "field-f1"; lit "type-text"; lit "item-id-42"] "hello".

(** A page whose first post holds a widget in that layout and whose second
    post holds a widget as [applyAnnotationFields] builds it. *)
Definition page_mixed_widgets : page :=
  set_posts
    [{| li_id := lit "post-42"; post_annotations := [rendered_text_widget] |};
     {| li_id := lit "post-43";
        post_annotations :=
          [text_widget [lit "post-annotation"; lit "field-f1"; lit "text"] "world"] |}]
    blank_page.

(* ------------------------------------------------------------------ *)
(** ** What reconciliation makes of the widgets of one field *)



(** The widgets of a field in one post, with the widget built for the post
    when the field is queued for building. *)
Definition with_built (B : browser) (k : jsstring) (queued : option field_def)
    (ws : list widget) (li : jsstring) : list widget :=
  ws ++ match queued with
        | Some d => [build_widget B k d (post_id_of li)]
        | None => []
        end.

(** The posts of [page_built_widgets], the editor holding the text field
    f1 as it is and a new text field f2. *)
Definition page_new_field : page :=
  set_editor_rows
    [text_row "field-f1" "Notes" text; text_row "field-f2" "Tone" text]
    page_built_widgets.

(** The same posts, the editor holding the new field f2 only. *)
Definition page_field_replaced : page :=
  set_editor_rows [text_row "field-f2" "Tone" text] page_built_widgets.


(** The widgets of the first post's panel. *)
Definition first_panel (ps : list post) : list widget :=
  match ps with
  | [] => []
  | p :: _ => post_annotations p
  end.


(* ------------------------------------------------------------------ *)
(** ** Plain identifiers and plain markup

    The model takes [$("." + cls)] as "carries the class token [cls]",
    a key of an object as an ordinary property, and the markup the script
    concatenates as the element it is meant to describe.  That is what the
    code does for the strings below; for others (a class with "." or ":",
    the key "__proto__", a label with "<") it does something else, and
    the statements about the reconciliation and about the schema object
    are made for these strings only. *)

(** A character of [[\w-]]: for a class made of such characters jQuery
    answers ["." + cls] with [getElementsByClassName(cls)]. *)
Definition is_name_char (c : N) : bool :=
  (N.leb 48 c && N.leb c 57)          (* 0-9 *)
  || (N.leb 65 c && N.leb c 90)       (* A-Z *)
  || (N.leb 97 c && N.leb c 122)      (* a-z *)
  || N.eqb c 95                       (* _ *)
  || N.eqb c DASH.

Definition name_chars (s : jsstring) : bool := forallb is_name_char s.

(** A class token as [split(" ")] and the class list of the element agree
    on it. *)
Definition plain_token (t : jsstring) : bool := nonempty t && name_chars t.

(** A key that assignment stores as an own property: every string but
    "__proto__", whose assignment sets the prototype instead. *)
Definition own_key (k : jsstring) : bool := negb (jseqb k (lit "__proto__")).

(** A field or option id that can be written into a class or id attribute
    and into a selector as it is. *)
Definition plain_key (k : jsstring) : bool := name_chars k && own_key k.

(** Text that opens no tag when written between two tags, and text that
    can also be written into a single-quoted attribute. *)
Definition plain_text (s : jsstring) : bool :=
  forallb (fun c => negb (N.eqb c 60)) s.                       (* no < *)

Definition plain_value (s : jsstring) : bool :=
  forallb (fun c => negb (N.eqb c 60) && negb (N.eqb c 39)) s.  (* no < and no ' *)

Definition plain_def (d : field_def) : bool :=
  plain_text (fd_label d)
  && forallb (fun o : jsstring * jsstring => plain_key (fst o) && plain_value (snd o))
       (match fd_options d with Some l => l | None => [] end).

Definition plain_schema (fields : schema) : bool :=
  forallb (fun e : jsstring * field_def => plain_key (fst e) && plain_def (snd e)) fields.

(** The posts: the part of the id of every [li] after "post-" is made of
    name characters, the class tokens of every widget and of every option
    element are plain, and the text of every text control opens no tag
    (it is written into the markup of a textarea when the field is
    converted). *)
Definition plain_control (c : control) : bool :=
  match c with
  | TextInput _ v | TextArea _ v => plain_text v
  | SelectBox os | CheckBoxes os =>
      forallb (fun o => forallb plain_token (oe_classes o)) os
  end.

Definition plain_widget (w : widget) : bool :=
  forallb plain_token (w_classes w) && plain_control (w_control w).

Definition plain_page (ps : list post) : bool :=
  forallb (fun p => name_chars (post_id_of (li_id p))
                    && forallb plain_widget (post_annotations p)) ps.

(** The rows of the editor: no field id and no option id is
    "__proto__". *)
Definition own_keys (rows : list editor_field) : bool :=
  forallb (fun f =>
             own_key (field_id_of (dd_id f))
             && forallb (fun o => own_key (replace_first (lit "input-") [] (opt_id o)))
                  (option_fields f)) rows.


(* ------------------------------------------------------------------ *)
(** ** Option lists of a field that keeps its type *)





(** The string holds no "-". *)
Definition dash_free (s : jsstring) : bool :=
  forallb (fun c => negb (N.eqb c DASH)) s.

(* ================================================================== *)
(** * Properties *)
(* ================================================================== *)

Unset Implicit Arguments.

(** ** Strings and arrays *)

Lemma jseqb_eq (a b : jsstring) : jseqb a b = true <-> a = b.
Proof.
  revert b; induction a as [|x a IH]; intros [|y b]; simpl; split;
    try congruence; try reflexivity.
  - intros H. apply andb_true_iff in H as [Hx Hab].
    apply N.eqb_eq in Hx. apply IH in Hab. congruence.
  - intros H. injection H as -> ->.
    rewrite N.eqb_refl. simpl. now apply IH.
Qed.

Lemma jseqb_refl (a : jsstring) : jseqb a a = true.
Proof. now apply jseqb_eq. Qed.

Lemma jseqb_neq (a b : jsstring) : jseqb a b = false <-> a <> b.
Proof.
  split.
  - intros H E. apply jseqb_eq in E. congruence.
  - intros H. destruct (jseqb a b) eqn:E; trivial.
    apply jseqb_eq in E. contradiction.
Qed.

Lemma includes_In (l : list jsstring) (x : jsstring) :
  includes l x = true <-> In x l.
Proof.
  unfold includes. rewrite existsb_exists. split.
  - intros (y & Hy & E). apply jseqb_eq in E. now subst.
  - intros H. exists x. split; [assumption | apply jseqb_refl].
Qed.

Lemma includes_app (l1 l2 : list jsstring) (x : jsstring) :
  includes (l1 ++ l2) x = includes l1 x || includes l2 x.
Proof. unfold includes. apply existsb_app. Qed.

Lemma nonempty_false (s : jsstring) : nonempty s = false <-> s = [].
Proof. destruct s; simpl; split; congruence. Qed.

Lemma nonempty_app_l (a b : jsstring) : nonempty a = true -> nonempty (a ++ b) = true.
Proof. destruct a; simpl; congruence. Qed.

(** ** The whitespace replacement *)










(** ** The field loop of parseAnnotationFields *)

Lemma last_cons {A} (x d : A) (l : list A) : last (x :: l) d = last l x.
Proof.
  revert x d; induction l as [|y l IH]; intros x d; [reflexivity|].
  change (last (x :: y :: l) d) with (last (y :: l) d).
  rewrite !IH. reflexivity.
Qed.

Lemma last_app_default {A} (l1 l2 : list A) (d : A) :
  last (l1 ++ l2) d = last l2 (last l1 d).
Proof.
  revert d; induction l1 as [|x l1 IH]; intros d; [reflexivity|].
  rewrite <- app_comm_cons, !last_cons. apply IH.
Qed.

Lemma last_error_last {A} (l : list A) (d : A) :
  last l d = match last_error l with Some x => x | None => d end.
Proof.
  unfold last_error.
  induction l as [|x l IH] using rev_ind; [reflexivity|].
  rewrite rev_app_distr, last_app_default. reflexivity.
Qed.

Lemma last_error_nil {A} (l : list A) : last_error l = None <-> l = [].
Proof.
  unfold last_error. split.
  - intros H. destruct (rev l) eqn:E; [|discriminate].
    apply (f_equal (@rev A)) in E. now rewrite rev_involutive in E.
  - now intros ->.
Qed.

Lemma last_error_In {A} (l : list A) (x : A) : last_error l = Some x -> In x l.
Proof.
  unfold last_error. intros H. destruct (rev l) eqn:E; [discriminate|].
  injection H as ->. apply in_rev. rewrite E. now left.
Qed.

Lemma each_cons_fst {S A} (body : S -> A -> S * A) (s : S) (a : A) (l : list A) :
  fst (each body s (a :: l)) = fst (each body (fst (body s a)) l).
Proof.
  simpl. destruct (body s a) as [s1 a1]. simpl.
  now destruct (each body s1 l).
Qed.

Lemma parse_option_repeat (st : opt_state) (o : option_field) :
  includes (os_option_labels st) (opt_value o) = true ->
  fst (parse_option st o)
  = {| os_options := os_options st;
       os_option_labels := os_option_labels st;
       os_no_options_added := os_no_options_added st;
       os_warning := warn_duplicate_option |}.
Proof. intros H. unfold parse_option. now rewrite H. Qed.

Lemma parse_option_new (st : opt_state) (o : option_field) :
  includes (os_option_labels st) (opt_value o) = false ->
  nonempty (opt_value o) = true ->
  fst (parse_option st o)
  = {| os_options :=
         os_options st
           ++ [(replace_first (lit "input-") [] (opt_id o), opt_value o)];
       os_option_labels := os_option_labels st ++ [opt_value o];
       os_no_options_added := false;
       os_warning := os_warning st |}.
Proof. intros H1 H2. unfold parse_option. now rewrite H1, H2. Qed.

Lemma parse_option_skip (st : opt_state) (o : option_field) :
  includes (os_option_labels st) (opt_value o) = false ->
  nonempty (opt_value o) = false ->
  fst (parse_option st o) = st.
Proof. intros H1 H2. unfold parse_option. now rewrite H1, H2. Qed.

(** The option loop: the state it leaves, from the state it starts in. *)
Lemma option_loop_trace (os : list option_field) :
  forall st,
    Forall (fun v => nonempty v = true) (os_option_labels st) ->
    (os_no_options_added st = true -> os_option_labels st = []) ->
    let st' := fst (each parse_option st os) in
    os_warning st'
      = last (repeat_failures (os_option_labels st)
                (filter nonempty (map opt_value os))) (os_warning st)
    /\ os_no_options_added st'
       = os_no_options_added st
         && match filter nonempty (map opt_value os) with [] => true | _ => false end.
Proof.
  induction os as [|o os IH]; intros st Hne Hnone; cbn zeta.
  - simpl. now rewrite andb_true_r.
  - rewrite each_cons_fst. cbn [map filter].
    destruct (includes (os_option_labels st) (opt_value o)) eqn:Hin.
    + (* the value is already there: it is not empty, the warning is set *)
      assert (Hv : nonempty (opt_value o) = true).
      { apply includes_In in Hin. rewrite Forall_forall in Hne. auto. }
      rewrite parse_option_repeat, Hv by assumption.
      cbn [repeat_failures]. rewrite Hin, last_cons.
      match goal with |- context [each parse_option ?s os] =>
        destruct (IH s Hne Hnone) as [IHw IHn] end.
      cbn [os_option_labels os_warning os_no_options_added] in IHw, IHn.
      split; [exact IHw|]. rewrite IHn.
      destruct (os_no_options_added st) eqn:Hn; [|reflexivity].
      rewrite Hnone in Hin by reflexivity. discriminate.
    + destruct (nonempty (opt_value o)) eqn:Hv.
      * rewrite parse_option_new by assumption.
        cbn [repeat_failures]. rewrite Hin.
        match goal with |- context [each parse_option ?s os] =>
          destruct (IH s) as [IHw IHn] end.
        { cbn [os_option_labels]. apply Forall_app. split; [assumption|]. now constructor. }
        { cbn [os_no_options_added]. discriminate. }
        cbn [os_option_labels os_warning os_no_options_added] in IHw, IHn.
        split; [exact IHw|]. rewrite IHn. now rewrite andb_false_r.
      * rewrite parse_option_skip by assumption. exact (IH st Hne Hnone).
Qed.

Lemma label_failures_chain cols (st : parse_state) (f : editor_field) :
  (let '(w, _) :=
     if negb (nonempty (label_of f)) then (warn_empty_label, true)
     else if includes (ps_labels_added st) (label_of f) then (warn_duplicate_label, true)
     else if includes cols (label_of f) then (warn_reserved_label (label_of f), true)
     else (ps_warning st, label_invalid f) in w)
  = last (label_failures cols (ps_labels_added st) f) (ps_warning st).
Proof.
  unfold label_failures.
  destruct (negb (nonempty (label_of f))); [reflexivity|].
  destruct (includes (ps_labels_added st) (label_of f)); [reflexivity|].
  destruct (includes cols (label_of f)); reflexivity.
Qed.

(** One turn of the field loop. *)
Lemma parse_field_trace cols (st : parse_state) (f : editor_field) :
  let st' := fst (parse_field cols st f) in
  ps_warning st'
    = last (label_failures cols (ps_labels_added st) f ++ option_failures f)
           (ps_warning st)
  /\ ps_labels_added st' = ps_labels_added st ++ [label_of f].
Proof.
  pose proof (label_failures_chain cols st f) as Hchain.
  unfold parse_field, option_failures, option_bearing, has_first_option, option_values.
  fold (label_of f).
  destruct (if negb (nonempty (label_of f)) then _ else _) as [w inv] eqn:Elab.
  rewrite last_app_default, <- Hchain.
  destruct (field_type_val f); simpl; try (split; reflexivity).
  - destruct (each parse_option _ (option_fields f)) as [os opts] eqn:E.
    pose proof (option_loop_trace (option_fields f)
                  {| os_options := []; os_option_labels := [];
                     os_no_options_added := true; os_warning := w |}) as H.
    simpl in H. rewrite E in H. simpl in H.
    destruct H as [Hw Hn]; [constructor | reflexivity |].
    simpl. split; [|reflexivity].
    rewrite last_app_default, <- Hw, Hn.
    destruct (filter nonempty (map opt_value (option_fields f))); reflexivity.
  - destruct (each parse_option _ (option_fields f)) as [os opts] eqn:E.
    pose proof (option_loop_trace (option_fields f)
                  {| os_options := []; os_option_labels := [];
                     os_no_options_added := true; os_warning := w |}) as H.
    simpl in H. rewrite E in H. simpl in H.
    destruct H as [Hw Hn]; [constructor | reflexivity |].
    simpl. split; [|reflexivity].
    rewrite last_app_default, <- Hw, Hn.
    destruct (filter nonempty (map opt_value (option_fields f))); reflexivity.
Qed.

(** The whole loop. *)
Lemma parse_rows_trace cols (rows : list editor_field) :
  forall st,
    ps_warning (fst (each (parse_field cols) st rows))
    = last (validation_failures cols (ps_labels_added st) rows) (ps_warning st).
Proof.
  induction rows as [|f rows IH]; intros st; simpl; [reflexivity|].
  destruct (parse_field cols st f) as [st1 f1] eqn:E1.
  destruct (each (parse_field cols) st1 rows) as [st2 rows2] eqn:E2. simpl.
  pose proof (parse_field_trace cols st f) as [Hw Hl].
  rewrite E1 in Hw, Hl. simpl in Hw, Hl.
  specialize (IH st1). rewrite E2 in IH. simpl in IH.
  rewrite IH, Hl, Hw. symmetry. rewrite app_assoc. apply last_app_default.
Qed.

Lemma validation_failures_clear cols (rows : list editor_field) :
  forall earlier,
    validation_failures cols earlier (map clear_label_invalid rows)
    = validation_failures cols earlier rows.
Proof.
  induction rows as [|f rows IH]; intros earlier; simpl; [reflexivity|].
  now rewrite IH.
Qed.

Lemma repeat_failures_nonempty seen vs :
  Forall (fun w => nonempty w = true) (repeat_failures seen vs).
Proof.
  revert seen; induction vs as [|v vs IH]; intros seen; simpl; [constructor|].
  destruct (includes seen v); [constructor; [reflexivity | apply IH] | apply IH].
Qed.

Lemma validation_failures_nonempty cols (rows : list editor_field) :
  forall earlier,
    Forall (fun w => nonempty w = true) (validation_failures cols earlier rows).
Proof.
  induction rows as [|f rows IH]; intros earlier; simpl; [constructor|].
  repeat (apply Forall_app; split); [| | apply IH].
  - unfold label_failures.
    destruct (negb _); [repeat constructor|].
    destruct (includes earlier _); [repeat constructor|].
    destruct (includes cols _); repeat constructor.
  - unfold option_failures. destruct (option_bearing f); [|constructor].
    apply Forall_app. split; [apply repeat_failures_nonempty|].
    destruct (has_first_option f); repeat constructor.
Qed.

(** What [parseAnnotationFields] returns, in terms of the failing checks:
    the warning of the last of them. *)
Lemma parse_editor_warning cols (rows : list editor_field) :
  warning_of (fst (parse_editor cols rows))
  = last_error (validation_failures cols [] rows).
Proof.
  unfold parse_editor.
  destruct (each (parse_field cols) _ (map clear_label_invalid rows)) as [st rows'] eqn:E.
  pose proof (parse_rows_trace cols (map clear_label_invalid rows)
                {| ps_annotation_fields := []; ps_warning := [];
                   ps_labels_added := [] |}) as H.
  rewrite E in H. simpl in H. rewrite validation_failures_clear in H.
  simpl. rewrite H, last_error_last.
  destruct (last_error (validation_failures cols [] rows)) as [w|] eqn:El.
  - apply last_error_In in El.
    pose proof (validation_failures_nonempty cols rows []) as Hne.
    rewrite Forall_forall in Hne. rewrite (Hne _ El). reflexivity.
  - reflexivity.
Qed.

Lemma parseAnnotationFields_result (pg : page) :
  fst (parseAnnotationFields pg)
  = fst (parse_editor (original_columns pg) (editor_rows pg)).
Proof.
  unfold parseAnnotationFields, warnEditor.
  destruct (input_warning_hidden (set_input_warning_html [] pg)); simpl;
    now destruct (parse_editor (original_columns pg) (editor_rows pg)).
Qed.

Lemma is_warning_of (r : parse_result) :
  is_warning r = match warning_of r with Some _ => true | None => false end.
Proof. now destruct r. Qed.

Lemma last_error_nonnil {A} (l : list A) :
  match last_error l with Some _ => true | None => false end = nonnil l.
Proof.
  destruct l as [|x l]; [reflexivity|].
  destruct (last_error (x :: l)) eqn:E; [reflexivity|].
  apply last_error_nil in E. discriminate.
Qed.

Lemma nonnil_app {A} (l1 l2 : list A) : nonnil (l1 ++ l2) = nonnil l1 || nonnil l2.
Proof. now destruct l1. Qed.

Lemma jseqb_sym (a b : jsstring) : jseqb a b = jseqb b a.
Proof.
  destruct (jseqb b a) eqn:E.
  - apply jseqb_eq in E. subst. apply jseqb_refl.
  - apply jseqb_neq. apply jseqb_neq in E. congruence.
Qed.

Lemma existsb_includes_snoc (seen r : list jsstring) (v : jsstring) :
  existsb (includes (seen ++ [v])) r = existsb (includes seen) r || includes r v.
Proof.
  induction r as [|x r IH]; simpl; [reflexivity|].
  rewrite IH, includes_app. unfold includes at 2 4. simpl.
  rewrite (jseqb_sym v x).
  destruct (includes seen x), (jseqb x v), (existsb (includes seen) r); reflexivity.
Qed.

Lemma repeat_failures_nonnil (vs : list jsstring) :
  forall seen,
    nonnil (repeat_failures seen vs) = existsb (includes seen) vs || has_repeat vs.
Proof.
  induction vs as [|v vs IH]; intros seen; simpl; [reflexivity|].
  destruct (includes seen v) eqn:Hin; [reflexivity|].
  rewrite IH, existsb_includes_snoc. simpl.
  destruct (existsb (includes seen) vs), (includes vs v); reflexivity.
Qed.

Lemma label_failures_nonnil cols earlier (f : editor_field) :
  nonnil (label_failures cols earlier f) = label_fails cols earlier f.
Proof.
  unfold label_failures, label_fails.
  destruct (negb (nonempty (label_of f))); [reflexivity|].
  destruct (includes earlier (label_of f)); [reflexivity|].
  destruct (includes cols (label_of f)); reflexivity.
Qed.

Lemma existsb_includes_nil (vs : list jsstring) : existsb (includes []) vs = false.
Proof. induction vs; simpl; trivial. Qed.

Lemma option_failures_nonnil (f : editor_field) :
  nonnil (option_failures f)
  = option_bearing f && (negb (has_first_option f) || has_repeat (option_values f)).
Proof.
  unfold option_failures. destruct (option_bearing f); [|reflexivity].
  rewrite nonnil_app, repeat_failures_nonnil, existsb_includes_nil. simpl.
  destruct (has_first_option f), (has_repeat (option_values f)); reflexivity.
Qed.

Lemma validation_failures_nonnil cols (rows : list editor_field) :
  forall earlier,
    nonnil (validation_failures cols earlier rows)
    = some_row_fails (fails_enforced_rules cols) earlier rows.
Proof.
  induction rows as [|f rows IH]; intros earlier; simpl; [reflexivity|].
  rewrite !nonnil_app, IH, label_failures_nonnil, option_failures_nonnil.
  unfold fails_enforced_rules. now rewrite orb_assoc.
Qed.

(** ** C1 *)

(** C1, as the loop has it: [parseAnnotationFields] returns a string exactly
    when some row of the editor fails a rule, the rules being: the label is
    not empty, differs from the labels of the rows before it, is not a
    reserved column name, and, for a dropdown or checkbox row, some option
    input is not empty and no option input repeats the non-empty value of an
    earlier one. *)
Theorem parse_returns_string_iff_rule_fails (pg : page) :
  is_warning (fst (parseAnnotationFields pg))
  = some_row_fails (fails_enforced_rules (original_columns pg)) []
      (editor_rows pg).
Proof.
  rewrite parseAnnotationFields_result, is_warning_of, parse_editor_warning.
  rewrite last_error_nonnil. apply validation_failures_nonnil.
Qed.

(** C1 as stated fails: a dropdown row with option inputs "A", "A", "B"
    passes every listed rule (under both readings of "unique": "B" occurs
    once, and "A" is new when first met), yet a string is returned. *)
Lemma parse_repeated_option_counterexample :
  let pg := set_editor_rows [row_repeated_option] blank_page in
  fst (parseAnnotationFields pg) = Warning warn_duplicate_option
  /\ some_row_fails (fails_listed_rules has_unique_option (original_columns pg)) []
       (editor_rows pg) = false
  /\ some_row_fails (fails_listed_rules has_first_option (original_columns pg)) []
       (editor_rows pg) = false.
Proof. vm_compute. repeat split. Qed.

(** ** C5 *)

(** C5, as the loop has it: the string returned is the warning of the last
    check that fails, every later failure overwriting the earlier one; no
    failure at all gives the schema object. *)
Theorem parse_returns_last_failure (pg : page) :
  warning_of (fst (parseAnnotationFields pg))
  = last_error (validation_failures (original_columns pg) [] (editor_rows pg)).
Proof.
  rewrite parseAnnotationFields_result. apply parse_editor_warning.
Qed.

(** C5 as stated fails: with a row without label followed by a row that
    repeats a label, the first failure is the empty label, and the string
    returned is the warning for the duplicate. *)
Lemma parse_first_failure_counterexample :
  let pg := set_editor_rows rows_two_failures blank_page in
  hd_error (validation_failures (original_columns pg) [] (editor_rows pg))
    = Some warn_empty_label
  /\ fst (parseAnnotationFields pg) = Warning warn_duplicate_label
  /\ warn_duplicate_label <> warn_empty_label.
Proof. vm_compute. repeat split. discriminate. Qed.

(** ** C9 *)






(** ** What the helpers leave alone *)

Lemma warnEditor_frame (w : jsstring) (pg : page) :
  requests (warnEditor w pg) = requests pg
  /\ posts (warnEditor w pg) = posts pg
  /\ editor_rows (warnEditor w pg) = editor_rows pg
  /\ original_columns (warnEditor w pg) = original_columns pg
  /\ input_warning_html (warnEditor w pg) = w.
Proof.
  unfold warnEditor.
  destruct (input_warning_hidden (set_input_warning_html w pg)); simpl; auto.
Qed.

Lemma warnEditor_env (w : jsstring) (pg : page) :
  dataset_key (warnEditor w pg) = dataset_key pg
  /\ url_root (warnEditor w pg) = url_root pg
  /\ annotation_fields (warnEditor w pg) = annotation_fields pg.
Proof.
  unfold warnEditor.
  destruct (input_warning_hidden (set_input_warning_html w pg)); simpl; auto.
Qed.

Lemma parseAnnotationFields_frame (pg : page) :
  requests (snd (parseAnnotationFields pg)) = requests pg
  /\ posts (snd (parseAnnotationFields pg)) = posts pg.
Proof.
  unfold parseAnnotationFields.
  destruct (warnEditor_frame [] pg) as (Hr & Hp & _).
  destruct (parse_editor _ _) as [res rows]. simpl. auto.
Qed.

Lemma parseAnnotationFields_env (pg : page) :
  dataset_key (snd (parseAnnotationFields pg)) = dataset_key pg
  /\ url_root (snd (parseAnnotationFields pg)) = url_root pg
  /\ annotation_fields (snd (parseAnnotationFields pg)) = annotation_fields pg.
Proof.
  unfold parseAnnotationFields.
  destruct (warnEditor_env [] pg) as (Hk & Hu & Ha).
  destruct (parse_editor _ _) as [res rows]. simpl. auto.
Qed.

Lemma fieldsExist_frame (pg : page) :
  requests (snd (fieldsExist pg)) = requests pg
  /\ posts (snd (fieldsExist pg)) = posts pg
  /\ dataset_key (snd (fieldsExist pg)) = dataset_key pg
  /\ url_root (snd (fieldsExist pg)) = url_root pg.
Proof. unfold fieldsExist. destruct (annotation_fields pg); simpl; auto. Qed.

Lemma saveAnnotationFields_requests (fields : schema) (pg : page) :
  requests (saveAnnotationFields fields pg)
  = requests pg
      ++ [{| rq_url :=
               getRelativeURL
                 (lit "explorer/save_annotation_fields/" ++ dataset_key pg) pg;
             rq_body := FieldsBody fields |}].
Proof.
  unfold saveAnnotationFields.
  replace (js_lt _ _) with false
    by (unfold get_prop; now destruct (obj_get fields (lit "length"))).
  destruct (fieldsExist_frame pg) as (Hr & _ & Hk & Hu).
  cbn [requests set_requests]. rewrite Hr, Hk.
  unfold getRelativeURL. now rewrite Hu.
Qed.

Lemma saveAnnotationFields_posts (fields : schema) (pg : page) :
  posts (saveAnnotationFields fields pg) = posts pg.
Proof.
  unfold saveAnnotationFields.
  destruct (js_lt _ _); [reflexivity|].
  destruct (fieldsExist_frame pg) as (_ & Hp & _). exact Hp.
Qed.

Section ApplyFrame.

Variable B : browser.

(** The requests after [applyAnnotationFields]: none is added for a
    warning, the schema is posted otherwise. *)
Lemma applyAnnotationFields_requests (pg : page) :
  requests (applyAnnotationFields B pg)
  = match fst (parseAnnotationFields pg) with
    | Warning _ => requests pg
    | Schema fields =>
        requests pg
          ++ [{| rq_url :=
                   getRelativeURL
                     (lit "explorer/save_annotation_fields/" ++ dataset_key pg) pg;
                 rq_body := FieldsBody fields |}]
    end.
Proof.
  unfold applyAnnotationFields.
  destruct (parseAnnotationFields_frame pg) as [Hr _].
  destruct (parseAnnotationFields_env pg) as (Hk & Hu & _).
  destruct (parseAnnotationFields pg) as [[w|fields] pg1]; cbn [fst snd] in *.
  - destruct (warnEditor_frame w pg1) as (Hr' & _). congruence.
  - cbv zeta.
    set (pg2 := warnEditor [] (set_apply_button_html _ pg1)).
    set (pgS := saveAnnotationFields fields pg2).
    assert (HS : requests pgS
                 = requests pg
                     ++ [{| rq_url :=
                              getRelativeURL
                                (lit "explorer/save_annotation_fields/" ++ dataset_key pg) pg;
                            rq_body := FieldsBody fields |}]).
    { unfold pgS. rewrite saveAnnotationFields_requests.
      destruct (warnEditor_frame [] (set_apply_button_html
                  (lit "<i class='fas fa-circle-notch spinner'></i> Applying") pg1))
        as (Hr2 & _).
      destruct (warnEditor_env [] (set_apply_button_html
                  (lit "<i class='fas fa-circle-notch spinner'></i> Applying") pg1))
        as (Hk2 & Hu2 & _).
      fold pg2 in Hr2, Hk2, Hu2. cbn in Hr2, Hk2, Hu2.
      unfold getRelativeURL. rewrite Hr2, Hk2, Hu2, Hr, Hk, Hu. reflexivity. }
    destruct (ap_threw _); [exact HS|].
    destruct (remove_deleted _ _) as [|p ps]; [exact HS|].
    destruct (post_annotations p); exact HS.
Qed.

End ApplyFrame.

(** ** C4 *)



(** ** C10 *)

(** C10: for every schema object, the empty one included, the guard
    [annotation_fields.length < 1] is false and the POST request is issued;
    applying an editor without rows sends the empty schema. *)
Theorem saveAnnotationFields_always_posts (B : browser) (fields : schema) (pg : page) :
  js_lt (ToNumber (get_prop fields (lit "length"))) (Num 1) = false
  /\ requests (saveAnnotationFields fields pg)
     = requests pg
         ++ [{| rq_url :=
                  getRelativeURL
                    (lit "explorer/save_annotation_fields/" ++ dataset_key pg) pg;
                rq_body := FieldsBody fields |}]
  /\ requests (applyAnnotationFields B (set_editor_rows [] pg))
     = requests pg
         ++ [{| rq_url :=
                  getRelativeURL
                    (lit "explorer/save_annotation_fields/" ++ dataset_key pg) pg;
                rq_body := FieldsBody [] |}].
Proof.
  split; [|split].
  - unfold get_prop. now destruct (obj_get fields (lit "length")).
  - apply saveAnnotationFields_requests.
  - rewrite applyAnnotationFields_requests.
    rewrite parseAnnotationFields_result. reflexivity.
Qed.

(** ** C7 *)

Lemma strict_eq_string_spec (v : js_value) (s : jsstring) :
  strict_eq_string v s = true <-> v = JString s.
Proof.
  destruct v; simpl; split; try discriminate; try congruence.
  - intros H. apply jseqb_eq in H. now subst.
  - intros H. injection H as ->. apply jseqb_refl.
Qed.

(** C7: in both response handlers the success branch is taken exactly when
    the response is the string "success".  Then the schema save hides the
    editor and disables the apply button, and the annotation save leaves
    the save button disabled without an alert; for every other response the
    schema save shows its warning and changes neither, and the annotation
    save raises one alert and leaves the save button enabled. *)
Theorem response_success_iff_literal (response : js_value) (pg : page) :
  (response = JString (lit "success")
   /\ editor_container_hidden (fields_success response pg) = true
   /\ apply_button_disabled (fields_success response pg) = true
   /\ input_warning_html (fields_success response pg) = input_warning_html pg
   /\ save_button_disabled (annotations_success response pg) = true
   /\ save_button_html (annotations_success response pg)
      = lit "<i class='fas fa-save'></i> Annotations saved"
   /\ alerts (annotations_success response pg) = alerts pg)
  \/
  (response <> JString (lit "success")
   /\ input_warning_html (fields_success response pg)
      = lit "Couldn't save annotation fields"
   /\ editor_container_hidden (fields_success response pg)
      = editor_container_hidden pg
   /\ apply_button_disabled (fields_success response pg)
      = apply_button_disabled pg
   /\ save_button_disabled (annotations_success response pg) = false
   /\ save_button_html (annotations_success response pg)
      = lit "<i class='fas fa-save'></i> Save annotations"
   /\ alerts (annotations_success response pg)
      = alerts pg ++ [lit "Could't save annotations"]).
Proof.
  unfold fields_success, annotations_success.
  destruct (strict_eq_string response (lit "success")) eqn:E.
  - left. apply strict_eq_string_spec in E. repeat split; trivial.
  - right. split.
    + intros H. apply strict_eq_string_spec in H. congruence.
    + unfold warnEditor.
      destruct (input_warning_hidden _); repeat split; reflexivity.
Qed.

(** ** C2 *)

Lemma fold_left_unchanged {A X} (f : A -> X -> A) (l : list X) (a : A) :
  (forall a x, f a x = a) -> fold_left f l a = a.
Proof.
  intros H. revert a. induction l as [|x l IH]; intros a; simpl; [reflexivity|].
  now rewrite H.
Qed.

(** Whatever is checked, a widget read as a checkbox widget gets the value
    undefined: the loop never looks at the boxes. *)
Lemma parseAnnotation_checkbox_undefined (w : widget) (a : annotation) :
  parseAnnotation w = Some a ->
  an_type a = lit "checkbox" ->
  an_value a = ValUndefined.
Proof.
  unfold parseAnnotation.
  destruct (nth_error (w_classes w) 1) as [c1|]; [|discriminate].
  destruct (nth_error (w_classes w) 2) as [c2|]; [|discriminate].
  destruct (nth_error (w_classes w) 3) as [c3|]; [|discriminate].
  intros H. injection H as <-. cbn [an_type an_value]. intros Ht. rewrite Ht.
  replace (jseqb (lit "checkbox") (lit "text")) with false by reflexivity.
  replace (jseqb (lit "checkbox") (lit "textarea")) with false by reflexivity.
  replace (jseqb (lit "checkbox") (lit "dropdown")) with false by reflexivity.
  replace (jseqb (lit "checkbox") (lit "checkbox")) with true by reflexivity.
  cbn [orb matches_checked].
  now rewrite fold_left_unchanged.
Qed.

(** C2 on the example of the specification: with options o1 = "A" and
    o2 = "B" and the box of o1 checked, [parseAnnotation] returns the value
    undefined, where the list of checked labels is ["A"].  With no box
    checked the value is undefined, as stated. *)
Theorem parseAnnotation_checked_box_lost :
  option_map an_value (parseAnnotation (checkbox_widget true false))
    = Some ValUndefined
  /\ checked_labels (checkbox_widget true false) = ValList [lit "A"]
  /\ option_map an_value (parseAnnotation (checkbox_widget false false))
     = Some ValUndefined
  /\ checked_labels (checkbox_widget false false) = ValUndefined.
Proof. vm_compute. repeat split. Qed.

(** ** C6 *)

Lemma run_cons (e : event) (evs : list event) (pg : page) :
  run (e :: evs) pg = run evs (handle e pg).
Proof. reflexivity. Qed.

Lemma parseAnnotation_extractable (w : widget) :
  extractable w = true <-> parseAnnotation w <> None.
Proof.
  unfold extractable, parseAnnotation.
  destruct (nth_error (w_classes w) 1), (nth_error (w_classes w) 2),
    (nth_error (w_classes w) 3); split; congruence.
Qed.

Lemma collect_extractable (ws : list widget) :
  forallb extractable ws = true <-> collect_annotations ws <> None.
Proof.
  induction ws as [|w ws IH]; simpl; [split; congruence|].
  rewrite andb_true_iff, parseAnnotation_extractable, IH.
  destruct (parseAnnotation w); [|split; [intros [H _] | intros H]; congruence].
  destruct (collect_annotations ws); split; try congruence; intuition congruence.
Qed.

Lemma map_at_forallb {A} (P : A -> bool) (f : A -> A) (i : nat) (l : list A) :
  (forall a, P (f a) = P a) -> forallb P (map_at i f l) = forallb P l.
Proof.
  intros H. revert i; induction l as [|a l IH]; intros [|i]; simpl;
    try reflexivity.
  - now rewrite H.
  - now rewrite IH.
Qed.

Lemma edit_widget_extractable (i j : nat) (c : control) (ps : list post) :
  forallb extractable (all_widgets (edit_widget i j c ps))
  = forallb extractable (all_widgets ps).
Proof.
  unfold edit_widget, all_widgets.
  revert i; induction ps as [|p ps IH]; intros [|i]; simpl; try reflexivity.
  - rewrite !forallb_app. f_equal. now apply map_at_forallb.
  - rewrite !forallb_app. f_equal. apply IH.
Qed.

Lemma saveAnnotations_sends (pg : page) :
  collect_annotations (all_widgets (posts pg)) <> None ->
  exists r,
    requests (saveAnnotations pg) = requests pg ++ [r]
    /\ save_button_disabled (saveAnnotations pg) = true.
Proof.
  intros H. unfold saveAnnotations.
  destruct (collect_annotations (all_widgets (posts pg))) as [anns|];
    [|contradiction].
  eexists. split; reflexivity.
Qed.

Lemma saveAnnotations_posts (pg : page) :
  posts (saveAnnotations pg) = posts pg
  /\ edits_made (saveAnnotations pg) = edits_made pg.
Proof.
  unfold saveAnnotations.
  destruct (collect_annotations (all_widgets (posts pg))); split; reflexivity.
Qed.

Lemma fire_disabled (t : trigger) (pg : page) :
  save_button_disabled pg = true -> fire t pg = pg.
Proof. intros H. unfold fire. rewrite H. now destruct t. Qed.

Lemma fire_enabled (t : trigger) (pg : page) :
  save_button_disabled pg = false ->
  (t = TimerTick -> edits_made pg = true) ->
  fire t pg = saveAnnotations pg.
Proof.
  intros H He. unfold fire. rewrite H.
  destruct t; try reflexivity. now rewrite He.
Qed.

Lemma fire_posts (t : trigger) (pg : page) :
  posts (fire t pg) = posts pg /\ edits_made (fire t pg) = edits_made pg.
Proof.
  destruct (saveAnnotations_posts pg) as [Hp He].
  unfold fire.
  destruct t, (save_button_disabled pg); simpl; auto.
  destruct (edits_made pg) eqn:E; auto.
Qed.

(** Between two triggers no request is sent, and the widgets stay
    extractable. *)
Lemma handle_other (e : event) (pg : page) :
  is_trigger e = false ->
  requests (handle e pg) = requests pg
  /\ forallb extractable (all_widgets (posts (handle e pg)))
     = forallb extractable (all_widgets (posts pg)).
Proof.
  destruct e as [t|i j c|r|]; simpl; try discriminate; intros _.
  - split; [reflexivity | apply edit_widget_extractable].
  - unfold annotations_success. now destruct (strict_eq_string r _).
  - split; reflexivity.
Qed.

Lemma run_other (evs : list event) :
  forall pg,
    forallb (fun e => negb (is_trigger e)) evs = true ->
    requests (run evs pg) = requests pg
    /\ forallb extractable (all_widgets (posts (run evs pg)))
       = forallb extractable (all_widgets (posts pg)).
Proof.
  induction evs as [|e evs IH]; intros pg H; [split; reflexivity|].
  simpl in H. apply andb_true_iff in H as [He Hevs].
  rewrite run_cons. destruct (IH (handle e pg) Hevs) as [Hr Hx].
  destruct (handle_other e pg) as [Hr' Hx']; [now destruct (is_trigger e)|].
  split; congruence.
Qed.

(** C6, as the handlers have it.  A first trigger that passes its guard and
    saves sends one request and sets the disabled class.  Whatever happens
    before the next trigger (edits, the response), that trigger sends
    nothing while the class is set, so one request was sent in all; once
    the class is cleared, a click sends the second request, and a timer
    tick does so when [edits_made] is set and sends nothing otherwise. *)
Theorem save_guarded_by_disabled_class
    (pg : page) (t1 t2 : trigger) (between : list event) :
  save_button_disabled pg = false ->
  (t1 = TimerTick -> edits_made pg = true) ->
  collect_annotations (all_widgets (posts pg)) <> None ->
  forallb (fun e => negb (is_trigger e)) between = true ->
  let pg1 := run (Trigger t1 :: between) pg in
  save_button_disabled (fire t1 pg) = true
  /\ List.length (requests pg1) = S (List.length (requests pg))
  /\ (save_button_disabled pg1 = true ->
      List.length (requests (fire t2 pg1)) = S (List.length (requests pg)))
  /\ (save_button_disabled pg1 = false ->
      (t2 = TimerTick -> edits_made pg1 = true) ->
      List.length (requests (fire t2 pg1)) = S (S (List.length (requests pg))))
  /\ (t2 = TimerTick -> edits_made pg1 = false ->
      requests (fire t2 pg1) = requests pg1).
Proof.
  intros Hen Ht1 Hcol Hbetween pg1.
  destruct (saveAnnotations_sends pg Hcol) as (r & Hreq & Hdis).
  assert (Hfire : fire t1 pg = saveAnnotations pg) by now apply fire_enabled.
  destruct (run_other between (fire t1 pg) Hbetween) as [Hr Hx].
  assert (Hlen : List.length (requests pg1) = S (List.length (requests pg))).
  { unfold pg1. rewrite run_cons. cbn [handle].
    rewrite Hr, Hfire, Hreq, length_app. simpl. lia. }
  assert (Hcol1 : collect_annotations (all_widgets (posts pg1)) <> None).
  { apply collect_extractable. unfold pg1. rewrite run_cons. cbn [handle].
    rewrite Hx. destruct (fire_posts t1 pg) as [-> _].
    now apply collect_extractable. }
  split; [now rewrite Hfire|]. split; [exact Hlen|]. split; [|split].
  - intros Hd. now rewrite fire_disabled.
  - intros Hd Ht2.
    rewrite fire_enabled by assumption.
    destruct (saveAnnotations_sends pg1 Hcol1) as (r2 & Hreq2 & _).
    rewrite Hreq2, length_app, Hlen. simpl. lia.
  - intros -> He. unfold fire. rewrite He. now rewrite andb_false_r.
Qed.

Lemma save_guarded_by_disabled_class_witness :
  let pg1 := run [Trigger PaginationClick; SaveResponse (JString (lit "no"))] blank_page in
  List.length (requests pg1) = 1
  /\ List.length (requests (fire ManualClick pg1)) = 2.
Proof.
  destruct (save_guarded_by_disabled_class blank_page PaginationClick ManualClick
              [SaveResponse (JString (lit "no"))]) as (_ & H1 & _ & H2 & _).
  - reflexivity.
  - discriminate.
  - discriminate.
  - reflexivity.
  - split; [exact H1|]. apply H2.
    + reflexivity.
    + discriminate.
Defined.

(** C6 as stated fails for the timer: after a click has saved and a failed
    response has cleared the disabled class, a timer tick sends no second
    request when no widget was edited. *)
Lemma timer_after_cleared_counterexample :
  let pg1 := fire ManualClick blank_page in
  let pg2 := annotations_success (JString (lit "error")) pg1 in
  List.length (requests pg1) = 1
  /\ save_button_disabled pg1 = true
  /\ save_button_disabled pg2 = false
  /\ requests (fire TimerTick pg2) = requests pg1.
Proof. vm_compute. repeat split. Qed.

(** ** C8 *)

Lemma empty_inputs_app (g1 g2 : list option_field) :
  empty_inputs (g1 ++ g2) = empty_inputs g1 + empty_inputs g2.
Proof. unfold empty_inputs. now rewrite filter_app, length_app. Qed.

Lemma empty_inputs_set_delete (b : bool) (g : list option_field) :
  empty_inputs (map (set_opt_delete b) g) = empty_inputs g.
Proof.
  unfold empty_inputs. induction g as [|o g IH]; simpl; [reflexivity|].
  destruct (nonempty (opt_value o)); simpl; now rewrite IH.
Qed.

Lemma empty_inputs_append_delete (g : list option_field) :
  empty_inputs (append_delete_controls g) = empty_inputs g.
Proof.
  unfold empty_inputs. induction g as [|o g IH]; [reflexivity|].
  destruct g as [|o' g]; [reflexivity|].
  change (append_delete_controls (o :: o' :: g))
    with (set_opt_delete true o :: append_delete_controls (o' :: g)).
  cbn [filter set_opt_delete opt_value].
  destruct (nonempty (opt_value o)); cbn [negb List.length]; now rewrite IH.
Qed.

Lemma leading_le_empty (g : list option_field) : leading_empty g <= empty_inputs g.
Proof.
  unfold empty_inputs. induction g as [|o g IH]; simpl; [lia|].
  destruct (nonempty (opt_value o)); simpl; lia.
Qed.

Lemma trailing_le_empty (g : list option_field) : trailing_empty g <= empty_inputs g.
Proof.
  unfold trailing_empty.
  assert (E : empty_inputs (rev g) = empty_inputs g).
  { induction g as [|o g IH]; [reflexivity|].
    simpl. rewrite empty_inputs_app, IH.
    change (o :: g) with ([o] ++ g). rewrite empty_inputs_app. lia. }
  pose proof (leading_le_empty (rev g)) as H. lia.
Qed.

Lemma nth_error_split_at {A} (l : list A) (i : nat) (x : A) :
  nth_error l i = Some x ->
  l = firstn i l ++ x :: skipn (S i) l /\ remove_at i l = firstn i l ++ skipn (S i) l.
Proof.
  revert i; induction l as [|a l IH]; intros [|i] H; simpl in *; try discriminate.
  - injection H as ->. auto.
  - destruct (IH i H) as [E1 E2]. rewrite <- E1, E2. auto.
Qed.

Lemma empty_inputs_remove_at (g : list option_field) (i : nat) :
  empty_inputs (remove_at i g) <= empty_inputs g.
Proof.
  destruct (nth_error g i) as [o|] eqn:E.
  - destruct (nth_error_split_at g i o E) as [E1 E2].
    rewrite E2. rewrite E1 at 3. rewrite !empty_inputs_app.
    change (o :: skipn (S i) g) with ([o] ++ skipn (S i) g).
    rewrite empty_inputs_app. lia.
  - assert (remove_at i g = g) as ->; [|lia].
    revert i E. induction g as [|a g IH]; intros [|i] E; simpl in *;
      try discriminate; try reflexivity.
    now rewrite IH.
Qed.

Lemma empty_inputs_insert_after (g : list option_field) (i : nat) (x : option_field) :
  empty_inputs (insert_after i x g) <= S (empty_inputs g).
Proof.
  unfold empty_inputs.
  revert i; induction g as [|a g IH]; intros [|i]; simpl; try lia.
  - destruct (negb (nonempty (opt_value a))), (negb (nonempty (opt_value x)));
      simpl; lia.
  - specialize (IH i). destruct (negb (nonempty (opt_value a))); simpl; lia.
Qed.

Lemma all_nonempty_no_empty (g : list option_field) :
  forallb (fun o => nonempty (opt_value o)) g = true -> empty_inputs g = 0.
Proof.
  unfold empty_inputs. induction g as [|o g IH]; simpl; [reflexivity|].
  intros H. apply andb_true_iff in H as [Ho Hg]. rewrite Ho. simpl. auto.
Qed.

Lemma length_append_delete (g : list option_field) :
  List.length (append_delete_controls g) = List.length g.
Proof.
  induction g as [|o g IH]; [reflexivity|].
  destruct g as [|o' g]; [reflexivity|].
  change (append_delete_controls (o :: o' :: g))
    with (set_opt_delete true o :: append_delete_controls (o' :: g)).
  simpl in *. now rewrite IH.
Qed.

(** After [addOptions] a group of one field shows no delete control, and
    no empty input was added unless none was left. *)
Lemma addOptions_ok (new_id : jsstring) (i : nat) (g : list option_field) :
  empty_inputs g <= 1 ->
  (List.length g = 1 -> forall o, In o g -> opt_delete o = false) ->
  empty_inputs (addOptions new_id i g) <= 1
  /\ (List.length (addOptions new_id i g) = 1 ->
      forall o, In o (addOptions new_id i g) -> opt_delete o = false).
Proof.
  intros He Hd. unfold addOptions.
  destruct (nth_error g i) as [el|] eqn:E; [|auto].
  split.
  - rewrite empty_inputs_append_delete, empty_inputs_set_delete.
    destruct (nonempty (opt_value el) && _) eqn:Hno; [|assumption].
    apply andb_true_iff in Hno as [Hel Hsib].
    destruct (nth_error_split_at g i el E) as [E1 E2].
    assert (Hz : empty_inputs g = 0).
    { rewrite E1. rewrite E2 in Hsib. rewrite forallb_app in Hsib.
      apply andb_true_iff in Hsib as [H1 H2].
      change (el :: skipn (S i) g) with ([el] ++ skipn (S i) g).
      rewrite !empty_inputs_app.
      rewrite (all_nonempty_no_empty _ H1), (all_nonempty_no_empty _ H2).
      unfold empty_inputs. simpl. now rewrite Hel. }
    pose proof (empty_inputs_insert_after g i (getInputField new_id)). lia.
  - match goal with |- context [map _ ?l] => generalize l end.
    intros g'. rewrite length_append_delete, length_map.
    intros Hlen o Ho.
    destruct g' as [|x [|y g'']]; simpl in Hlen; try discriminate.
    simpl in Ho. destruct Ho as [<-|[]]. reflexivity.
Qed.

Lemma deleteOption_ok (i : nat) (g : list option_field) :
  empty_inputs g <= 1 ->
  (List.length g = 1 -> forall o, In o g -> opt_delete o = false) ->
  empty_inputs (deleteOption i g) <= 1
  /\ (List.length (deleteOption i g) = 1 ->
      forall o, In o (deleteOption i g) -> opt_delete o = false).
Proof.
  intros He Hd. unfold deleteOption.
  destruct (nth_error g i) as [el|]; [|auto].
  destruct (opt_delete el); [|auto].
  pose proof (empty_inputs_remove_at g i) as Hr.
  destruct (Nat.eqb (List.length (remove_at i g)) 1) eqn:Hl.
  - split.
    + rewrite empty_inputs_set_delete. lia.
    + intros _ o Ho. apply in_map_iff in Ho as (o' & <- & _). reflexivity.
  - split; [lia|]. intros Hlen. apply Nat.eqb_neq in Hl. contradiction.
Qed.

Lemma group_ok_intro (g : list option_field) :
  empty_inputs g <= 1 ->
  (List.length g = 1 -> forall o, In o g -> opt_delete o = false) ->
  group_ok g.
Proof.
  intros He Hd. split; [assumption|]. split; [|assumption].
  pose proof (trailing_le_empty g). lia.
Qed.

Lemma group_step_ok (g : list option_field) (op : group_op) :
  group_ok g -> calls_handler op -> group_ok (group_step g op).
Proof.
  intros (He & _ & Hd) Hop. destruct op as [new_id i v | i]; simpl.
  - simpl in Hop. unfold option_keyup.
    destruct (nth_error g i) as [o|] eqn:E.
    + destruct (nth_error_split_at g i o E) as [E1 _].
      set (g' := firstn i g ++ set_opt_value v o :: skipn (S i) g).
      assert (Hnth : nth_error g' i = Some (set_opt_value v o)).
      { unfold g'. rewrite nth_error_app2; rewrite firstn_length_le;
          try (apply Nat.lt_le_incl, nth_error_Some; congruence);
          try lia.
        now rewrite Nat.sub_diag. }
      rewrite Hnth.
      assert (Hv : nonempty v = true) by (destruct v; [contradiction | reflexivity]).
      rewrite Hv.
      assert (He' : empty_inputs g' <= 1).
      { unfold g'. rewrite E1 in He.
        change (o :: skipn (S i) g) with ([o] ++ skipn (S i) g) in He.
        change (set_opt_value v o :: skipn (S i) g)
          with ([set_opt_value v o] ++ skipn (S i) g).
        rewrite !empty_inputs_app in *.
        assert (empty_inputs [set_opt_value v o] = 0)
          by (unfold empty_inputs; simpl; now rewrite Hv).
        lia. }
      assert (Hd' : List.length g' = 1 -> forall x, In x g' -> opt_delete x = false).
      { intros Hlen x Hx.
        assert (Hg : List.length g = 1).
        { rewrite E1. unfold g' in Hlen. rewrite length_app in *. simpl in *. lia. }
        destruct g as [|a [|b g]]; simpl in Hg; try discriminate.
        destruct i; simpl in E; [|destruct i; discriminate].
        injection E as ->. unfold g' in Hx. simpl in Hx.
        destruct Hx as [<-|[]]. simpl. apply Hd; [reflexivity | now left]. }
      destruct (addOptions_ok new_id i g' He' Hd') as [H1 H2].
      now apply group_ok_intro.
    + rewrite E. now apply group_ok_intro.
  - destruct (deleteOption_ok i g He Hd) as [H1 H2].
    now apply group_ok_intro.
Qed.

Lemma fresh_group_ok (new_id : jsstring) (t : field_type) :
  group_ok (toggleField new_id t []).
Proof.
  destruct t; simpl; apply group_ok_intro; simpl;
    try (unfold empty_inputs; simpl; lia); try discriminate.
  - intros _ o [<-|[]]. reflexivity.
  - intros _ o [<-|[]]. reflexivity.
Qed.

(** C8, as the handlers have it: along any sequence of [addOptions] and
    [deleteOption] calls on an option group in which every key-up leaves a
    value that is not empty (the key handler then calls [addOptions] for
    the value just typed), at most one option input is empty, hence at
    most one trailing input is empty, and a group of exactly one option
    input shows no delete control.  The group starts in a state of that
    kind, such as the fresh group [toggleField] creates. *)
Theorem option_group_invariant (g0 : list option_field) (ops : list group_op) :
  group_ok g0 ->
  Forall calls_handler ops ->
  group_ok (fold_left group_step ops g0).
Proof.
  intros H0 Hops. revert g0 H0.
  induction Hops as [|op ops Hop _ IH]; intros g0 H0; simpl; [assumption|].
  apply IH. now apply group_step_ok.
Qed.

Lemma option_group_invariant_witness :
  group_ok
    (fold_left group_step
       [KeyUp (lit "2") 0 (lit "red"); KeyUp (lit "3") 1 (lit "blue");
        DeleteClick 0; KeyUp (lit "4") 0 (lit "green"); DeleteClick 0]
       (toggleField (lit "1") dropdown [])).
Proof.
  apply option_group_invariant.
  - apply fresh_group_ok.
  - repeat constructor; discriminate.
Defined.

(** C8 as stated fails: the invariant does not hold after every call of
    [addOptions] or [deleteOption].  After "red" and "blue" were typed the
    user clears the second input; the key handler calls nothing for an
    empty value, and the group ends with two empty inputs.  A key-up in
    the first input then calls [addOptions], which finds an empty input
    and adds none, and a click on the delete control of the first field
    calls [deleteOption]: right after either call the group still ends
    with two empty inputs. *)
Lemma two_trailing_empty_after_call_counterexample :
  let g :=
    fold_left group_step
      [KeyUp (lit "2") 0 (lit "red"); KeyUp (lit "3") 1 (lit "blue");
       KeyUp (lit "4") 1 []]
      (toggleField (lit "1") dropdown []) in
  map opt_value g = [lit "red"; []; []]
  /\ calls_handler (KeyUp (lit "5") 0 (lit "redx"))
  /\ map opt_value (group_step g (KeyUp (lit "5") 0 (lit "redx")))
     = [lit "redx"; []; []]
  /\ trailing_empty (group_step g (KeyUp (lit "5") 0 (lit "redx"))) = 2
  /\ trailing_empty (addOptions (lit "5") 0 g) = 2
  /\ trailing_empty (deleteOption 0 g) = 2.
Proof.
  cbv zeta. repeat split; try reflexivity. discriminate.
Qed.

(** ** C3 *)

(** C3 on widgets in the class convention [parseAnnotation] reads: the
    schema is valid and turns field f1 from text into textarea, the widgets
    hold "hello" and "world", and after [applyAnnotationFields] the widgets
    of the field are new, empty textareas.  The old type is read from the
    last class token, here "item-id-42", so the branch that carries the
    text over is not taken. *)
Theorem apply_text_to_textarea_loses_rendered_values (B : browser) :
  fst (parseAnnotationFields page_rendered_widgets)
    = Schema [(lit "f1", {| fd_type := textarea; fd_label := lit "Notes";
                            fd_options := None |})]
  /\ field_values (lit "field-f1") (posts page_rendered_widgets)
     = [[Some (lit "hello")]; [Some (lit "world")]]
  /\ map (fun p => map w_control (post_annotations p))
         (posts (applyAnnotationFields B page_rendered_widgets))
     = [[TextArea false []]; [TextArea false []]].
Proof. vm_compute. repeat split. Qed.

(** On widgets as the script builds them the text is handed on, through
    the markup of the new textarea. *)
Lemma apply_text_to_textarea_built_widgets (B : browser) :
  map (fun p => map w_control (post_annotations p))
      (posts (applyAnnotationFields B page_built_widgets))
  = [[TextArea false (markup_text B (lit "hello"))];
     [TextArea false (markup_text B (lit "world"))]].
Proof. vm_compute. reflexivity. Qed.

(** ** Schema objects and their enumeration *)

Lemma obj_set_keys {V} (o : obj V) (k : jsstring) (v : V) :
  forall x, In x (map fst (obj_set o k v)) <-> x = k \/ In x (map fst o).
Proof.
  induction o as [|[k' v'] o IH]; intros x; simpl.
  - intuition.
  - destruct (jseqb k k') eqn:E; simpl.
    + apply jseqb_eq in E. subst. intuition.
    + rewrite IH. intuition.
Qed.

Lemma obj_set_nodup {V} (o : obj V) (k : jsstring) (v : V) :
  NoDup (map fst o) -> NoDup (map fst (obj_set o k v)).
Proof.
  induction o as [|[k' v'] o IH]; simpl; intros H.
  - constructor; [intros [] | constructor].
  - inversion H as [|? ? Hn Hd]; subst.
    destruct (jseqb k k') eqn:E; simpl; [exact H|].
    constructor; [|now apply IH].
    rewrite obj_set_keys. intros [->|Hin]; [|contradiction].
    rewrite jseqb_refl in E. discriminate.
Qed.

Lemma obj_get_set_same {V} (o : obj V) (k : jsstring) (v : V) :
  obj_get (obj_set o k v) k = Some v.
Proof.
  induction o as [|[k' v'] o IH]; simpl.
  - now rewrite jseqb_refl.
  - destruct (jseqb k k') eqn:E; simpl; rewrite E; [reflexivity | exact IH].
Qed.

Lemma obj_get_set_other {V} (o : obj V) (k x : jsstring) (v : V) :
  x <> k -> obj_get (obj_set o k v) x = obj_get o x.
Proof.
  intros Hne. induction o as [|[k' v'] o IH]; simpl.
  - apply jseqb_neq in Hne. now rewrite Hne.
  - destruct (jseqb k k') eqn:E; simpl.
    + apply jseqb_eq in E. subst k'.
      apply jseqb_neq in Hne. now rewrite Hne.
    + now rewrite IH.
Qed.

Lemma obj_get_In {V} (o : obj V) (k : jsstring) (v : V) :
  NoDup (map fst o) -> (obj_get o k = Some v <-> In (k, v) o).
Proof.
  induction o as [|[k' v'] o IH]; simpl; intros H.
  - split; [discriminate | intros []].
  - inversion H as [|? ? Hn Hd]; subst.
    destruct (jseqb k k') eqn:E.
    + apply jseqb_eq in E. subst k'. split.
      * intros [= ->]. now left.
      * intros [[= ->]|Hin]; [reflexivity|].
        exfalso. apply Hn. now apply (in_map fst) in Hin.
    + rewrite (IH Hd). split; [now right|].
      intros [[= -> ->]|Hin]; [|assumption].
      rewrite jseqb_refl in E. discriminate.
Qed.

Lemma obj_get_None {V} (o : obj V) (k : jsstring) :
  obj_get o k = None <-> ~ In k (map fst o).
Proof.
  induction o as [|[k' v'] o IH]; simpl.
  - intuition.
  - destruct (jseqb k k') eqn:E.
    + apply jseqb_eq in E. subst. split; [discriminate | intuition].
    + rewrite IH. apply jseqb_neq in E. intuition.
Qed.

Lemma insert_by_index_perm {V} (n : N) (e : jsstring * V)
    (l : list (N * (jsstring * V))) :
  Permutation (map snd (insert_by_index n e l)) (e :: map snd l).
Proof.
  induction l as [|[m e'] l IH]; simpl; [reflexivity|].
  destruct (N.ltb n m); simpl; [reflexivity|].
  rewrite IH. apply perm_swap.
Qed.

(** [for (k in o)] visits every property once. *)
Lemma for_in_perm {V} (o : obj V) : Permutation (for_in o) o.
Proof.
  unfold for_in.
  assert (H : forall acc,
             Permutation
               (map snd
                  (fold_left
                     (fun acc e =>
                        match array_index (fst e) with
                        | Some n => insert_by_index n e acc
                        | None => acc
                        end) o acc)
                ++ filter (fun e => match array_index (fst e) with
                                    | Some _ => false
                                    | None => true
                                    end) o)
               (map snd acc ++ o)).
  { induction o as [|e o IH]; intros acc; simpl.
    - reflexivity.
    - destruct (array_index (fst e)) as [n|].
      + rewrite IH, insert_by_index_perm. simpl.
        apply Permutation_middle.
      + rewrite <- Permutation_middle. rewrite IH.
        apply Permutation_middle. }
  apply (H []).
Qed.

Lemma each_invariant {S A} (P : S -> Prop) (body : S -> A -> S * A) :
  (forall s a, P s -> P (fst (body s a))) ->
  forall l s, P s -> P (fst (each body s l)).
Proof.
  intros Hbody. induction l as [|a l IH]; intros s Hs; [exact Hs|].
  rewrite each_cons_fst. apply IH. now apply Hbody.
Qed.

Lemma parse_field_keys cols (st : parse_state) (f : editor_field) :
  NoDup (map fst (ps_annotation_fields st)) ->
  NoDup (map fst (ps_annotation_fields (fst (parse_field cols st f)))).
Proof.
  intros H. unfold parse_field.
  destruct (if negb (nonempty (replace_ws_runs (label_value f))) then _ else _)
    as [w inv].
  destruct (field_type_val f); cbn [fst ps_annotation_fields];
    try (now apply obj_set_nodup);
    destruct (each parse_option _ (option_fields f)) as [os opts];
    cbn [fst ps_annotation_fields];
    destruct (os_options os); [assumption | now apply obj_set_nodup
                              | assumption | now apply obj_set_nodup].
Qed.

(** The schema object has one entry per key. *)
Lemma parseAnnotationFields_keys (pg : page) (fields : schema) :
  fst (parseAnnotationFields pg) = Schema fields -> NoDup (map fst fields).
Proof.
  rewrite parseAnnotationFields_result. unfold parse_editor.
  pose proof (each_invariant
                (fun st => NoDup (map fst (ps_annotation_fields st)))
                (parse_field (original_columns pg))
                (parse_field_keys (original_columns pg))
                (map clear_label_invalid (editor_rows pg))
                {| ps_annotation_fields := []; ps_warning := [];
                   ps_labels_added := [] |}) as H.
  destruct (each (parse_field (original_columns pg)) _ _) as [st rows'].
  cbn [fst] in *. destruct (nonempty (ps_warning st)); [discriminate|].
  intros [= <-]. apply H. constructor.
Qed.

(** ** Class tokens of widgets in the layout *)

Lemma field_class_eqb (g k : jsstring) :
  jseqb (field_class g) (field_class k) = jseqb g k.
Proof. reflexivity. Qed.

Lemma field_class_not_panel (g : jsstring) :
  jseqb (field_class g) (lit "post-annotation") = false.
Proof. reflexivity. Qed.

Lemma field_class_not_type (g : jsstring) (t : field_type) :
  jseqb (field_class g) (type_name t) = false.
Proof. destruct t; reflexivity. Qed.

Lemma is_field_class_field (g : jsstring) : is_field_class (field_class g) = true.
Proof. reflexivity. Qed.

Lemma is_field_class_type (t : field_type) : is_field_class (type_name t) = false.
Proof. destruct t; reflexivity. Qed.

Lemma other_tokens_no_field (rest : list jsstring) (g : jsstring) :
  other_tokens rest = true -> includes rest (field_class g) = false.
Proof.
  unfold other_tokens, includes.
  induction rest as [|t rest IH]; cbn [forallb existsb]; [reflexivity|].
  intros H. apply andb_true_iff in H as [Ht Hrest]. rewrite (IH Hrest).
  destruct (jseqb (field_class g) t) eqn:E; [|reflexivity].
  apply jseqb_eq in E. subst t. rewrite is_field_class_field in Ht. discriminate.
Qed.

(** A widget in the layout belongs to the class of exactly one field. *)
Lemma in_class_field (g k : jsstring) (rest : list jsstring) (w : widget) :
  w_classes w = lit "post-annotation" :: field_class k :: rest ->
  other_tokens rest = true ->
  in_class (field_class g) w = jseqb g k.
Proof.
  intros H Hrest. unfold in_class, has_class. rewrite H.
  change (includes (?a :: ?b :: ?l) ?x)
    with (jseqb x a || (jseqb x b || includes l x)).
  now rewrite field_class_not_panel, field_class_eqb, other_tokens_no_field, orb_false_r.
Qed.

Lemma in_class_disjoint (g k : jsstring) (w : widget) :
  field_layout w -> g <> k ->
  in_class (field_class g) w = true -> in_class (field_class k) w = false.
Proof.
  intros (kw & rest & Hw & Hr) Hne. rewrite !(in_class_field _ kw rest w Hw Hr).
  intros E. apply jseqb_eq in E. subst kw. now apply jseqb_neq.
Qed.

(** ** Selections *)

Lemma widgets_of_map_selected_other (c c' : jsstring)
    (f : post -> widget -> widget) (ps : list post) :
  (forall p w, In w (all_widgets ps) -> in_class c' w = true ->
               in_class c w = false /\ in_class c (f p w) = false) ->
  widgets_of c (map_selected c' f ps) = widgets_of c ps.
Proof.
  unfold widgets_of, map_selected, all_widgets.
  induction ps as [|p ps IH]; intros H; simpl; [reflexivity|].
  f_equal.
  - assert (Hp : forall w, In w (post_annotations p) -> in_class c' w = true ->
                           in_class c w = false /\ in_class c (f p w) = false).
    { intros w Hw. apply H. simpl. apply in_or_app. now left. }
    clear IH H. induction (post_annotations p) as [|w ws IHw]; simpl; [reflexivity|].
    rewrite IHw by (intros; apply Hp; [now right | assumption]).
    destruct (in_class c' w) eqn:E; [|reflexivity].
    destruct (Hp w (or_introl eq_refl) E) as [-> ->]. reflexivity.
  - apply IH. intros p' w Hw. apply H. simpl. apply in_or_app. now right.
Qed.

Lemma widgets_of_remove_selected_other (c c' : jsstring) (ps : list post) :
  (forall w, In w (all_widgets ps) -> in_class c' w = true -> in_class c w = false) ->
  widgets_of c (remove_selected c' ps) = widgets_of c ps.
Proof.
  unfold widgets_of, remove_selected, all_widgets.
  induction ps as [|p ps IH]; intros H; simpl; [reflexivity|].
  f_equal.
  - assert (Hp : forall w, In w (post_annotations p) -> in_class c' w = true ->
                           in_class c w = false).
    { intros w Hw. apply H. simpl. apply in_or_app. now left. }
    clear IH H. induction (post_annotations p) as [|w ws IHw]; simpl; [reflexivity|].
    destruct (in_class c' w) eqn:E; simpl.
    + rewrite (Hp w (or_introl eq_refl) E).
      apply IHw. intros; apply Hp; [now right | assumption].
    + rewrite IHw by (intros; apply Hp; [now right | assumption]). reflexivity.
  - apply IH. intros w Hw. apply H. simpl. apply in_or_app. now right.
Qed.

Lemma widgets_of_map_selected_same (c : jsstring) (f : widget -> widget)
    (ps : list post) :
  (forall w, In w (all_widgets ps) -> in_class c w = true -> in_class c (f w) = true) ->
  widgets_of c (map_selected c (fun _ => f) ps) = map (map f) (widgets_of c ps).
Proof.
  unfold widgets_of, map_selected, all_widgets.
  induction ps as [|p ps IH]; intros H; simpl; [reflexivity|].
  f_equal.
  - assert (Hp : forall w, In w (post_annotations p) -> in_class c w = true ->
                           in_class c (f w) = true).
    { intros w Hw. apply H. simpl. apply in_or_app. now left. }
    clear IH H. induction (post_annotations p) as [|w ws IHw]; simpl; [reflexivity|].
    destruct (in_class c w) eqn:E.
    + rewrite (Hp w (or_introl eq_refl) E). simpl. f_equal.
      apply IHw. intros; apply Hp; [now right | assumption].
    + rewrite E. apply IHw. intros; apply Hp; [now right | assumption].
  - apply IH. intros w Hw. apply H. simpl. apply in_or_app. now right.
Qed.


Lemma select_widgets_concat (c : jsstring) (ps : list post) :
  select_widgets c ps = List.concat (widgets_of c ps).
Proof.
  unfold select_widgets, widgets_of, all_widgets.
  induction ps as [|p ps IH]; simpl; [reflexivity|].
  now rewrite filter_app, IH.
Qed.

Lemma all_widgets_map_selected (P : widget -> Prop) (c : jsstring)
    (f : post -> widget -> widget) (ps : list post) :
  (forall p w, P w -> P (f p w)) ->
  Forall P (all_widgets ps) -> Forall P (all_widgets (map_selected c f ps)).
Proof.
  intros Hf. unfold all_widgets, map_selected.
  induction ps as [|p ps IH]; simpl; intros H; [constructor|].
  apply Forall_app in H as [Hp Hps]. apply Forall_app. split; [|now apply IH].
  clear IH Hps. induction Hp as [|w ws Hw _ IHw]; simpl; constructor; trivial.
  destruct (in_class c w); auto.
Qed.

Lemma all_widgets_remove_selected (P : widget -> Prop) (c : jsstring) (ps : list post) :
  Forall P (all_widgets ps) -> Forall P (all_widgets (remove_selected c ps)).
Proof.
  unfold all_widgets, remove_selected.
  induction ps as [|p ps IH]; simpl; intros H; [constructor|].
  apply Forall_app in H as [Hp Hps]. apply Forall_app. split; [|now apply IH].
  clear IH Hps. induction Hp as [|w ws Hw _ IHw]; simpl; [constructor|].
  destruct (in_class c w); simpl; [assumption | now constructor].
Qed.

(** ** Changes confined to the widgets of one field *)

Lemma touches_refl (g : jsstring) (ps : list post) : touches_only g ps ps.
Proof. intros H. auto. Qed.

Lemma touches_trans (g : jsstring) (a b c : list post) :
  touches_only g a b -> touches_only g b c -> touches_only g a c.
Proof.
  intros Hab Hbc Ha.
  destruct (Hab Ha) as (Hb & Hl & Hw). destruct (Hbc Hb) as (Hc & Hl' & Hw').
  split; [assumption|]. split; [congruence|].
  intros k Hk. rewrite Hw', Hw; auto.
Qed.

Lemma map_selected_li_id (c : jsstring) (f : post -> widget -> widget)
    (ps : list post) :
  map li_id (map_selected c f ps) = map li_id ps.
Proof. unfold map_selected. rewrite map_map. reflexivity. Qed.

Lemma remove_selected_li_id (c : jsstring) (ps : list post) :
  map li_id (remove_selected c ps) = map li_id ps.
Proof. unfold remove_selected. rewrite map_map. reflexivity. Qed.

Lemma keeps_field_layout (f : widget -> widget) (w : widget) :
  keeps_field f -> field_layout w -> field_layout (f w).
Proof.
  intros Hf (k & rest & Hw & Hr).
  destruct (Hf w k rest Hw Hr) as (rest' & H & Hr'). now exists k, rest'.
Qed.

Lemma keeps_field_class (f : widget -> widget) (w : widget) (c : jsstring) :
  keeps_field f -> field_layout w ->
  in_class (field_class c) (f w) = in_class (field_class c) w.
Proof.
  intros Hf (k & rest & Hw & Hr). destruct (Hf w k rest Hw Hr) as (rest' & H & Hr').
  now rewrite (in_class_field c k rest' _ H Hr'), (in_class_field c k rest _ Hw Hr).
Qed.

Lemma touches_map_selected (g : jsstring) (f : post -> widget -> widget)
    (ps : list post) :
  (forall p, keeps_field (f p)) ->
  touches_only g ps (map_selected (field_class g) f ps).
Proof.
  intros Hf Hps. split; [|split].
  - apply all_widgets_map_selected; [|assumption].
    intros p w. now apply keeps_field_layout.
  - apply map_selected_li_id.
  - intros k Hk. apply widgets_of_map_selected_other.
    intros p w Hw Hin.
    unfold field_page in Hps. rewrite Forall_forall in Hps.
    assert (Hc : in_class (field_class k) w = false).
    { apply (in_class_disjoint g k w); auto. }
    split; [assumption|]. rewrite keeps_field_class; auto.
Qed.

Lemma touches_remove_selected (g : jsstring) (ps : list post) :
  touches_only g ps (remove_selected (field_class g) ps).
Proof.
  intros Hps. split; [|split].
  - now apply all_widgets_remove_selected.
  - apply remove_selected_li_id.
  - intros k Hk. apply widgets_of_remove_selected_other.
    intros w Hw Hin. unfold field_page in Hps. rewrite Forall_forall in Hps.
    apply (in_class_disjoint g k w); auto.
Qed.

Lemma keeps_field_label (l : jsstring) : keeps_field (set_w_label l).
Proof. intros w k rest H Hr. now exists rest. Qed.

Lemma keeps_field_options (h : list option_el -> list option_el) :
  keeps_field (on_options h).
Proof. intros w k rest H Hr. now exists rest. Qed.

Lemma removeClass_layout (k : jsstring) (rest : list jsstring) (a : field_type) :
  other_tokens rest = true ->
  removeClass (type_name a) (lit "post-annotation" :: field_class k :: rest)
  = lit "post-annotation" :: field_class k :: removeClass (type_name a) rest
  /\ other_tokens (removeClass (type_name a) rest) = true.
Proof.
  intros Hr. split.
  - unfold removeClass. cbn [filter].
    replace (jseqb (lit "post-annotation") (type_name a)) with false
      by (destruct a; reflexivity).
    now rewrite field_class_not_type.
  - unfold other_tokens, removeClass in *.
    induction rest as [|t rest IH]; cbn [filter forallb] in *; [reflexivity|].
    apply andb_true_iff in Hr as [Ht Hrest].
    destruct (negb (jseqb t (type_name a))); cbn [forallb]; [rewrite Ht|]; auto.
Qed.

Lemma addClass_layout (k : jsstring) (rest : list jsstring) (a : field_type) :
  other_tokens rest = true ->
  exists rest',
    addClass (type_name a) (lit "post-annotation" :: field_class k :: rest)
    = lit "post-annotation" :: field_class k :: rest'
    /\ other_tokens rest' = true.
Proof.
  intros Hr. unfold addClass. destruct (has_class _ _).
  - now exists rest.
  - exists (rest ++ [type_name a]). split; [reflexivity|].
    unfold other_tokens in *. rewrite forallb_app, Hr. cbn [forallb].
    now rewrite is_field_class_type.
Qed.

Section ApplyLayout.

Variable B : browser.

Lemma keeps_field_convert (input_type : field_type) (old : jsstring) :
  keeps_field (convert_text_control B input_type old).
Proof.
  assert (Hswap : forall k rest a b,
             other_tokens rest = true ->
             exists rest',
               addClass (type_name a)
                 (removeClass (type_name b)
                    (lit "post-annotation" :: field_class k :: rest))
               = lit "post-annotation" :: field_class k :: rest'
               /\ other_tokens rest' = true).
  { intros k rest a b Hr.
    destruct (removeClass_layout k rest b Hr) as [-> Hr'].
    now apply addClass_layout. }
  intros w k rest H Hr. unfold convert_text_control.
  destruct (w_control w); try (now exists rest);
    (destruct (field_type_eqb input_type text && _);
     [cbn [w_classes]; rewrite H; apply (Hswap k rest text textarea Hr)|];
     destruct (field_type_eqb input_type textarea && _); [|now exists rest];
     cbn [w_classes]; rewrite H; apply (Hswap k rest textarea text Hr)).
Qed.

Lemma touches_sync_options (g : jsstring) (opts : list (jsstring * jsstring)) :
  forall st,
    touches_only g (fst st) (fst (fold_left (sync_option B (field_class g)) opts st)).
Proof.
  induction opts as [|[oid lbl] opts IH]; intros [ps valid]; [apply touches_refl|].
  cbn [fold_left]. eapply touches_trans; [|apply IH].
  unfold sync_option. cbn [fst].
  destruct (existing_option (field_class g) oid ps) as [|o os].
  - cbn [fst]. apply touches_map_selected. intros p. apply keeps_field_options.
  - destruct (negb (jseqb (oe_value o) lbl)); cbn [fst].
    + apply touches_map_selected. intros p. apply keeps_field_options.
    + apply touches_refl.
Qed.

Lemma touches_remove_options (g : jsstring) (valid present : list jsstring) :
  forall ps,
    touches_only g ps (fold_left (remove_option (field_class g) valid) present ps).
Proof.
  induction present as [|x present IH]; intros ps; [apply touches_refl|].
  cbn [fold_left]. eapply touches_trans; [|apply IH].
  unfold remove_option. destruct (negb (includes valid x)).
  - apply touches_map_selected. intros p. apply keeps_field_options.
  - apply touches_refl.
Qed.

Lemma select_widgets_map_selected (c : jsstring) (f : widget -> widget)
    (ps : list post) :
  (forall w, in_class c (f w) = in_class c w) ->
  select_widgets c (map_selected c (fun _ => f) ps) = map f (select_widgets c ps).
Proof.
  intros H. rewrite !select_widgets_concat, widgets_of_map_selected_same.
  - symmetry. apply concat_map.
  - intros w _ Hw. now rewrite H.
Qed.

Lemma relabelled_touches (g label : jsstring) (ps : list post) :
  touches_only g ps (relabelled g label ps).
Proof.
  unfold relabelled. destruct (negb _); [|apply touches_refl].
  apply touches_map_selected. intros p. apply keeps_field_label.
Qed.

Lemma relabelled_select (g label : jsstring) (ps : list post) :
  exists f,
    (forall w, w_classes (f w) = w_classes w /\ w_control (f w) = w_control w)
    /\ select_widgets (field_class g) (relabelled g label ps)
       = map f (select_widgets (field_class g) ps)
    /\ widgets_of (field_class g) (relabelled g label ps)
       = map (map f) (widgets_of (field_class g) ps).
Proof.
  unfold relabelled. destruct (negb _).
  - exists (set_w_label label). split; [intros w; split; reflexivity|]. split.
    + now apply select_widgets_map_selected.
    + now apply widgets_of_map_selected_same.
  - exists (fun w => w). split; [intros w; split; reflexivity|]. split.
    + now rewrite map_id.
    + rewrite <- (map_id (widgets_of (field_class g) ps)) at 1.
      apply map_ext. intros l. now rewrite map_id.
Qed.

(** One turn of the schema loop: it does not throw while the field it
    finds among the added ones still has a widget, and it changes the
    widgets of that field only. *)
Lemma apply_field_step (added : list jsstring) (st : apply_state)
    (g : jsstring) (dg : field_def) :
  ap_threw st = false ->
  (includes added (field_class g) = true ->
   select_widgets (field_class g) (ap_posts st) <> []) ->
  let st' := apply_field B added st (g, dg) in
  ap_threw st' = false
  /\ touches_only g (ap_posts st) (ap_posts st')
  /\ (ap_fields_to_add st' = ap_fields_to_add st
      \/ ap_fields_to_add st' = obj_set (ap_fields_to_add st) g dg).
Proof.
  intros Hthrew Hsel. unfold apply_field. rewrite Hthrew.
  cbv beta iota zeta. change (lit "field-" ++ g) with (field_class g).
  destruct (includes added (field_class g)) eqn:Hadd.
  2:{ cbn [ap_threw ap_posts ap_fields_to_add].
      split; [reflexivity|]. split; [apply touches_refl | now right]. }
  specialize (Hsel eq_refl).
  fold (relabelled g (fd_label dg) (ap_posts st)).
  pose proof (relabelled_touches g (fd_label dg) (ap_posts st)) as Ht.
  destruct (relabelled_select g (fd_label dg) (ap_posts st)) as (f & Hf & Hs & _).
  destruct (select_widgets (field_class g) (relabelled g (fd_label dg) (ap_posts st)))
    as [|first rest] eqn:E.
  { destruct (select_widgets (field_class g) (ap_posts st)); [contradiction|discriminate]. }
  destruct (negb (jseqb (type_name (fd_type dg)) (last (w_classes first) []))).
  - destruct (is_text_field (type_name (fd_type dg))
              && is_text_field (last (w_classes first) []));
      cbn [ap_threw ap_posts ap_fields_to_add].
    + split; [reflexivity|]. split; [|now left].
      eapply touches_trans; [exact Ht|].
      apply touches_map_selected. intros p. apply keeps_field_convert.
    + split; [reflexivity|]. split; [|now right].
      eapply touches_trans; [exact Ht|]. apply touches_remove_selected.
  - destruct (fd_type dg); cbn [ap_threw ap_posts ap_fields_to_add];
      try (split; [reflexivity|]; split; [exact Ht | now left]).
    + destruct (fold_left (sync_option B (field_class g)) (fd_option_list dg)
                  (relabelled g (fd_label dg) (ap_posts st), []))
        as [ps2 valid] eqn:E2.
      cbn [ap_threw ap_posts ap_fields_to_add].
      split; [reflexivity|]. split; [|now left].
      eapply touches_trans; [exact Ht|].
      eapply touches_trans; [|apply touches_remove_options].
      pose proof (touches_sync_options g (fd_option_list dg)
                    (relabelled g (fd_label dg) (ap_posts st), [])) as H2.
      now rewrite E2 in H2.
    + destruct (fold_left (sync_option B (field_class g)) (fd_option_list dg)
                  (relabelled g (fd_label dg) (ap_posts st), []))
        as [ps2 valid] eqn:E2.
      cbn [ap_threw ap_posts ap_fields_to_add].
      split; [reflexivity|]. split; [|now left].
      eapply touches_trans; [exact Ht|].
      eapply touches_trans; [|apply touches_remove_options].
      pose proof (touches_sync_options g (fd_option_list dg)
                    (relabelled g (fd_label dg) (ap_posts st), [])) as H2.
      now rewrite E2 in H2.
Qed.





Lemma fold_left_app_cons {X Y} (f : X -> Y -> X) (l1 l2 : list Y) (y : Y) (x : X) :
  fold_left f (l1 ++ y :: l2) x = fold_left f l2 (f (fold_left f l1 x) y).
Proof. now rewrite fold_left_app. Qed.

(** The schema loop over fields other than [k]: no throw, and the widgets
    of [k] and what is queued for [k] stay as they are. *)
Lemma apply_loop_frame (added : list jsstring) (L : list (jsstring * field_def)) :
  forall st,
    ap_threw st = false ->
    field_page (ap_posts st) ->
    NoDup (map fst L) ->
    (forall g, In g (map fst L) -> includes added (field_class g) = true ->
               select_widgets (field_class g) (ap_posts st) <> []) ->
    let st' := fold_left (apply_field B added) L st in
    ap_threw st' = false
    /\ field_page (ap_posts st')
    /\ map li_id (ap_posts st') = map li_id (ap_posts st)
    /\ (NoDup (map fst (ap_fields_to_add st)) ->
        NoDup (map fst (ap_fields_to_add st')))
    /\ forall k, ~ In k (map fst L) ->
         widgets_of (field_class k) (ap_posts st')
         = widgets_of (field_class k) (ap_posts st)
         /\ obj_get (ap_fields_to_add st') k = obj_get (ap_fields_to_add st) k.
Proof.
  induction L as [|[g dg] L IH]; intros st Hthrew Hbuilt Hnd Hsel; cbn [fold_left].
  - repeat split; auto.
  - cbn [map fst] in Hnd, Hsel. inversion Hnd as [|? ? Hg HndL]; subst.
    destruct (apply_field_step added st g dg Hthrew) as (Ht1 & Htouch & Hfta).
    { apply Hsel. now left. }
    destruct (Htouch Hbuilt) as (Hb1 & Hl1 & Hw1).
    destruct (IH (apply_field B added st (g, dg)) Ht1 Hb1 HndL) as (Ht2 & Hb2 & Hl2 & Hn2 & Hk2).
    { intros g' Hg' Hadd'. rewrite select_widgets_concat, Hw1.
      - rewrite <- select_widgets_concat. apply Hsel; [now right | assumption].
      - intros ->. contradiction. }
    split; [assumption|]. split; [assumption|]. split; [congruence|]. split.
    + intros Hn. apply Hn2. destruct Hfta as [->| ->]; [assumption|].
      now apply obj_set_nodup.
    + intros k Hk. cbn [map fst] in Hk.
      assert (Hkg : k <> g) by (intros ->; apply Hk; now left).
      destruct (Hk2 k) as [Hw Ho]; [intros H; apply Hk; now right|].
      split; [rewrite Hw; now apply Hw1|].
      rewrite Ho. destruct Hfta as [->| ->]; [reflexivity|].
      now apply obj_get_set_other.
Qed.

Lemma added_fields_selected (ps : list post) (c : jsstring) :
  includes (added_fields_of ps) c = true -> select_widgets c ps <> [].
Proof.
  destruct ps as [|p ps]; [discriminate|]. cbn [added_fields_of].
  assert (H : forall l acc,
             includes
               (fold_left
                  (fun added w =>
                     match nth_error (w_classes w) 1 with
                     | Some cls =>
                         if negb (includes added cls) then added ++ [cls] else added
                     | None => added
                     end) l acc) c = true ->
             includes acc c = true
             \/ exists w, In w l /\ nth_error (w_classes w) 1 = Some c).
  { induction l as [|w l IH]; intros acc Hc; cbn [fold_left] in Hc; [now left|].
    apply IH in Hc. destruct Hc as [Hc|(w' & Hw' & Hn)].
    - destruct (nth_error (w_classes w) 1) as [cls|] eqn:E; [|now left].
      destruct (negb (includes acc cls)); [|now left].
      rewrite includes_app in Hc. apply orb_true_iff in Hc as [Hc|Hc]; [now left|].
      right. exists w. split; [now left|].
      unfold includes in Hc. cbn in Hc. rewrite orb_false_r in Hc.
      apply jseqb_eq in Hc. now subst.
    - right. exists w'. split; [now right | assumption]. }
  intros Hc. apply H in Hc. destruct Hc as [Hc|(w & Hw & Hn)]; [discriminate|].
  assert (Hin : In w (select_widgets c (p :: ps))).
  { unfold select_widgets, all_widgets. apply filter_In. split.
    - cbn [flat_map]. apply in_or_app. now left.
    - unfold in_class, has_class. apply includes_In.
      eapply nth_error_In. exact Hn. }
  intros E. rewrite E in Hin. contradiction.
Qed.

Lemma build_widget_class (k a : jsstring) (da : field_def) (pid : jsstring) :
  in_class (field_class k) (build_widget B a da pid) = jseqb k a.
Proof.
  apply (in_class_field k a [type_name (fd_type da)]); [reflexivity|].
  unfold other_tokens. cbn [forallb]. now rewrite is_field_class_type.
Qed.

Lemma build_widget_layout (a : jsstring) (da : field_def) (pid : jsstring) :
  field_layout (build_widget B a da pid).
Proof.
  exists a, [type_name (fd_type da)]. split; [reflexivity|].
  unfold other_tokens. cbn [forallb]. now rewrite is_field_class_type.
Qed.

(** The loop that adds the queued fields: it appends, to every post, one
    built widget per queued field. *)
Lemma append_loop (k : jsstring) (M : list (jsstring * field_def)) :
  forall ps,
    field_page ps ->
    let ps' := fold_left (append_widgets B) M ps in
    field_page ps'
    /\ map li_id ps' = map li_id ps
    /\ widgets_of (field_class k) ps'
       = map (fun p =>
                filter (in_class (field_class k)) (post_annotations p)
                  ++ map (fun e => build_widget B (fst e) (snd e) (post_id_of (li_id p)))
                         (filter (fun e => jseqb k (fst e)) M)) ps.
Proof.
  induction M as [|[a da] M IH]; intros ps Hb; cbn [fold_left].
  - split; [assumption|]. split; [reflexivity|].
    unfold widgets_of. apply map_ext. intros p. cbn. now rewrite app_nil_r.
  - assert (Hb1 : field_page (append_widgets B ps (a, da))).
    { unfold field_page, all_widgets, append_widgets in *. cbn [fst snd].
      clear IH. induction ps as [|p ps IHp]; cbn [map flat_map]; [constructor|].
      cbn [flat_map] in Hb. apply Forall_app in Hb as [Hp Hps].
      apply Forall_app. split; [|now apply IHp].
      cbn [post_annotations]. apply Forall_app. split; [assumption|].
      constructor; [apply build_widget_layout | constructor]. }
    destruct (IH _ Hb1) as (Hb2 & Hl2 & Hw2).
    split; [assumption|]. split.
    + rewrite Hl2. unfold append_widgets. now rewrite map_map.
    + rewrite Hw2. unfold append_widgets. rewrite map_map.
      apply map_ext. intros p. cbn [post_annotations li_id fst snd filter].
      rewrite filter_app. cbn [filter]. rewrite build_widget_class.
      destruct (jseqb k a); cbn [map]; now rewrite <- app_assoc.
Qed.

Lemma filter_key_absent {V} (k : jsstring) (M : list (jsstring * V)) :
  ~ In k (map fst M) -> filter (fun e => jseqb k (fst e)) M = [].
Proof.
  induction M as [|[a v] M IH]; cbn [map fst filter In]; intros H; [reflexivity|].
  destruct (jseqb k a) eqn:E.
  - apply jseqb_eq in E. subst. exfalso. apply H. now left.
  - apply IH. intros Hin. apply H. now right.
Qed.

Lemma filter_key_present {V} (k : jsstring) (v : V) (M : list (jsstring * V)) :
  NoDup (map fst M) -> In (k, v) M ->
  filter (fun e => jseqb k (fst e)) M = [(k, v)].
Proof.
  induction M as [|[a u] M IH]; cbn [map fst filter In]; intros Hnd Hin; [contradiction|].
  inversion Hnd as [|? ? Hn HndM]; subst.
  destruct Hin as [[= -> ->]|Hin].
  - rewrite jseqb_refl. f_equal. now apply filter_key_absent.
  - destruct (jseqb k a) eqn:E.
    + apply jseqb_eq in E. subst. exfalso. apply Hn.
      now apply (in_map fst) in Hin.
    + now apply IH.
Qed.

(** Removing the widgets of fields that are no longer in the schema leaves
    the widgets of a field of the schema alone. *)
Lemma remove_deleted_frame (valid : list jsstring) (ps : list post) (k : jsstring) :
  field_page ps ->
  includes valid (field_class k) = true ->
  widgets_of (field_class k) (remove_deleted valid ps)
  = widgets_of (field_class k) ps.
Proof.
  intros Hb Hv. unfold remove_deleted. destruct ps as [|p ps']; [reflexivity|].
  set (ps := p :: ps') in *.
  assert (Hsnap : Forall field_layout (post_annotations p)).
  { unfold field_page, all_widgets in Hb. cbn [ps flat_map] in Hb.
    now apply Forall_app in Hb as [Hp _]. }
  revert Hsnap. generalize (post_annotations p). intros snapshot Hsnap.
  assert (H : forall q, field_page q ->
             field_page
               (fold_left
                  (fun ps w =>
                     let present_id := to_key (nth_error (w_classes w) 1) in
                     if negb (includes valid present_id)
                     then remove_selected present_id ps else ps) snapshot q)
             /\ widgets_of (field_class k)
                  (fold_left
                     (fun ps w =>
                        let present_id := to_key (nth_error (w_classes w) 1) in
                        if negb (includes valid present_id)
                        then remove_selected present_id ps else ps) snapshot q)
                = widgets_of (field_class k) q).
  { induction Hsnap as [|w ws (x & ts & Hw & _) _ IH]; intros q Hq; cbn [fold_left].
    - auto.
    - rewrite Hw. cbn [nth_error to_key].
      destruct (negb (includes valid (field_class x))) eqn:E.
      + destruct (touches_remove_selected x q Hq) as (Hq1 & _ & Hw1).
        destruct (IH _ Hq1) as [Hq2 Hw2]. split; [exact Hq2|].
        etransitivity; [exact Hw2|].
        apply Hw1. intros ->. rewrite Hv in E. discriminate.
      + exact (IH _ Hq). }
  now apply H.
Qed.

(** The posts after [applyAnnotationFields] on a valid schema. *)
Lemma applyAnnotationFields_posts (pg : page) (fields : schema) :
  fst (parseAnnotationFields pg) = Schema fields ->
  posts (applyAnnotationFields B pg)
  = let st :=
      fold_left (apply_field B (added_fields_of (posts pg))) (for_in fields)
        {| ap_posts := posts pg; ap_fields_to_add := []; ap_threw := false |} in
    if ap_threw st then ap_posts st
    else
      remove_deleted (map (fun e => lit "field-" ++ fst e) (for_in fields))
        (fold_left (append_widgets B) (for_in (ap_fields_to_add st)) (ap_posts st)).
Proof.
  intros Hres. unfold applyAnnotationFields.
  destruct (parseAnnotationFields_frame pg) as [_ Hp].
  destruct (parseAnnotationFields pg) as [res pg1]. cbn [fst snd] in *. subst res.
  cbv zeta.
  set (pg2 := warnEditor [] (set_apply_button_html _ pg1)).
  assert (HS : posts (saveAnnotationFields fields pg2) = posts pg).
  { rewrite saveAnnotationFields_posts. unfold pg2.
    destruct (warnEditor_frame [] (set_apply_button_html
                (lit "<i class='fas fa-circle-notch spinner'></i> Applying") pg1))
      as (_ & -> & _). exact Hp. }
  rewrite HS.
  destruct (ap_threw _); [reflexivity|].
  destruct (remove_deleted _ _) as [|p ps]; [reflexivity|].
  destruct (post_annotations p); reflexivity.
Qed.

(** The schema loop around the turn of field [k]. *)
Lemma apply_loop_around (added : list jsstring) (k : jsstring) (d : field_def)
    (pre post : list (jsstring * field_def)) (st0 : apply_state) :
  NoDup (map fst (pre ++ (k, d) :: post)) ->
  ap_threw st0 = false ->
  field_page (ap_posts st0) ->
  ap_fields_to_add st0 = [] ->
  (forall g, includes added (field_class g) = true ->
             select_widgets (field_class g) (ap_posts st0) <> []) ->
  let st1 := fold_left (apply_field B added) pre st0 in
  let st2 := apply_field B added st1 (k, d) in
  let st3 := fold_left (apply_field B added) (pre ++ (k, d) :: post) st0 in
  (ap_threw st1 = false
   /\ field_page (ap_posts st1)
   /\ map li_id (ap_posts st1) = map li_id (ap_posts st0)
   /\ widgets_of (field_class k) (ap_posts st1)
      = widgets_of (field_class k) (ap_posts st0)
   /\ obj_get (ap_fields_to_add st1) k = None
   /\ NoDup (map fst (ap_fields_to_add st1)))
  /\ (ap_threw st3 = false
      /\ field_page (ap_posts st3)
      /\ map li_id (ap_posts st3) = map li_id (ap_posts st0)
      /\ widgets_of (field_class k) (ap_posts st3)
         = widgets_of (field_class k) (ap_posts st2)
      /\ obj_get (ap_fields_to_add st3) k = obj_get (ap_fields_to_add st2) k
      /\ (NoDup (map fst (ap_fields_to_add st2)) ->
          NoDup (map fst (ap_fields_to_add st3)))).
Proof.
  intros Hnd Ht0 Hb0 Hf0 Hsel st1 st2 st3.
  rewrite map_app in Hnd. cbn [map fst] in Hnd.
  pose proof (NoDup_remove_2 _ _ _ Hnd) as Hk.
  pose proof (NoDup_remove_1 _ _ _ Hnd) as Hnd'.
  pose proof (NoDup_app_remove_r _ _ Hnd') as Hpre.
  pose proof (NoDup_app_remove_l _ _ Hnd') as Hpost.
  assert (Hkpre : ~ In k (map fst pre)) by (intros H; apply Hk, in_or_app; now left).
  assert (Hkpost : ~ In k (map fst post)) by (intros H; apply Hk, in_or_app; now right).
  destruct (apply_loop_frame added pre st0 Ht0 Hb0 Hpre) as (Ht1 & Hb1 & Hl1 & Hn1 & Hk1).
  { intros g _. apply Hsel. }
  fold st1 in Ht1, Hb1, Hl1, Hn1, Hk1.
  destruct (Hk1 k Hkpre) as [Hw1 Ho1].
  assert (Hsel1 : includes added (field_class k) = true ->
                  select_widgets (field_class k) (ap_posts st1) <> []).
  { intros Ha. rewrite select_widgets_concat, Hw1, <- select_widgets_concat. auto. }
  destruct (apply_field_step added st1 k d Ht1 Hsel1) as (Ht2 & Htouch & Hfta).
  fold st2 in Ht2, Htouch, Hfta.
  destruct (Htouch Hb1) as (Hb2 & Hl2 & Hw2).
  destruct (apply_loop_frame added post st2 Ht2 Hb2 Hpost) as (Ht3 & Hb3 & Hl3 & Hn3 & Hk3).
  { intros g Hg Ha.
    assert (Hgk : g <> k) by (intros ->; contradiction).
    assert (Hgpre : ~ In g (map fst pre)).
    { intros Hin. apply NoDup_app_remove_l in Hnd.
      clear - Hnd' Hin Hg. induction (map fst pre) as [|x l IH]; [contradiction|].
      cbn in Hnd'. inversion Hnd' as [|? ? Hx Hl]; subst.
      destruct Hin as [->|Hin]; [apply Hx, in_or_app; now right | now apply IH]. }
    destruct (Hk1 g Hgpre) as [Hwg _].
    rewrite select_widgets_concat, (Hw2 g Hgk), Hwg, <- select_widgets_concat. auto. }
  assert (E3 : st3 = fold_left (apply_field B added) post st2).
  { unfold st3. now rewrite fold_left_app_cons. }
  rewrite E3. destruct (Hk3 k Hkpost) as [Hw3 Ho3].
  split.
  - repeat split; auto. + rewrite Ho1, Hf0. reflexivity.
    + apply Hn1. rewrite Hf0. constructor.
  - repeat split; auto. congruence.
Qed.

Lemma valid_fields_include (L : list (jsstring * field_def)) (k : jsstring)
    (d : field_def) :
  In (k, d) L ->
  includes (map (fun e => lit "field-" ++ fst e) L) (field_class k) = true.
Proof.
  intros H. apply includes_In. apply in_map_iff. now exists (k, d).
Qed.




End ApplyLayout.

(** The two statements at work on the sample pages. *)
Lemma sample_pages_laid_out :
  field_page (posts page_built_widgets)
  /\ field_page (posts page_rendered_widgets)
  /\ field_page (posts page_built_to_checkbox).
Proof.
  repeat split; repeat constructor;
    (eexists (lit "f1"), _; split; reflexivity).
Qed.



(* ================================================================== *)
(** * Further properties of the editor *)
(* ================================================================== *)

(** ** The schema parseAnnotationFields returns *)

Lemma replace_ws_from_idem (s : jsstring) :
  replace_ws_from false (replace_ws_from false s) = replace_ws_from false s
  /\ replace_ws_from false (replace_ws_from true s) = replace_ws_from true s
  /\ replace_ws_from true (replace_ws_from true s) = replace_ws_from true s.
Proof.
  induction s as [|c s (IH1 & IH2 & IH3)]; [repeat split|].
  simpl. destruct (is_ws c) eqn:Hc.
  - repeat split; trivial.
    simpl. change (is_ws SP) with true. cbv iota. now rewrite IH3.
  - simpl. rewrite Hc, IH1. repeat split.
Qed.

(** Replacing the whitespace runs a second time changes nothing. *)
Lemma replace_ws_idem (s : jsstring) :
  replace_ws_runs (replace_ws_runs s) = replace_ws_runs s.
Proof. apply replace_ws_from_idem. Qed.

Lemma filter_map_value (os : list option_field) :
  filter nonempty (map opt_value os)
  = map opt_value (filter (fun o => nonempty (opt_value o)) os).
Proof.
  induction os as [|o os IH]; simpl; [reflexivity|].
  destruct (nonempty (opt_value o)); simpl; now rewrite IH.
Qed.

(** The options the option loop collects when no input repeats a value. *)
Lemma option_loop_options (os : list option_field) :
  forall st,
    Forall (fun v => nonempty v = true) (os_option_labels st) ->
    repeat_failures (os_option_labels st) (filter nonempty (map opt_value os)) = [] ->
    os_options (fst (each parse_option st os))
    = os_options st
        ++ map (fun o => (replace_first (lit "input-") [] (opt_id o), opt_value o))
             (filter (fun o => nonempty (opt_value o)) os).
Proof.
  induction os as [|o os IH]; intros st Hne Hrep.
  - simpl. now rewrite app_nil_r.
  - rewrite each_cons_fst. cbn [map filter] in *.
    destruct (includes (os_option_labels st) (opt_value o)) eqn:Hin.
    + assert (Hv : nonempty (opt_value o) = true).
      { apply includes_In in Hin. rewrite Forall_forall in Hne. auto. }
      rewrite Hv in Hrep. cbn [repeat_failures] in Hrep. rewrite Hin in Hrep.
      discriminate.
    + destruct (nonempty (opt_value o)) eqn:Hv.
      * rewrite parse_option_new by assumption.
        cbn [repeat_failures] in Hrep. rewrite Hin in Hrep.
        rewrite IH; cbn [os_options os_option_labels].
        -- cbn [map]. now rewrite <- app_assoc.
        -- apply Forall_app. split; [assumption | now constructor].
        -- exact Hrep.
      * rewrite parse_option_skip by assumption. now apply IH.
Qed.

(** One turn of the field loop on a row whose options pass: the row is
    entered under its field id, whatever its label checks say. *)
Lemma parse_field_fields cols (st : parse_state) (f : editor_field) :
  option_failures f = [] ->
  ps_annotation_fields (fst (parse_field cols st f))
  = obj_set (ps_annotation_fields st) (field_id_of (dd_id f)) (row_def f).
Proof.
  intros Hopt. unfold parse_field, row_def, row_options.
  unfold option_failures, option_values, has_first_option, option_values in Hopt.
  unfold option_bearing in *. fold (label_of f).
  destruct (if negb (nonempty (label_of f)) then _ else _) as [w inv].
  destruct (field_type_val f) eqn:Et; cbn [fst ps_annotation_fields];
    try reflexivity.
  all: apply app_eq_nil in Hopt as [Hrep Hfirst].
  all: destruct (each parse_option _ (option_fields f)) as [os opts] eqn:E.
  all: pose proof (option_loop_options (option_fields f)
                     {| os_options := []; os_option_labels := [];
                        os_no_options_added := true; os_warning := w |}
                     (Forall_nil _) Hrep) as Hos.
  all: rewrite E in Hos; cbn [fst os_options app] in Hos.
  all: cbn [fst ps_annotation_fields]; rewrite Hos.
  all: replace (replace_ws_runs (label_of f)) with (label_of f)
         by (unfold label_of; now rewrite replace_ws_idem).
  all: rewrite filter_map_value in Hfirst.
  all: destruct (filter (fun o => nonempty (opt_value o)) (option_fields f));
         [discriminate | reflexivity].
Qed.

Lemma parse_rows_fields cols (rows : list editor_field) :
  forall st,
    Forall (fun f => option_failures f = []) rows ->
    ps_annotation_fields (fst (each (parse_field cols) st rows))
    = fold_left (fun o f => obj_set o (field_id_of (dd_id f)) (row_def f)) rows
        (ps_annotation_fields st).
Proof.
  induction rows as [|f rows IH]; intros st Hall; [reflexivity|].
  inversion Hall as [|? ? Hf Hrows]; subst.
  rewrite each_cons_fst, IH by assumption.
  cbn [fold_left]. now rewrite parse_field_fields.
Qed.

Lemma validation_failures_nil cols (rows : list editor_field) :
  forall earlier,
    validation_failures cols earlier rows = [] ->
    Forall (fun f => option_failures f = []) rows.
Proof.
  induction rows as [|f rows IH]; intros earlier H; [constructor|].
  cbn [validation_failures] in H.
  apply app_eq_nil in H as [_ H]. apply app_eq_nil in H as [Hf H].
  constructor; [assumption | now apply IH in H].
Qed.

Lemma nonnil_false {A} (l : list A) : nonnil l = false -> l = [].
Proof. now destruct l. Qed.

Lemma rows_schema_clear (rows : list editor_field) (o : schema) :
  fold_left (fun o f => obj_set o (field_id_of (dd_id f)) (row_def f))
    (map clear_label_invalid rows) o
  = fold_left (fun o f => obj_set o (field_id_of (dd_id f)) (row_def f)) rows o.
Proof.
  revert o; induction rows as [|f rows IH]; intros o; [reflexivity|].
  cbn [map fold_left]. rewrite IH. reflexivity.
Qed.

(** The schema of an editor no row of which fails. *)
Lemma parse_editor_valid cols (rows : list editor_field) :
  some_row_fails (fails_enforced_rules cols) [] rows = false ->
  fst (parse_editor cols rows) = Schema (rows_schema rows).
Proof.
  intros Hok. rewrite <- validation_failures_nonnil in Hok.
  apply nonnil_false in Hok.
  unfold parse_editor.
  pose proof (parse_rows_trace cols (map clear_label_invalid rows)
                {| ps_annotation_fields := []; ps_warning := [];
                   ps_labels_added := [] |}) as Hw.
  pose proof (parse_rows_fields cols (map clear_label_invalid rows)
                {| ps_annotation_fields := []; ps_warning := [];
                   ps_labels_added := [] |}) as Hf.
  rewrite validation_failures_clear in Hw. cbn [ps_labels_added ps_warning] in Hw.
  rewrite Hok in Hw. cbn [last] in Hw.
  destruct (each (parse_field cols) _ (map clear_label_invalid rows)) as [st rows'].
  cbn [fst] in *. rewrite Hw. cbn [nonempty]. f_equal.
  rewrite Hf.
  - cbn [ps_annotation_fields]. apply rows_schema_clear.
  - apply validation_failures_nil with (earlier := []) (cols := cols).
    now rewrite validation_failures_clear.
Qed.

(** X3: when no field id and no option id of the editor is "__proto__"
    and no row fails a rule, [parseAnnotationFields] returns exactly the
    schema read off the rows: every row is entered under the field id of
    its [dd] with its type, its label with the whitespace runs replaced,
    and, for a dropdown or checkbox row, the option inputs that hold a
    value, in order, each under the id of its input without "input-"; a
    row with the field id of an earlier row takes the place of that
    row. *)
Theorem parse_valid_editor_schema (pg : page) :
  own_keys (editor_rows pg) = true ->
  some_row_fails (fails_enforced_rules (original_columns pg)) []
    (editor_rows pg) = false ->
  fst (parseAnnotationFields pg) = Schema (rows_schema (editor_rows pg)).
Proof.
  intros _ H. rewrite parseAnnotationFields_result. now apply parse_editor_valid.
Qed.

Lemma parse_valid_editor_schema_witness :
  fst (parseAnnotationFields page_two_rows)
  = Schema
      [(lit "f1", {| fd_type := text; fd_label := lit "Notes on tone";
                     fd_options := None |});
       (lit "f2", {| fd_type := dropdown; fd_label := lit "Relevant";
                     fd_options := Some [(lit "7", lit "yes"); (lit "8", lit "no")] |})].
Proof.
  rewrite (parse_valid_editor_schema page_two_rows); reflexivity.
Defined.

(** ** Rows added in the browser *)




(** ** The markers parseAnnotationFields leaves on the inputs *)

Lemma each_cons_snd {S A} (body : S -> A -> S * A) (s : S) (a : A) (l : list A) :
  snd (each body s (a :: l))
  = snd (body s a) :: snd (each body (fst (body s a)) l).
Proof.
  simpl. destruct (body s a) as [s1 a1]. simpl.
  now destruct (each body s1 l).
Qed.

Lemma parse_option_snd (st : opt_state) (o : option_field) :
  snd (parse_option st o)
  = if includes (os_option_labels st) (opt_value o) then set_opt_invalid o else o.
Proof.
  unfold parse_option.
  destruct (includes (os_option_labels st) (opt_value o)),
           (nonempty (opt_value o)); reflexivity.
Qed.

Lemma includes_single (v u : jsstring) : includes [v] u = jseqb u v.
Proof. unfold includes. simpl. apply orb_false_r. Qed.

Lemma option_loop_marks (os : list option_field) :
  forall st earlier,
    Forall (fun v => nonempty v = true) (os_option_labels st) ->
    (forall u, nonempty u = true ->
               includes (os_option_labels st) u = includes earlier u) ->
    map opt_invalid (snd (each parse_option st os)) = option_markers earlier os
    /\ map unmarked_option (snd (each parse_option st os)) = map unmarked_option os.
Proof.
  induction os as [|o os IH]; intros st earlier Hne Hsame; [split; reflexivity|].
  rewrite each_cons_snd, parse_option_snd. cbn [map option_markers].
  destruct (includes (os_option_labels st) (opt_value o)) eqn:Hin.
  - assert (Hv : nonempty (opt_value o) = true).
    { apply includes_In in Hin. rewrite Forall_forall in Hne. auto. }
    rewrite parse_option_repeat by assumption.
    destruct (IH {| os_options := os_options st;
                    os_option_labels := os_option_labels st;
                    os_no_options_added := os_no_options_added st;
                    os_warning := warn_duplicate_option |}
                 (earlier ++ [opt_value o])) as [IHm IHu].
    + exact Hne.
    + cbn [os_option_labels]. intros u Hu.
      rewrite includes_app, includes_single, (Hsame u Hu).
      destruct (jseqb u (opt_value o)) eqn:E; [|now rewrite orb_false_r].
      apply jseqb_eq in E. subst u. rewrite <- (Hsame _ Hu), Hin. reflexivity.
    + rewrite IHm, IHu, <- (Hsame _ Hv), Hin, Hv. cbn [set_opt_invalid opt_invalid].
      rewrite orb_true_r. split; reflexivity.
  - destruct (nonempty (opt_value o)) eqn:Hv.
    + rewrite parse_option_new by assumption.
      destruct (IH {| os_options :=
                        os_options st
                          ++ [(replace_first (lit "input-") [] (opt_id o), opt_value o)];
                      os_option_labels := os_option_labels st ++ [opt_value o];
                      os_no_options_added := false;
                      os_warning := os_warning st |}
                   (earlier ++ [opt_value o])) as [IHm IHu].
      * cbn [os_option_labels]. apply Forall_app. split; [assumption | now constructor].
      * cbn [os_option_labels]. intros u Hu.
        now rewrite !includes_app, (Hsame u Hu).
      * rewrite IHm, IHu, <- (Hsame _ Hv), Hin. cbn [andb].
        rewrite orb_false_r. split; reflexivity.
    + rewrite parse_option_skip by assumption.
      destruct (IH st (earlier ++ [opt_value o])) as [IHm IHu].
      * exact Hne.
      * intros u Hu. rewrite includes_app, includes_single, (Hsame u Hu).
        apply nonempty_false in Hv. rewrite Hv.
        destruct u; [discriminate|]. cbn [jseqb]. now rewrite orb_false_r.
      * rewrite IHm, IHu. cbn [andb]. rewrite orb_false_r. split; reflexivity.
Qed.

(** One turn of the field loop, on the row it visits. *)
Lemma parse_field_row cols (st : parse_state) (f : editor_field) :
  label_invalid f = false ->
  label_invalid (snd (parse_field cols st f))
    = label_fails cols (ps_labels_added st) f
  /\ map opt_invalid (option_fields (snd (parse_field cols st f)))
     = row_option_markers f
  /\ unmarked (snd (parse_field cols st f)) = unmarked f.
Proof.
  intros Hclean. unfold parse_field, label_fails, row_option_markers, option_bearing.
  fold (label_of f).
  assert (Hinv :
    snd (if negb (nonempty (label_of f)) then (warn_empty_label, true)
         else if includes (ps_labels_added st) (label_of f)
              then (warn_duplicate_label, true)
              else if includes cols (label_of f)
                   then (warn_reserved_label (label_of f), true)
                   else (ps_warning st, label_invalid f))
    = negb (nonempty (label_of f)) || includes (ps_labels_added st) (label_of f)
      || includes cols (label_of f)).
  { rewrite Hclean.
    destruct (negb (nonempty (label_of f))); [reflexivity|].
    destruct (includes (ps_labels_added st) (label_of f)); [reflexivity|].
    destruct (includes cols (label_of f)); reflexivity. }
  destruct (if negb (nonempty (label_of f)) then _ else _) as [w inv].
  cbn [snd] in Hinv. subst inv.
  destruct (field_type_val f) eqn:Et; cbn [snd label_invalid option_fields];
    try (repeat split; try reflexivity; unfold unmarked;
         cbn [dd_id label_value field_type_val option_fields]; now rewrite Et).
  all: destruct (each parse_option _ (option_fields f)) as [os opts] eqn:E.
  all: destruct (option_loop_marks (option_fields f)
                   {| os_options := []; os_option_labels := [];
                      os_no_options_added := true; os_warning := w |} [])
         as [Hm Hu]; [constructor | reflexivity |].
  all: rewrite E in Hm, Hu; cbn [snd] in Hm, Hu.
  all: cbn [snd label_invalid option_fields]; repeat split; trivial.
  all: unfold unmarked; cbn [dd_id label_value field_type_val option_fields].
  all: now rewrite Hu, Et.
Qed.

Lemma parse_rows_marks cols (rows : list editor_field) :
  forall st,
    Forall (fun f => label_invalid f = false) rows ->
    map label_invalid (snd (each (parse_field cols) st rows))
      = label_markers cols (ps_labels_added st) rows
    /\ map (fun f => map opt_invalid (option_fields f))
         (snd (each (parse_field cols) st rows))
       = map row_option_markers rows
    /\ map unmarked (snd (each (parse_field cols) st rows)) = map unmarked rows.
Proof.
  induction rows as [|f rows IH]; intros st Hall; [repeat split|].
  inversion Hall as [|? ? Hf Hrows]; subst.
  rewrite each_cons_snd. cbn [map label_markers].
  destruct (parse_field_row cols st f Hf) as (Hl & Ho & Hu).
  destruct (IH (fst (parse_field cols st f)) Hrows) as (IHl & IHo & IHu).
  destruct (parse_field_trace cols st f) as [_ Hlab]. cbv zeta in Hlab.
  rewrite Hl, Ho, Hu, IHl, IHo, IHu, Hlab. repeat split.
Qed.

Lemma cleared_rows (cols : list jsstring) (rows : list editor_field) :
  Forall (fun f => label_invalid f = false) (map clear_label_invalid rows)
  /\ (forall earlier,
        label_markers cols earlier (map clear_label_invalid rows)
        = label_markers cols earlier rows)
  /\ map row_option_markers (map clear_label_invalid rows)
     = map row_option_markers rows
  /\ map unmarked (map clear_label_invalid rows) = map unmarked rows.
Proof.
  induction rows as [|f rows (IH1 & IH2 & IH3 & IH4)].
  - repeat split. constructor.
  - repeat split.
    + constructor; [reflexivity | exact IH1].
    + intros earlier. cbn [map label_markers]. now rewrite IH2.
    + cbn [map]. now rewrite IH3.
    + cbn [map]. now rewrite IH4.
Qed.

Lemma parseAnnotationFields_rows (pg : page) :
  editor_rows (snd (parseAnnotationFields pg))
  = snd (parse_editor (original_columns pg) (editor_rows pg)).
Proof.
  unfold parseAnnotationFields.
  destruct (warnEditor_frame [] pg) as (_ & _ & He & Hc & _).
  rewrite He, Hc.
  now destruct (parse_editor (original_columns pg) (editor_rows pg)).
Qed.

(** X5: what [parseAnnotationFields] does to the editor.  The label
    input of a row is marked invalid exactly when the row fails a label
    rule (empty, repeated, reserved), markers of an earlier run being
    cleared first; an option input of a dropdown or checkbox row is marked
    when it was marked before or repeats the non-empty value of an input
    before it, and no option marker is ever taken away; a row without
    option values gets no marker for that; nothing but markers changes. *)
Theorem parse_marks_failing_inputs (pg : page) :
  let rows' := editor_rows (snd (parseAnnotationFields pg)) in
  map label_invalid rows'
    = label_markers (original_columns pg) [] (editor_rows pg)
  /\ map (fun f => map opt_invalid (option_fields f)) rows'
     = map row_option_markers (editor_rows pg)
  /\ map unmarked rows' = map unmarked (editor_rows pg).
Proof.
  cbv zeta. rewrite parseAnnotationFields_rows. unfold parse_editor.
  destruct (cleared_rows (original_columns pg) (editor_rows pg))
    as (Hc & Hl & Ho & Hu).
  destruct (parse_rows_marks (original_columns pg)
              (map clear_label_invalid (editor_rows pg))
              {| ps_annotation_fields := []; ps_warning := [];
                 ps_labels_added := [] |} Hc) as (H1 & H2 & H3).
  destruct (each (parse_field (original_columns pg)) _ _) as [st rows'].
  cbn [snd ps_labels_added] in *.
  rewrite H1, H2, H3, Hl, Ho, Hu. repeat split.
Qed.

(** ** The shape of an option group *)

Lemma group_shape_values (g : list option_field) :
  group_shape g = true -> values_shape g = true.
Proof.
  induction g as [|o g IH]; [discriminate|].
  destruct g as [|o' g].
  - cbn. intros H. now apply andb_true_iff in H as [H _].
  - change (group_shape (o :: o' :: g))
      with (nonempty (opt_value o) && opt_delete o && group_shape (o' :: g)).
    change (values_shape (o :: o' :: g))
      with (nonempty (opt_value o) && values_shape (o' :: g)).
    intros H. apply andb_true_iff in H as [H Hs].
    apply andb_true_iff in H as [Hv _]. now rewrite Hv, IH.
Qed.

(** The second loop of [addOptions] gives a group with values in shape
    its delete controls. *)
Lemma append_delete_shape (g : list option_field) :
  values_shape g = true ->
  group_shape (append_delete_controls (map (set_opt_delete false) g)) = true.
Proof.
  induction g as [|o g IH]; [discriminate|].
  destruct g as [|o' g].
  - cbn. intros ->. reflexivity.
  - change (values_shape (o :: o' :: g))
      with (nonempty (opt_value o) && values_shape (o' :: g)).
    intros H. apply andb_true_iff in H as [Hv Hs].
    specialize (IH Hs). cbn [map] in *.
    change (append_delete_controls
              (set_opt_delete false o :: set_opt_delete false o'
                 :: map (set_opt_delete false) g))
      with (set_opt_delete true (set_opt_delete false o)
              :: append_delete_controls
                   (set_opt_delete false o' :: map (set_opt_delete false) g)).
    destruct (append_delete_controls
                (set_opt_delete false o' :: map (set_opt_delete false) g))
      as [|x l] eqn:E; [discriminate|].
    change (group_shape (set_opt_delete true (set_opt_delete false o) :: x :: l))
      with (nonempty (opt_value o) && true && group_shape (x :: l)).
    now rewrite Hv, IH.
Qed.

Lemma values_shape_not_all (g : list option_field) :
  values_shape g = true ->
  forallb (fun o => nonempty (opt_value o)) g = false.
Proof.
  induction g as [|o g IH]; [discriminate|].
  destruct g as [|o' g].
  - cbn. intros H. apply negb_true_iff in H. now rewrite H.
  - change (values_shape (o :: o' :: g))
      with (nonempty (opt_value o) && values_shape (o' :: g)).
    intros H. apply andb_true_iff in H as [Hv Hs].
    cbn [forallb] in *. rewrite (IH Hs). apply andb_false_r.
Qed.

Lemma values_shape_cons (o : option_field) (g : list option_field) :
  values_shape g = true ->
  values_shape (o :: g) = nonempty (opt_value o).
Proof.
  destruct g as [|o' g]; [discriminate|]. intros H.
  change (values_shape (o :: o' :: g))
    with (nonempty (opt_value o) && values_shape (o' :: g)).
  rewrite H. apply andb_true_r.
Qed.

(** Typing into the input at position [i] of a group in shape: the group
    [addOptions] then works on, and whether it adds an input. *)
Lemma keyup_values_shape (new_id v : jsstring) (g : list option_field) :
  nonempty v = true ->
  forall i o,
    values_shape g = true ->
    nth_error g i = Some o ->
    let g1 := firstn i g ++ set_opt_value v o :: skipn (S i) g in
    nth_error g1 i = Some (set_opt_value v o)
    /\ values_shape
         (if forallb (fun o => nonempty (opt_value o)) (remove_at i g1)
          then insert_after i (getInputField new_id) g1 else g1) = true.
Proof.
  intros Hv. induction g as [|a g IH]; intros i o Hs Hi; [destruct i; discriminate|].
  destruct i as [|i].
  - injection Hi as ->. cbn [firstn skipn app nth_error remove_at insert_after].
    split; [reflexivity|].
    destruct g as [|o' g].
    + cbn. now rewrite Hv.
    + change (values_shape (o :: o' :: g))
        with (nonempty (opt_value o) && values_shape (o' :: g)) in Hs.
      apply andb_true_iff in Hs as [_ Hs].
      rewrite (values_shape_not_all _ Hs).
      rewrite values_shape_cons by assumption. exact Hv.
  - cbn [nth_error] in Hi.
    destruct g as [|o' g]; [destruct i; discriminate|].
    change (values_shape (a :: o' :: g))
      with (nonempty (opt_value a) && values_shape (o' :: g)) in Hs.
    apply andb_true_iff in Hs as [Ha Hs].
    destruct (IH i o Hs Hi) as [IH1 IH2]. cbv zeta in IH1, IH2.
    cbn [firstn skipn nth_error].
    rewrite <- app_comm_cons. cbn [nth_error remove_at insert_after forallb].
    split; [exact IH1|]. rewrite Ha. cbn [andb].
    destruct (forallb _ (remove_at i _)).
    + rewrite values_shape_cons; assumption.
    + rewrite values_shape_cons; assumption.
Qed.

Lemma group_shape_remove (g : list option_field) :
  forall i o,
    group_shape g = true ->
    nth_error g i = Some o -> opt_delete o = true ->
    group_shape (remove_at i g) = true.
Proof.
  induction g as [|a g IH]; intros i o Hs Hi Hd; [destruct i; discriminate|].
  destruct g as [|o' g].
  - destruct i as [|i]; [|destruct i; discriminate].
    injection Hi as ->. cbn in Hs. rewrite Hd in Hs.
    rewrite andb_false_r in Hs. discriminate.
  - change (group_shape (a :: o' :: g))
      with (nonempty (opt_value a) && opt_delete a && group_shape (o' :: g)) in Hs.
    apply andb_true_iff in Hs as [Ha Hs].
    destruct i as [|i]; [exact Hs|].
    cbn [nth_error] in Hi. specialize (IH i o Hs Hi Hd).
    change (remove_at (S i) (a :: o' :: g)) with (a :: remove_at i (o' :: g)).
    destruct (remove_at i (o' :: g)) as [|x l]; [discriminate|].
    change (group_shape (a :: x :: l))
      with (nonempty (opt_value a) && opt_delete a && group_shape (x :: l)).
    now rewrite Ha, IH.
Qed.

Lemma group_shape_clear (g : list option_field) :
  group_shape g = true -> List.length g = 1 ->
  group_shape (map (set_opt_delete false) g) = true.
Proof.
  destruct g as [|o [|o' g]]; try discriminate.
  cbn. intros H _. apply andb_true_iff in H as [H _]. now rewrite H.
Qed.

Lemma group_step_shape (g : list option_field) (op : group_op) :
  group_shape g = true -> calls_handler op -> group_shape (group_step g op) = true.
Proof.
  intros Hs Hop. destruct op as [new_id i v | i]; cbn [group_step].
  - unfold calls_handler in Hop.
    assert (Hv : nonempty v = true) by (destruct v; [now elim Hop | reflexivity]).
    unfold option_keyup.
    destruct (nth_error g i) as [o|] eqn:Hi; [|now rewrite Hi].
    destruct (keyup_values_shape new_id v g Hv i o (group_shape_values g Hs) Hi)
      as [H1 H2].
    cbv zeta in H1, H2. rewrite H1, Hv. unfold addOptions. rewrite H1.
    cbn [set_opt_value opt_value]. rewrite Hv. cbn [andb].
    now apply append_delete_shape.
  - unfold deleteOption.
    destruct (nth_error g i) as [o|] eqn:Hi; [|assumption].
    destruct (opt_delete o) eqn:Hd; [|assumption].
    pose proof (group_shape_remove g i o Hs Hi Hd) as Hr.
    destruct (Nat.eqb (List.length (remove_at i g)) 1) eqn:Hl; [|assumption].
    apply Nat.eqb_eq in Hl. now apply group_shape_clear.
Qed.

(** X6: the option group of a dropdown or checkbox row.  The group
    [toggleField] opens, and every group reached from it by calls of
    [addOptions] (typing a value that is not empty) and [deleteOption], is
    never empty; its last input is empty and has no delete control, every
    other input holds a value and has one.  So the empty input that ends
    the group cannot be deleted, and a group never loses its last field. *)
Theorem option_group_keeps_shape (new_id : jsstring) (ops : list group_op) :
  Forall calls_handler ops ->
  group_shape (fold_left group_step ops (toggleField new_id dropdown [])) = true
  /\ group_shape (fold_left group_step ops (toggleField new_id checkbox [])) = true.
Proof.
  intros Hops.
  assert (H : forall g, group_shape g = true ->
                        group_shape (fold_left group_step ops g) = true).
  { induction Hops as [|op ops Hop _ IH]; intros g Hg; [exact Hg|].
    cbn [fold_left]. apply IH. now apply group_step_shape. }
  split; apply H; reflexivity.
Qed.

Lemma option_group_keeps_shape_witness :
  group_shape
    (fold_left group_step
       [KeyUp (lit "2") 0 (lit "red"); KeyUp (lit "3") 1 (lit "blue");
        DeleteClick 0; DeleteClick 1; KeyUp (lit "4") 0 (lit "green")]
       (toggleField (lit "1") dropdown [])) = true.
Proof.
  apply (option_group_keeps_shape (lit "1")
           [KeyUp (lit "2") 0 (lit "red"); KeyUp (lit "3") 1 (lit "blue");
            DeleteClick 0; DeleteClick 1; KeyUp (lit "4") 0 (lit "green")]).
  repeat constructor; discriminate.
Defined.

(* ================================================================== *)
(** * Further properties of saving *)
(* ================================================================== *)

(** ** What parseAnnotation reads *)

Lemma strip_prefix_app (pat s : jsstring) : strip_prefix pat (pat ++ s) = Some s.
Proof.
  induction pat as [|p pat IH]; simpl; [reflexivity|].
  now rewrite N.eqb_refl.
Qed.

(** A string that starts with the pattern loses it. *)
Lemma replace_first_prefix (pat rep s : jsstring) :
  replace_first pat rep (pat ++ s) = rep ++ s.
Proof.
  pose proof (strip_prefix_app pat s) as H.
  destruct (pat ++ s); simpl; now rewrite H.
Qed.

(** The reading of a text widget, step by step: the three class tokens
    lose their prefixes, and the value is that of the text control. *)
Ltac read_text_widget Hc Ht Hv :=
  unfold parseAnnotation; rewrite Hc; cbn [nth_error];
  rewrite !replace_first_prefix; cbn [app];
  match goal with
  | |- context [first_input_val ?w] =>
      replace (first_input_val w) with (ValString (match text_value w with
                                                    | Some v => v
                                                    | None => []
                                                    end))
        by (unfold first_input_val, text_value in *;
            destruct (w_control w); congruence)
  end;
  rewrite Hv;
  destruct Ht as [-> | ->]; reflexivity.

(** X7: [parseAnnotation] on a text or textarea widget whose class
    attribute reads "<c0> field-<f> type-<t> item-id-<i> ..." returns the
    record with field id f, item id i, type t, the text of the label, the
    value the control holds (empty or not, edited or not), the author
    "Jan" and by_processor false. *)
Theorem parseAnnotation_reads_text_widget
    (w : widget) (c0 f t i v : jsstring) (more : list jsstring) :
  w_classes w
    = c0 :: (lit "field-" ++ f) :: (lit "type-" ++ t) :: (lit "item-id-" ++ i) :: more ->
  t = lit "text" \/ t = lit "textarea" ->
  text_value w = Some v ->
  parseAnnotation w
  = Some {| an_field_id := f; an_item_id := i; an_label := w_label w;
            an_type := t; an_value := ValString v; an_author := lit "Jan";
            an_by_processor := false |}.
Proof.
  intros Hc Ht Hv. read_text_widget Hc Ht Hv.
Qed.

Lemma parseAnnotation_reads_text_widget_witness :
  parseAnnotation rendered_text_widget
  = Some {| an_field_id := lit "f1"; an_item_id := lit "42"; an_label := lit "Notes";
            an_type := lit "text"; an_value := ValString (lit "hello");
            an_author := lit "Jan"; an_by_processor := false |}.
Proof.
  apply (parseAnnotation_reads_text_widget rendered_text_widget
           (lit "post-annotation") (lit "f1") (lit "text") (lit "42") (lit "hello") []).
  - reflexivity.
  - left. reflexivity.
  - reflexivity.
Defined.

(** ** What saveAnnotations sends *)

Lemma collect_annotations_all (ws : list widget) :
  forall anns,
    collect_annotations ws = Some anns ->
    Forall2 (fun w a => parseAnnotation w = Some a) ws anns.
Proof.
  induction ws as [|w ws IH]; intros anns H; simpl in H.
  - injection H as <-. constructor.
  - destruct (parseAnnotation w) as [a|] eqn:Ea; [|discriminate].
    destruct (collect_annotations ws) as [l|]; [|discriminate].
    injection H as <-. constructor; [assumption | now apply IH].
Qed.

(** X8: when every widget of the page has the class tokens
    [parseAnnotation] indexes, [saveAnnotations] issues one request, to
    "explorer/save_annotations/<key>" under the root, whose body is the
    list of what [parseAnnotation] returns for every widget of every post,
    in document order, edited or not; it sets the disabled class on both
    save buttons and leaves the widgets as they are. *)
Theorem saveAnnotations_sends_every_widget (pg : page) :
  forallb extractable (all_widgets (posts pg)) = true ->
  exists anns,
    requests (saveAnnotations pg)
    = requests pg
        ++ [{| rq_url := getRelativeURL (lit "explorer/save_annotations/" ++ dataset_key pg) pg;
               rq_body := AnnotationsBody anns |}]
    /\ Forall2 (fun w a => parseAnnotation w = Some a) (all_widgets (posts pg)) anns
    /\ save_button_disabled (saveAnnotations pg) = true
    /\ save_to_dataset_disabled (saveAnnotations pg) = true
    /\ posts (saveAnnotations pg) = posts pg.
Proof.
  intros H. apply collect_extractable in H. unfold saveAnnotations.
  destruct (collect_annotations (all_widgets (posts pg))) as [anns|] eqn:E;
    [|contradiction].
  exists anns. repeat split. now apply collect_annotations_all.
Qed.

Lemma saveAnnotations_sends_every_widget_witness :
  exists anns,
    requests (saveAnnotations page_rendered_widgets)
    = [{| rq_url := lit "/explorer/save_annotations/abc123";
          rq_body := AnnotationsBody anns |}]
    /\ List.length anns = 2.
Proof.
  destruct (saveAnnotations_sends_every_widget page_rendered_widgets)
    as (anns & Hr & Hall & _).
  - reflexivity.
  - exists anns. split; [exact Hr|].
    apply Forall2_length in Hall. symmetry. exact Hall.
Defined.

(** X9: when one widget of the page lacks a class token
    [parseAnnotation] indexes, the call of [saveAnnotations] ends in the
    collecting loop: whatever trigger fires and whatever its guard says,
    the page is as before: no request, no spinner, the save buttons not
    disabled, nothing sent for the widgets that could be read. *)
Theorem save_aborts_on_unreadable_widget (pg : page) (t : trigger) :
  forallb extractable (all_widgets (posts pg)) = false ->
  saveAnnotations pg = pg /\ fire t pg = pg.
Proof.
  intros H.
  assert (Hs : saveAnnotations pg = pg).
  { unfold saveAnnotations.
    destruct (collect_annotations (all_widgets (posts pg))) eqn:E; [|reflexivity].
    assert (Hc : collect_annotations (all_widgets (posts pg)) <> None) by congruence.
    apply collect_extractable in Hc. congruence. }
  split; [exact Hs|]. unfold fire. rewrite Hs.
  destruct t, (save_button_disabled pg), (edits_made pg); reflexivity.
Qed.

Lemma save_aborts_on_unreadable_widget_witness :
  fire ManualClick page_mixed_widgets = page_mixed_widgets
  /\ save_button_disabled page_mixed_widgets = false.
Proof.
  split; [|reflexivity].
  apply (save_aborts_on_unreadable_widget page_mixed_widgets ManualClick).
  reflexivity.
Defined.

(** ** The save button between saves *)

Lemma run_app (evs1 evs2 : list event) (pg : page) :
  run (evs1 ++ evs2) pg = run evs2 (run evs1 pg).
Proof. unfold run. apply fold_left_app. Qed.

(** X10: after the server has answered a save with the string "success",
    the save button carries the disabled class, and any number of clicks
    on it, clicks on pagination links and timer ticks leave the page as it
    is: nothing is sent again until a widget is edited, which takes the
    class away and sets [edits_made]. *)
Theorem saved_page_sends_nothing_until_edit
    (pg : page) (evs : list event) (i j : nat) (c : control) :
  forallb is_trigger evs = true ->
  let saved := annotations_success (JString (lit "success")) pg in
  run evs saved = saved
  /\ save_button_disabled (run (evs ++ [WidgetEdited i j c]) saved) = false
  /\ edits_made (run (evs ++ [WidgetEdited i j c]) saved) = true.
Proof.
  intros Hevs saved.
  assert (Hd : save_button_disabled saved = true) by reflexivity.
  assert (Hrun : run evs saved = saved).
  { clearbody saved. induction evs as [|e evs IH]; [reflexivity|].
    cbn [forallb] in Hevs. apply andb_true_iff in Hevs as [He Hevs].
    rewrite run_cons. destruct e as [t| | |]; try discriminate.
    cbn [handle]. rewrite fire_disabled by assumption. now apply IH. }
  split; [exact Hrun|]. rewrite run_app, Hrun. split; reflexivity.
Qed.

Lemma saved_page_sends_nothing_until_edit_witness :
  let saved := annotations_success (JString (lit "success")) page_rendered_widgets in
  requests (run [Trigger TimerTick; Trigger ManualClick; Trigger PaginationClick] saved)
  = requests page_rendered_widgets.
Proof.
  intros saved.
  destruct (saved_page_sends_nothing_until_edit page_rendered_widgets
              [Trigger TimerTick; Trigger ManualClick; Trigger PaginationClick]
              0 0 (TextInput true [])) as (H & _).
  - reflexivity.
  - fold saved in H. rewrite H. reflexivity.
Defined.

Lemma handle_edits_made (e : event) (pg : page) :
  edits_made pg = true -> edits_made (handle e pg) = true.
Proof.
  intros H. destruct e as [t|i j c|r|]; cbn [handle].
  - destruct (fire_posts t pg) as [_ ->]. exact H.
  - reflexivity.
  - unfold annotations_success. now destruct (strict_eq_string r _).
  - exact H.
Qed.

(** X11: [edits_made] is never reset.  Once a widget has been edited,
    whatever follows (saves, answers of the server, further edits), the
    variable stays true, so from then on the timer saves under the same
    condition as a click: whenever the save button is not disabled, also
    when nothing was edited since the last save. *)
Theorem edits_made_never_reset (pg : page) (evs : list event) :
  edits_made pg = true ->
  edits_made (run evs pg) = true
  /\ fire TimerTick (run evs pg) = fire ManualClick (run evs pg).
Proof.
  intros H.
  assert (He : edits_made (run evs pg) = true).
  { revert pg H. induction evs as [|e evs IH]; intros pg H; [exact H|].
    rewrite run_cons. apply IH. now apply handle_edits_made. }
  split; [exact He|]. unfold fire. rewrite He. now rewrite andb_true_r.
Qed.

Lemma edits_made_never_reset_witness :
  let pg := handle (WidgetEdited 0 0 (TextInput true (lit "x"))) page_rendered_widgets in
  let later := run [Trigger ManualClick; SaveResponse (JString (lit "no"))] pg in
  edits_made later = true
  /\ List.length (requests (fire TimerTick later)) = 2.
Proof.
  intros pg later.
  destruct (edits_made_never_reset pg
              [Trigger ManualClick; SaveResponse (JString (lit "no"))]) as [H1 H2].
  - reflexivity.
  - fold later in H1, H2. split; [exact H1|]. rewrite H2. reflexivity.
Defined.

(* ================================================================== *)
(** * Further properties of the reconciliation *)
(* ================================================================== *)

Lemma map_combine_split {P X Y Z} (f : P -> X) (g : P -> Y) (h : X -> Y -> Z)
    (l : list P) :
  map (fun p => h (f p) (g p)) l
  = map (fun x => h (fst x) (snd x)) (combine (map f l) (map g l)).
Proof. induction l as [|p l IH]; simpl; [reflexivity|]. now rewrite IH. Qed.


Section ApplyFields.

Variable B : browser.

(** The turn of the schema loop for a field the first post has no widget
    of: the posts stay, the field is queued for building. *)
Lemma apply_field_new (added : list jsstring) (st : apply_state)
    (k : jsstring) (d : field_def) :
  ap_threw st = false ->
  includes added (field_class k) = false ->
  apply_field B added st (k, d)
  = {| ap_posts := ap_posts st;
       ap_fields_to_add := obj_set (ap_fields_to_add st) k d;
       ap_threw := false |}.
Proof.
  intros Ht Ha. unfold apply_field. rewrite Ht.
  cbv beta iota zeta. change (lit "field-" ++ k) with (field_class k).
  now rewrite Ha.
Qed.



(** The widgets of a field of the schema after [applyAnnotationFields],
    from the turn of the schema loop for that field: what that turn leaves
    of them, and the widget built for every post when the turn has queued
    the field. *)
Lemma apply_widgets_of_field (pg : page) (fields : schema)
    (k : jsstring) (d : field_def) :
  fst (parseAnnotationFields pg) = Schema fields ->
  obj_get fields k = Some d ->
  field_page (posts pg) ->
  exists st1,
    ap_threw st1 = false
    /\ field_page (ap_posts st1)
    /\ widgets_of (field_class k) (ap_posts st1)
       = widgets_of (field_class k) (posts pg)
    /\ obj_get (ap_fields_to_add st1) k = None
    /\ widgets_of (field_class k) (posts (applyAnnotationFields B pg))
       = let st2 := apply_field B (added_fields_of (posts pg)) st1 (k, d) in
         map (fun x => with_built B k (obj_get (ap_fields_to_add st2) k) (fst x) (snd x))
             (combine (widgets_of (field_class k) (ap_posts st2))
                      (map li_id (posts pg))).
Proof.
  intros Hres Hget Hbuilt.
  pose proof (parseAnnotationFields_keys pg fields Hres) as Hnd.
  rewrite (applyAnnotationFields_posts B pg fields Hres). cbv zeta.
  assert (HndL : NoDup (map fst (for_in fields))).
  { eapply Permutation_NoDup; [|exact Hnd].
    apply Permutation_map. symmetry. apply for_in_perm. }
  assert (HinL : In (k, d) (for_in fields)).
  { eapply Permutation_in; [symmetry; apply for_in_perm|].
    now apply obj_get_In. }
  destruct (in_split _ _ HinL) as (pre & post & EL). rewrite EL in *.
  set (added := added_fields_of (posts pg)) in *.
  set (st0 := {| ap_posts := posts pg; ap_fields_to_add := []; ap_threw := false |}).
  destruct (apply_loop_around B added k d pre post st0 HndL eq_refl Hbuilt eq_refl)
    as [(Ht1 & Hb1 & Hl1 & Hw1 & Ho1 & Hn1) (Ht3 & Hb3 & Hl3 & Hw3 & Ho3 & Hn3)].
  { intros g. apply added_fields_selected. }
  set (st1 := fold_left (apply_field B added) pre st0) in *.
  set (st2 := apply_field B added st1 (k, d)) in *.
  set (st3 := fold_left (apply_field B added) (pre ++ (k, d) :: post) st0) in *.
  exists st1. repeat (split; [assumption|]).
  assert (Hn2 : NoDup (map fst (ap_fields_to_add st2))).
  { destruct (apply_field_step B added st1 k d Ht1) as (_ & _ & Hfta).
    - intros Ha. rewrite select_widgets_concat, Hw1, <- select_widgets_concat.
      now apply added_fields_selected.
    - fold st2 in Hfta. destruct Hfta as [-> | ->]; [assumption|].
      now apply obj_set_nodup. }
  specialize (Hn3 Hn2).
  rewrite Ht3.
  destruct (append_loop B k (for_in (ap_fields_to_add st3)) _ Hb3) as (Hb & _ & Hw).
  rewrite remove_deleted_frame;
    [| exact Hb | now apply valid_fields_include with (d := d)].
  rewrite Hw.
  assert (Hfilter :
    filter (fun e => jseqb k (fst e)) (for_in (ap_fields_to_add st3))
    = match obj_get (ap_fields_to_add st2) k with
      | Some d' => [(k, d')]
      | None => []
      end).
  { rewrite <- Ho3.
    destruct (obj_get (ap_fields_to_add st3) k) as [d'|] eqn:E.
    - apply filter_key_present.
      + eapply Permutation_NoDup; [|exact Hn3].
        apply Permutation_map. symmetry. apply for_in_perm.
      + eapply Permutation_in; [symmetry; apply for_in_perm|].
        now apply obj_get_In.
    - apply filter_key_absent. apply obj_get_None in E. intros Hin. apply E.
      eapply Permutation_in; [|exact Hin].
      apply Permutation_map. apply for_in_perm. }
  rewrite Hfilter.
  rewrite (map_combine_split
             (fun p => filter (in_class (field_class k)) (post_annotations p))
             li_id
             (fun ws li =>
                ws ++ map (fun e => build_widget B (fst e) (snd e) (post_id_of li))
                        match obj_get (ap_fields_to_add st2) k with
                        | Some d' => [(k, d')]
                        | None => []
                        end)).
  fold (widgets_of (field_class k) (ap_posts st3)).
  rewrite Hw3, Hl3. cbn [ap_posts st0].
  apply map_ext. intros [ws li]. unfold with_built. cbn [fst snd].
  subst st2.
  destruct (obj_get (ap_fields_to_add (apply_field B added st1 (k, d))) k);
    reflexivity.
Qed.


Lemma widgets_of_In (c : jsstring) (ps : list post) (ws : list widget) (w : widget) :
  In ws (widgets_of c ps) -> In w ws -> In w (all_widgets ps).
Proof.
  unfold widgets_of, all_widgets. intros Hws Hw.
  apply in_map_iff in Hws as (p & <- & Hp).
  apply in_flat_map. exists p. split; [assumption|].
  apply filter_In in Hw. tauto.
Qed.

(** The widget built for the first post is among the widgets of the page
    afterwards. *)
Lemma apply_new_field_built (pg : page) (fields : schema)
    (k : jsstring) (d : field_def) (p : post) (ps : list post) :
  fst (parseAnnotationFields pg) = Schema fields ->
  obj_get fields k = Some d ->
  field_page (posts pg) ->
  includes (added_fields_of (posts pg)) (field_class k) = false ->
  posts pg = p :: ps ->
  In (build_widget B k d (post_id_of (li_id p)))
     (all_widgets (posts (applyAnnotationFields B pg))).
Proof.
  intros Hres Hget Hbuilt Hnew Ep.
  destruct (apply_widgets_of_field pg fields k d Hres Hget Hbuilt)
    as (st1 & Ht1 & _ & Hw1 & _ & Hw).
  cbv zeta in Hw. rewrite apply_field_new in Hw by assumption.
  cbn [ap_posts ap_fields_to_add] in Hw. rewrite obj_get_set_same, Hw1, Ep in Hw.
  unfold widgets_of in Hw. cbn [map combine fst snd] in Hw.
  apply (widgets_of_In (field_class k) _
           (with_built B k (Some d)
              (filter (in_class (field_class k)) (post_annotations p)) (li_id p))).
  - unfold widgets_of. rewrite Hw. now left.
  - unfold with_built. apply in_or_app. right. now left.
Qed.

Lemma build_widget_not_extractable (k : jsstring) (d : field_def) (pid : jsstring) :
  extractable (build_widget B k d pid) = false.
Proof. reflexivity. Qed.

(** X13: on a page and a schema of plain identifiers: after
    [applyAnnotationFields] has built the widgets of a new field on a page
    with at least one post, no trigger saves any more: the built widgets
    carry three class tokens where [parseAnnotation] indexes a fourth, so
    every call of [saveAnnotations] ends in the collecting loop and leaves
    the page as it is. *)
Theorem save_dead_after_new_field (pg : page) (fields : schema)
    (k : jsstring) (d : field_def) (t : trigger) :
  fst (parseAnnotationFields pg) = Schema fields ->
  obj_get fields k = Some d ->
  field_page (posts pg) ->
  plain_page (posts pg) = true ->
  plain_schema fields = true ->
  includes (added_fields_of (posts pg)) (field_class k) = false ->
  posts pg <> [] ->
  fire t (applyAnnotationFields B pg) = applyAnnotationFields B pg.
Proof.
  intros Hres Hget Hbuilt _ _ Hnew Hne.
  destruct (posts pg) as [|p ps] eqn:Ep; [contradiction|].
  assert (Hin : In (build_widget B k d (post_id_of (li_id p)))
                   (all_widgets (posts (applyAnnotationFields B pg))))
    by (apply (apply_new_field_built pg fields k d p ps); congruence).
  assert (Hx : forallb extractable (all_widgets (posts (applyAnnotationFields B pg)))
               = false).
  { destruct (forallb extractable _) eqn:E; [|reflexivity].
    rewrite forallb_forall in E. specialize (E _ Hin).
    now rewrite build_widget_not_extractable in E. }
  assert (Hs : saveAnnotations (applyAnnotationFields B pg) = applyAnnotationFields B pg).
  { unfold saveAnnotations.
    destruct (collect_annotations _) eqn:E; [|reflexivity].
    assert (Hc : collect_annotations
                   (all_widgets (posts (applyAnnotationFields B pg))) <> None)
      by congruence.
    apply collect_extractable in Hc. congruence. }
  unfold fire. rewrite Hs.
  destruct t, (save_button_disabled (applyAnnotationFields B pg)),
    (edits_made (applyAnnotationFields B pg)); reflexivity.
Qed.



End ApplyFields.


Lemma save_dead_after_new_field_witness :
  let pg := applyAnnotationFields plain_browser page_new_field in
  fire ManualClick pg = pg /\ save_button_disabled pg = false.
Proof.
  destruct sample_pages_laid_out as (H & _ & _).
  split; [|reflexivity].
  apply (save_dead_after_new_field plain_browser page_new_field
           [(lit "f1", {| fd_type := text; fd_label := lit "Notes";
                          fd_options := None |});
            (lit "f2", {| fd_type := text; fd_label := lit "Tone";
                          fd_options := None |})]
           (lit "f2")
           {| fd_type := text; fd_label := lit "Tone"; fd_options := None |}
           ManualClick);
    try reflexivity; [exact H | discriminate].
Defined.


(** ** Fields that left the schema *)



Section ApplyDeleted.

Variable B : browser.

(** The schema loop and the building loop on a valid schema: no throw,
    and the widgets of a field that is not in the schema stay as they
    are. *)
Lemma apply_loops (pg : page) (fields : schema) :
  fst (parseAnnotationFields pg) = Schema fields ->
  field_page (posts pg) ->
  let st :=
    fold_left (apply_field B (added_fields_of (posts pg))) (for_in fields)
      {| ap_posts := posts pg; ap_fields_to_add := []; ap_threw := false |} in
  let ps := fold_left (append_widgets B) (for_in (ap_fields_to_add st)) (ap_posts st) in
  ap_threw st = false
  /\ field_page ps
  /\ forall x, obj_get fields x = None ->
       widgets_of (field_class x) ps = widgets_of (field_class x) (posts pg).
Proof.
  intros Hres Hbuilt st ps.
  pose proof (parseAnnotationFields_keys pg fields Hres) as Hnd.
  assert (HndL : NoDup (map fst (for_in fields))).
  { eapply Permutation_NoDup; [|exact Hnd].
    apply Permutation_map. symmetry. apply for_in_perm. }
  destruct (apply_loop_frame B (added_fields_of (posts pg)) (for_in fields)
              {| ap_posts := posts pg; ap_fields_to_add := []; ap_threw := false |}
              eq_refl Hbuilt HndL) as (Ht & Hb & Hl & Hn & Hk).
  { intros g _. apply added_fields_selected. }
  fold st in Ht, Hb, Hl, Hn, Hk.
  split; [exact Ht|].
  split; [now destruct (append_loop B [] (for_in (ap_fields_to_add st)) _ Hb)|].
  intros x Hx.
  destruct (append_loop B x (for_in (ap_fields_to_add st)) _ Hb) as (_ & _ & Hw).
  fold ps in Hw. rewrite Hw.
  destruct (Hk x) as [Hwx Hox].
  { apply obj_get_None in Hx. intros Hin. apply Hx.
    eapply Permutation_in; [|exact Hin]. apply Permutation_map, for_in_perm. }
  cbn [ap_posts ap_fields_to_add obj_get] in Hwx, Hox.
  rewrite filter_key_absent.
  - rewrite <- Hwx. unfold widgets_of. apply map_ext. intros p. apply app_nil_r.
  - apply obj_get_None in Hox. intros Hin. apply Hox.
    eapply Permutation_in; [|exact Hin]. apply Permutation_map, for_in_perm.
Qed.


(** X16: on posts ([li] elements with an id) whose widgets have the
    class layout, page and schema being of plain identifiers, the
    reconciliation of a valid schema never throws:
    [applyAnnotationFields] reaches its end and writes "Apply" back into
    the button.  The toggle of the annotations is then shown and enabled
    when the first post still holds a widget, and hidden and disabled when
    it holds none. *)
Theorem apply_reaches_end (pg : page) (fields : schema) :
  fst (parseAnnotationFields pg) = Schema fields ->
  field_page (posts pg) ->
  plain_page (posts pg) = true ->
  plain_schema fields = true ->
  let pg' := applyAnnotationFields B pg in
  apply_button_html pg' = lit "<i class='fas fa-check'></i> Apply"
  /\ toggle_shown pg' = nonnil (first_panel (posts pg'))
  /\ toggle_disabled pg' = negb (nonnil (first_panel (posts pg'))).
Proof.
  intros Hres Hbuilt _ _.
  destruct (apply_loops pg fields Hres Hbuilt) as (Ht & _ & _).
  cbv zeta in *. unfold applyAnnotationFields.
  destruct (parseAnnotationFields_frame pg) as [_ Hp].
  destruct (parseAnnotationFields pg) as [res pg1]. cbn [fst snd] in *. subst res.
  cbv zeta.
  set (pg2 := warnEditor [] (set_apply_button_html _ pg1)).
  assert (HS : posts (saveAnnotationFields fields pg2) = posts pg).
  { rewrite saveAnnotationFields_posts. unfold pg2.
    destruct (warnEditor_frame [] (set_apply_button_html
                (lit "<i class='fas fa-circle-notch spinner'></i> Applying") pg1))
      as (_ & -> & _). exact Hp. }
  rewrite HS, Ht.
  destruct (remove_deleted _ _) as [|p ps]; [repeat split|].
  destruct (post_annotations p) eqn:Ep; cbn; rewrite Ep; repeat split.
Qed.

End ApplyDeleted.



Lemma apply_reaches_end_witness :
  let pg' := applyAnnotationFields plain_browser page_field_replaced in
  apply_button_html pg' = lit "<i class='fas fa-check'></i> Apply"
  /\ toggle_shown pg' = true /\ toggle_disabled pg' = false.
Proof.
  destruct sample_pages_laid_out as (H & _ & _).
  destruct (apply_reaches_end plain_browser page_field_replaced
              [(lit "f2", {| fd_type := text; fd_label := lit "Tone";
                             fd_options := None |})]) as (H1 & H2 & H3).
  - reflexivity.
  - exact H.
  - reflexivity.
  - reflexivity.
  - cbv zeta. split; [exact H1|]. split; [rewrite H2 | rewrite H3]; reflexivity.
Defined.

(** ** The request of applyAnnotationFields *)

(** X17: when [parseAnnotationFields] returns a schema,
    [applyAnnotationFields] issues exactly one request, the POST of that
    schema to "explorer/save_annotation_fields/<key>" under the root, on
    every page: whatever the widgets of the posts are and whatever becomes
    of them afterwards, also when the reconciliation ends in a TypeError.
    No alert is raised. *)
Theorem apply_posts_parsed_schema (B : browser) (pg : page) (fields : schema) :
  fst (parseAnnotationFields pg) = Schema fields ->
  requests (applyAnnotationFields B pg)
  = requests pg
      ++ [{| rq_url :=
               getRelativeURL
                 (lit "explorer/save_annotation_fields/" ++ dataset_key pg) pg;
             rq_body := FieldsBody fields |}].
Proof.
  intros H. rewrite applyAnnotationFields_requests. now rewrite H.
Qed.

Lemma apply_posts_parsed_schema_witness :
  requests (applyAnnotationFields plain_browser page_two_added_rows)
  = [{| rq_url := lit "/explorer/save_annotation_fields/abc123";
        rq_body :=
          FieldsBody
            [(lit "undefined",
              {| fd_type := textarea; fd_label := lit "Topic"; fd_options := None |})] |}].
Proof.
  rewrite (apply_posts_parsed_schema plain_browser page_two_added_rows
             [(lit "undefined",
               {| fd_type := textarea; fd_label := lit "Topic"; fd_options := None |})]);
    reflexivity.
Defined.

(** ** The copy of the script that reloads the page *)

Lemma some_row_fails_none (rule : list jsstring -> editor_field -> bool)
    (rows : list editor_field) :
  forall earlier,
    some_row_fails rule earlier rows = false ->
    forall f, In f rows -> exists e, rule e f = false.
Proof.
  induction rows as [|g rows IH]; intros earlier H f Hf; [contradiction|].
  cbn [some_row_fails] in H. apply orb_false_iff in H as [Hg Hrows].
  destruct Hf as [<-|Hf]; [now exists earlier | now apply (IH _ Hrows)].
Qed.

(** X18: in the copy of the script that reloads the page,
    [applyAnnotationFields] saves a schema and reloads only when every row
    of the editor is a text or textarea row.  A dropdown or checkbox row
    with an option input ends the call with the TypeError of the option
    loop; one without option inputs fails the rule that asks for an
    option. *)
Theorem reload_copy_saves_text_rows_only (pg pg' : page) :
  applyAnnotationFields_reload pg = Some (pg', true) ->
  forallb (fun f => negb (option_bearing f)) (editor_rows pg) = true.
Proof.
  unfold applyAnnotationFields_reload.
  destruct (option_loop_throws (editor_rows pg)) eqn:Hthrow; [discriminate|].
  pose proof (parseAnnotationFields_result pg) as Hres.
  destruct (parseAnnotationFields pg) as [[w|fields] pg1]; [discriminate|].
  intros _. cbn [fst] in Hres.
  assert (Hok : some_row_fails (fails_enforced_rules (original_columns pg)) []
                  (editor_rows pg) = false).
  { rewrite <- validation_failures_nonnil, <- last_error_nonnil,
      <- parse_editor_warning, <- Hres. reflexivity. }
  apply forallb_forall. intros f Hf.
  destruct (some_row_fails_none _ _ _ Hok f Hf) as (e & He).
  unfold fails_enforced_rules in He. apply orb_false_iff in He as [_ He].
  destruct (option_bearing f) eqn:Hb; [|reflexivity]. exfalso.
  cbn [andb] in He. apply orb_false_iff in He as [Hfirst _].
  apply negb_false_iff in Hfirst.
  unfold option_loop_throws in Hthrow.
  assert (Hnone : option_fields f = []).
  { destruct (option_fields f) as [|o os] eqn:Eo; [reflexivity|].
    assert (Hex : existsb
                    (fun f => match field_type_val f, option_fields f with
                              | (dropdown | checkbox), _ :: _ => true
                              | _, _ => false
                              end) (editor_rows pg) = true).
    { apply existsb_exists. exists f. split; [assumption|].
      rewrite Eo. unfold option_bearing in Hb.
      destruct (field_type_val f); congruence. }
    congruence. }
  unfold has_first_option, option_values in Hfirst. rewrite Hnone in Hfirst.
  discriminate.
Qed.

Lemma reload_copy_saves_text_rows_only_witness :
  forallb (fun f => negb (option_bearing f)) (editor_rows page_two_added_rows) = true
  /\ option_map snd (applyAnnotationFields_reload page_two_rows) = None.
Proof.
  split; [|reflexivity].
  apply (reload_copy_saves_text_rows_only page_two_added_rows
           (saveAnnotationFields
              [(lit "undefined",
                {| fd_type := textarea; fd_label := lit "Topic"; fd_options := None |})]
              (warnEditor []
                 (set_apply_button_html
                    (lit "<i class='fas fa-circle-notch spinner'></i> Applying")
                    (snd (parseAnnotationFields page_two_added_rows)))))).
  reflexivity.
Defined.

(** ** Option lists of a field that keeps its type *)











Section ApplyOptions.

Variable B : browser.








End ApplyOptions.



(* ================================================================== *)
(** * Identifiers and end-to-end saving *)
(* ================================================================== *)

(** ** The field id of a row *)

Lemma split_dash_free (x : jsstring) :
  dash_free x = true ->
  split_str [DASH] x = [x]
  /\ forall y, split_str [DASH] (x ++ DASH :: y) = x :: split_str [DASH] y.
Proof.
  unfold split_str, dash_free.
  induction x as [|c x IH]; cbn [forallb]; intros H.
  - split; [reflexivity|]. intros y. cbn. reflexivity.
  - apply andb_true_iff in H as [Hc Hx]. destruct (IH Hx) as [IH1 IH2].
    apply negb_true_iff in Hc.
    assert (Hstrip : forall r, strip_prefix [DASH] (c :: r) = None).
    { intros r.
      change (strip_prefix [DASH] (c :: r)) with (if N.eqb DASH c then Some r else None).
      now rewrite N.eqb_sym, Hc. }
    split.
    + cbn [split_from]. rewrite Hstrip, IH1. reflexivity.
    + intros y. rewrite <- app_comm_cons. cbn [split_from].
      rewrite Hstrip, IH2. reflexivity.
Qed.

(** X20: the field id [parseAnnotationFields] reads from the id of a
    [dd], [this.id.split("-")[1]].  For an id "field-<x>" it is x when x
    holds no "-"; when more follows after a "-", it is still x: what
    follows the second dash of the id is not part of the key, so rows
    whose ids differ only there share one key. *)
Theorem field_id_between_dashes (x : jsstring) :
  dash_free x = true ->
  field_id_of (lit "field-" ++ x) = x
  /\ forall y, field_id_of (lit "field-" ++ x ++ DASH :: y) = x.
Proof.
  intros Hx. unfold field_id_of.
  destruct (split_dash_free (lit "field") eq_refl) as [_ Hf].
  destruct (split_dash_free x Hx) as [H1 H2].
  change (lit "field-" ++ x) with (lit "field" ++ DASH :: x).
  split.
  - rewrite Hf, H1. reflexivity.
  - intros y. change (lit "field-" ++ x ++ DASH :: y)
      with (lit "field" ++ DASH :: (x ++ DASH :: y)).
    rewrite Hf, H2. reflexivity.
Qed.

Lemma field_id_between_dashes_witness :
  field_id_of (lit "field-a1b2") = lit "a1b2"
  /\ field_id_of (lit "field-a1b2-7") = lit "a1b2".
Proof.
  destruct (field_id_between_dashes (lit "a1b2") eq_refl) as [H1 H2].
  split; [exact H1 | exact (H2 (lit "7"))].
Defined.

(** ** From an edit to the request *)

Lemma map_at_nth {A} (f : A -> A) (l : list A) :
  forall i a, nth_error l i = Some a -> nth_error (map_at i f l) i = Some (f a).
Proof.
  induction l as [|x l IH]; intros [|i] a H; cbn in *; try discriminate.
  - now injection H as ->.
  - now apply IH.
Qed.

Lemma edit_widget_In (i j : nat) (c : control) (ps : list post) (p : post) (w : widget) :
  nth_error ps i = Some p ->
  nth_error (post_annotations p) j = Some w ->
  In {| w_classes := w_classes w; w_label := w_label w; w_control := c |}
     (all_widgets (edit_widget i j c ps)).
Proof.
  intros Hp Hw. unfold all_widgets, edit_widget.
  apply in_flat_map.
  eexists. split.
  - eapply nth_error_In. apply map_at_nth. exact Hp.
  - cbn [post_annotations]. eapply nth_error_In.
    apply (map_at_nth
             (fun w => {| w_classes := w_classes w; w_label := w_label w;
                          w_control := c |})). exact Hw.
Qed.

Lemma Forall2_In_left {X Y} (R : X -> Y -> Prop) (l : list X) (l' : list Y) (x : X) :
  Forall2 R l l' -> In x l -> exists y, In y l' /\ R x y.
Proof.
  induction 1 as [|a b l l' Hab _ IH]; intros Hx; [contradiction|].
  destruct Hx as [<-|Hx].
  - exists b. split; [now left | assumption].
  - destruct (IH Hx) as (y & Hy & Hr). exists y. split; [now right | assumption].
Qed.

(** X21: from an edit to the request.  On a page whose widgets all have
    the class tokens [parseAnnotation] indexes, when the user types into
    the text control of a widget in that layout and then clicks the save
    button, one request goes out, to "explorer/save_annotations/<key>",
    and the annotation for that widget in its body carries the value just
    typed, whatever the save button showed before the edit. *)
Theorem edited_value_is_sent
    (pg : page) (i j : nat) (p : post) (w : widget)
    (c0 f t it v : jsstring) (more : list jsstring) (e : bool) :
  forallb extractable (all_widgets (posts pg)) = true ->
  nth_error (posts pg) i = Some p ->
  nth_error (post_annotations p) j = Some w ->
  w_classes w
    = c0 :: (lit "field-" ++ f) :: (lit "type-" ++ t) :: (lit "item-id-" ++ it) :: more ->
  t = lit "text" \/ t = lit "textarea" ->
  exists anns,
    requests (run [WidgetEdited i j (TextInput e v); Trigger ManualClick] pg)
    = requests pg
        ++ [{| rq_url := getRelativeURL (lit "explorer/save_annotations/" ++ dataset_key pg) pg;
               rq_body := AnnotationsBody anns |}]
    /\ In {| an_field_id := f; an_item_id := it; an_label := w_label w;
             an_type := t; an_value := ValString v; an_author := lit "Jan";
             an_by_processor := false |} anns.
Proof.
  intros Hx Hp Hw Hcl Ht.
  unfold run. cbn [fold_left handle fire].
  set (pg1 := set_edits_made true
                (enableSaving
                   (set_posts (edit_widget i j (TextInput e v) (posts pg)) pg))).
  assert (Hd : save_button_disabled pg1 = false) by reflexivity.
  rewrite Hd. cbn [negb].
  assert (Hx1 : forallb extractable (all_widgets (posts pg1)) = true).
  { cbn [pg1 posts set_edits_made enableSaving set_save_button_html
         set_save_to_dataset_disabled set_save_button_disabled set_posts].
    now rewrite edit_widget_extractable. }
  apply collect_extractable in Hx1. unfold saveAnnotations.
  destruct (collect_annotations (all_widgets (posts pg1))) as [anns|] eqn:E;
    [|contradiction].
  exists anns. split; [reflexivity|].
  apply collect_annotations_all in E.
  destruct (Forall2_In_left _ _ _
              {| w_classes := w_classes w; w_label := w_label w;
                 w_control := TextInput e v |} E) as (a & Ha & Hpa).
  { apply (edit_widget_In i j (TextInput e v) (posts pg) p w Hp Hw). }
  assert (Hread :
    parseAnnotation {| w_classes := w_classes w; w_label := w_label w;
                       w_control := TextInput e v |}
    = Some {| an_field_id := f; an_item_id := it; an_label := w_label w;
              an_type := t; an_value := ValString v; an_author := lit "Jan";
              an_by_processor := false |}).
  { assert (Hc : w_classes {| w_classes := w_classes w; w_label := w_label w;
                              w_control := TextInput e v |}
                 = c0 :: (lit "field-" ++ f) :: (lit "type-" ++ t)
                      :: (lit "item-id-" ++ it) :: more) by exact Hcl.
    assert (Hv : text_value {| w_classes := w_classes w; w_label := w_label w;
                               w_control := TextInput e v |} = Some v)
      by reflexivity.
    read_text_widget Hc Ht Hv. }
  rewrite Hread in Hpa. injection Hpa as <-. exact Ha.
Qed.

Lemma edited_value_is_sent_witness :
  exists anns,
    requests (run [WidgetEdited 1 0 (TextInput true (lit "bye")); Trigger ManualClick]
                page_rendered_widgets)
    = [{| rq_url := lit "/explorer/save_annotations/abc123";
          rq_body := AnnotationsBody anns |}]
    /\ In {| an_field_id := lit "f1"; an_item_id := lit "43"; an_label := lit "Notes";
             an_type := lit "text"; an_value := ValString (lit "bye");
             an_author := lit "Jan"; an_by_processor := false |} anns.
Proof.
  apply (edited_value_is_sent page_rendered_widgets 1 0
           {| li_id := lit "post-43";
              post_annotations :=
                [text_widget [lit "post-annotation"; lit "field-f1"; lit "type-text";
                              lit "item-id-43"] "world"] |}
           (text_widget [lit "post-annotation"; lit "field-f1"; lit "type-text";
                         lit "item-id-43"] "world")
           (lit "post-annotation") (lit "f1") (lit "text") (lit "43") (lit "bye") [] true);
    try reflexivity. now left.
Defined.
